(** * Position reconciliation engine

    A shallow embedding of [reconciliation_standalone.py]: the severity
    classifier [calculate_severity] and the reconciliation engine
    [reconcile_positions], with the properties of the specification
    stated and proved over them.

    Numbers.  A quantity is a 64-bit integer of numpy, a [Z] whose
    subtraction wraps around ([wrap64]).  Prices, market values,
    variances and percentages are Python floats, that is IEEE 754
    binary64 numbers.  A finite binary64 number is a rational, so the
    type is [Q]; every arithmetic operation is the exact operation on
    rationals followed by rounding to the nearest binary64 number, ties
    to even ([binary64]), as IEEE 754 prescribes; comparisons, negation
    and the absolute value are exact.  Infinities, NaN, the sign of zero
    and overflow beyond the largest binary64 number are outside the
    model.  True division is [checked_div], which fails with
    [ZeroDivisionError] on a zero divisor.

    Collections.  A [DataFrame] is the list of its rows together with the
    optional extra column ['pos_key'].  Data frames live in a [heap] and
    are passed by reference, as Python objects are.  A Python [set] is a
    [gset string]; the order in which a [for] loop walks a set is not
    fixed by the language, so it is a parameter ([iter]) of the engine. *)

From Stdlib Require Import ZArith QArith Qabs Qround Lia Ascii String.
From Stdlib Require Import DecimalString DecimalN.
From Stdlib Require Import Sorted.
From Stdlib Require PrimFloat FloatOps SpecFloat.
From stdpp Require Import base decidable option gmap strings functions list.

Local Open Scope string_scope.
Local Open Scope list_scope.
Local Open Scope Q_scope.

(** ** Comparisons of the numeric model *)

(** Python [a > b]. *)
Definition Qgt_bool (a b : Q) : bool := negb (Qle_bool a b).

(** Python [a != 0]. *)
Definition Qnonzero (a : Q) : bool := negb (Qeq_bool a 0).

(** ** Binary64 arithmetic *)

(** Nearest integer, ties to the even one. *)
Definition round_half_even (x : Q) : Z :=
  let f := Qfloor x in
  let r := x - inject_Z f in
  if Qgt_bool (1 # 2) r then f
  else if Qgt_bool r (1 # 2) then (f + 1)%Z
  else if Z.even f then f else (f + 1)%Z.

(** For [x > 0], the integer [k] with [2^k <= x < 2^(k+1)]. *)
Definition Qlog2 (x : Q) : Z :=
  let k := (Z.log2 (Qnum x) - Z.log2 (Z.pos (Qden x)))%Z in
  if Qle_bool (Qpower 2 k) x then k else (k - 1)%Z.

(** The binary64 number nearest to [x], ties to the even significand.
    The significand has 53 bits; below [2^-1022] the spacing stays at
    [2^-1074] (gradual underflow).  This is how Python reads a decimal
    literal, and how every operation on floats rounds its exact
    result. *)
Definition binary64 (x : Q) : Q :=
  if Qeq_bool x 0 then 0
  else
    let e := Z.max (Qlog2 (Qabs x) - 52) (-1074) in
    Qred (inject_Z (round_half_even (x / Qpower 2 e)) * Qpower 2 e).

(** Python [a + b], [a - b], [a * b] on floats. *)
Definition fadd (a b : Q) : Q := binary64 (a + b).
Definition fsub (a b : Q) : Q := binary64 (a - b).
Definition fmul (a b : Q) : Q := binary64 (a * b).

(** [a / b] on floats, for a divisor that is not zero. *)
Definition fdiv (a b : Q) : Q := binary64 (a / b).

(** The float of a 64-bit integer, as numpy converts it when an integer
    meets a float or is divided. *)
Definition of_int (z : Z) : Q := binary64 (inject_Z z).

(** [numpy.rint]: the nearest integer, ties to even.  The result is a
    binary64 number whenever the argument is one. *)
Definition rint (x : Q) : Q := inject_Z (round_half_even x).

(** The 64-bit two's complement integer congruent to [z]: the result of
    numpy's [int64] arithmetic. *)
Definition wrap64 (z : Z) : Z := ((z + 2 ^ 63) mod 2 ^ 64 - 2 ^ 63)%Z.

Arguments binary64 : simpl never.
Arguments fadd : simpl never.
Arguments fsub : simpl never.
Arguments fmul : simpl never.
Arguments fdiv : simpl never.
Arguments of_int : simpl never.
Arguments rint : simpl never.
Arguments wrap64 : simpl never.

(** ** Enumerations and configuration *)

Inductive BreakType :=
| QUANTITY_MISMATCH
| PRICE_MISMATCH
| MARKET_VALUE_MISMATCH
| MISSING_IN_SOURCE
| MISSING_IN_TARGET.

Definition BreakType_value (t : BreakType) : string :=
  match t with
  | QUANTITY_MISMATCH => "Quantity Mismatch"
  | PRICE_MISMATCH => "Price Mismatch"
  | MARKET_VALUE_MISMATCH => "Market Value Mismatch"
  | MISSING_IN_SOURCE => "Missing in Source"
  | MISSING_IN_TARGET => "Missing in Target"
  end.

Inductive Severity := CRITICAL | HIGH | MEDIUM | LOW.

Definition Severity_value (s : Severity) : string :=
  match s with
  | CRITICAL => "CRITICAL"
  | HIGH => "HIGH"
  | MEDIUM => "MEDIUM"
  | LOW => "LOW"
  end.

(** Tier order of the glossary: CRITICAL > HIGH > MEDIUM > LOW. *)
Definition tier (s : Severity) : nat :=
  match s with
  | CRITICAL => 3
  | HIGH => 2
  | MEDIUM => 1
  | LOW => 0
  end%nat.

(** The [TOLERANCES] dictionary; its four keys are the four fields. *)
Record Tolerances := {
  quantity_pct : Q;
  price_pct : Q;
  market_value_pct : Q;
  min_threshold : Q
}.

Definition TOLERANCES : Tolerances := {|
  quantity_pct := 1;
  price_pct := binary64 (1 # 10);
  market_value_pct := 2;
  min_threshold := 100
|}.

(** ** Severity classifier *)

Definition calculate_severity (variance variance_pct : Q) : Severity :=
  let abs_var := Qabs variance in
  let abs_pct := Qabs variance_pct in
  if Qgt_bool abs_var 100000 || Qgt_bool abs_pct 10 then CRITICAL
  else if Qgt_bool abs_var 50000 || Qgt_bool abs_pct 5 then HIGH
  else if Qgt_bool abs_var 10000 || Qgt_bool abs_pct 2 then MEDIUM
  else LOW.

(** The rule table of the specification (section 4.1), read top-down:
    dollar threshold, percentage threshold, tier. *)
Definition severity_table : list (Q * Q * Severity) :=
  [ (100000, 10, CRITICAL); (50000, 5, HIGH); (10000, 2, MEDIUM) ].

(** First matching row wins; no row gives LOW. *)
Fixpoint first_match (rules : list (Q * Q * Severity)) (abs_var abs_pct : Q) : Severity :=
  match rules with
  | [] => LOW
  | (t_var, t_pct, s) :: rest =>
      if Qgt_bool abs_var t_var || Qgt_bool abs_pct t_pct then s
      else first_match rest abs_var abs_pct
  end.

Definition classify (variance variance_pct : Q) : Severity :=
  first_match severity_table (Qabs variance) (Qabs variance_pct).

(** ** Errors *)

Inductive error := ZeroDivisionError | IndexError | KeyError.

Inductive result (A : Type) :=
| Ok (a : A)
| Err (e : error).
Arguments Ok {A} a.
Arguments Err {A} e.

(** Sequencing: an error ends the computation. *)
#[global] Instance result_bind : MBind result := fun A B k r =>
  match r with
  | Ok a => k a
  | Err e => Err e
  end.

(** A [for] loop over [l] whose body updates the loop state and may raise. *)
Fixpoint for_each {A S : Type} (l : list A) (body : S -> A -> result S) (s : S) : result S :=
  match l with
  | [] => Ok s
  | a :: rest => s' ← body s a; for_each rest body s'
  end.

(** Python [a / b] on floats. *)
Definition checked_div (a b : Q) : result Q :=
  if Qeq_bool b 0 then Err ZeroDivisionError else Ok (fdiv a b).

(** [a / b] on 64-bit integers: true division, both operands converted
    to floats. *)
Definition checked_div_int (a b : Z) : result Q :=
  if (b =? 0)%Z then Err ZeroDivisionError else Ok (fdiv (of_int a) (of_int b)).

(** ** Rounding and number formatting *)

(** [round(x, 2)] on a numpy float: numpy multiplies by 100, takes
    [rint] and divides by 100, each step in binary64. *)
Definition round2 (x : Q) : Q := fdiv (rint (fmul x 100)) 100.

Arguments round2 : simpl never.

Definition decimal (n : N) : string := NilEmpty.string_of_uint (N.to_uint n).

Fixpoint zeros (n : nat) : string :=
  match n with
  | O => ""
  | S n' => String "0"%char (zeros n')
  end.

(** Pad on the left with zeros up to [width] characters; longer strings
    are kept whole. *)
Definition zero_pad (width : nat) (s : string) : string :=
  zeros (width - String.length s) +:+ s.

(** Format specification [:04d] on a non-negative integer. *)
Definition format_04d (n : N) : string := zero_pad 4 (decimal n).

(** Digits from the least significant one; a comma after every third
    digit that is followed by another. *)
Fixpoint group3 (rev_digits : list ascii) (k : nat) : list ascii :=
  match rev_digits with
  | [] => []
  | d :: rest =>
      match rest with
      | [] => [d]
      | _ :: _ =>
          if (k =? 2)%nat then d :: ","%char :: group3 rest 0
          else d :: group3 rest (S k)
      end
  end.

Definition thousands (digits : string) : string :=
  string_of_list_ascii (rev (group3 (rev (list_ascii_of_string digits)) 0)).

(** Format specifications [:,.0f] ([places = 0]) and [:,.2f] ([places = 2]). *)
Definition format_comma_f (places : nat) (x : Q) : string :=
  let scale := (10 ^ Z.of_nat places)%Z in
  let scaled := round_half_even (Qabs x * inject_Z scale) in
  let sign := if Qgt_bool 0 x then "-" else "" in
  let whole := thousands (decimal (Z.to_N (scaled / scale))) in
  let frac :=
    match places with
    | O => ""
    | S _ => "." +:+ zero_pad places (decimal (Z.to_N (scaled mod scale)))
    end in
  sign +:+ whole +:+ frac.

(** ** Data model *)

Record Position := {
  symbol : string;
  account_id : string;
  quantity : Z;
  price : Q;
  market_value : Q;
  currency : string;
  trade_date : string;
  settle_date : string
}.

(** A data frame: its rows, and the column ['pos_key'] when it has one
    (one entry per row). *)
Record DataFrame := {
  df_rows : list Position;
  df_pos_key : option (list string)
}.

(** Data frames are Python objects: the engine receives references. *)
Abbreviation ref := nat (only parsing).
Abbreviation heap := (ref -> DataFrame) (only parsing).

(** One dictionary of the returned list.  ['symbol'] and ['account_id']
    are [brk_symbol] and [brk_account_id]. *)
Record Break := {
  break_id : string;
  break_type : string;
  severity : string;
  brk_symbol : string;
  brk_account_id : string;
  internal_value : Q;
  pb_value : Q;
  variance : Q;
  variance_pct : Q;
  details : string
}.

(** [df['symbol'] + '|' + df['account_id']], row by row. *)
Definition pos_key (r : Position) : string := (symbol r +:+ "|") +:+ account_id r.

Definition key_column (df : DataFrame) : list string := map pos_key (df_rows df).

(** [df['pos_key'] = col] *)
Definition set_pos_key (df : DataFrame) (col : list string) : DataFrame :=
  {| df_rows := df_rows df; df_pos_key := Some col |}.

(** [df['pos_key']] *)
Definition get_pos_key (df : DataFrame) : result (list string) :=
  match df_pos_key df with
  | Some col => Ok col
  | None => Err KeyError
  end.

(** [df[mask]]: the rows whose mask entry is true. *)
Fixpoint mask_rows (mask : list bool) (rows : list Position) : list Position :=
  match mask, rows with
  | m :: mask', r :: rows' => if m then r :: mask_rows mask' rows' else mask_rows mask' rows'
  | _, _ => []
  end.

(** [df[df['pos_key'] == key]] *)
Definition rows_with_key (df : DataFrame) (key : string) : result (list Position) :=
  col ← get_pos_key df;
  Ok (mask_rows (map (fun k => String.eqb k key) col) (df_rows df)).

(** [.iloc[0]] *)
Definition iloc0 (rows : list Position) : result Position :=
  match rows with
  | r :: _ => Ok r
  | [] => Err IndexError
  end.

(** [f"BRK-{len(breaks)+1:04d}"] *)
Definition next_break_id (breaks : list Break) : string :=
  "BRK-" +:+ format_04d (N.of_nat (length breaks + 1)).

(** ** Reconciliation engine *)

(** Body of [for key in missing_in_pb]. *)
Definition missing_in_target_step (internal_df : DataFrame)
    (breaks : list Break) (key : string) : result (list Break) :=
  rows ← rows_with_key internal_df key;
  pos ← iloc0 rows;
  Ok (breaks ++ [ {|
    break_id := next_break_id breaks;
    break_type := BreakType_value MISSING_IN_TARGET;
    severity := Severity_value (calculate_severity (market_value pos) 100);
    brk_symbol := symbol pos;
    brk_account_id := account_id pos;
    internal_value := market_value pos;
    pb_value := 0;
    variance := market_value pos;
    variance_pct := 100;
    details := "Position exists in Internal but not in Prime Broker" |} ]).

(** Body of [for key in missing_in_internal]. *)
Definition missing_in_source_step (pb_df : DataFrame)
    (breaks : list Break) (key : string) : result (list Break) :=
  rows ← rows_with_key pb_df key;
  pos ← iloc0 rows;
  Ok (breaks ++ [ {|
    break_id := next_break_id breaks;
    break_type := BreakType_value MISSING_IN_SOURCE;
    severity := Severity_value (calculate_severity (market_value pos) 100);
    brk_symbol := symbol pos;
    brk_account_id := account_id pos;
    internal_value := 0;
    pb_value := market_value pos;
    variance := - market_value pos;
    variance_pct := - (100);
    details := "Position exists in Prime Broker but not in Internal" |} ]).

(** The three checks on a matched pair.  The variance and the
    percentage variance of each check are the local variables of the
    loop body. *)

Definition qty_var (int_pos pb_pos : Position) : Z :=
  wrap64 (quantity int_pos - quantity pb_pos).

Definition qty_var_pct (int_pos pb_pos : Position) : result Q :=
  if negb (quantity int_pos =? 0)%Z then
    q ← checked_div_int (qty_var int_pos pb_pos) (quantity int_pos);
    Ok (fmul q 100)
  else Ok 0.

Definition check_quantity (int_pos pb_pos : Position) (breaks : list Break)
    : result (list Break) :=
  let qty_var := qty_var int_pos pb_pos in
  qty_var_pct ← qty_var_pct int_pos pb_pos;
  if Qgt_bool (Qabs qty_var_pct) (quantity_pct TOLERANCES) then
    let dollar_impact := Qabs (fmul (of_int qty_var) (price int_pos)) in
    Ok (breaks ++ [ {|
      break_id := next_break_id breaks;
      break_type := BreakType_value QUANTITY_MISMATCH;
      severity := Severity_value (calculate_severity dollar_impact qty_var_pct);
      brk_symbol := symbol int_pos;
      brk_account_id := account_id int_pos;
      internal_value := inject_Z (quantity int_pos);
      pb_value := inject_Z (quantity pb_pos);
      variance := inject_Z qty_var;
      variance_pct := round2 qty_var_pct;
      details := "Quantity: Internal=" +:+ format_comma_f 0 (of_int (quantity int_pos))
                 +:+ " vs PB=" +:+ format_comma_f 0 (of_int (quantity pb_pos)) |} ])
  else Ok breaks.

Definition price_var (int_pos pb_pos : Position) : Q :=
  fsub (price int_pos) (price pb_pos).

Definition price_var_pct (int_pos pb_pos : Position) : result Q :=
  if Qnonzero (price int_pos) then
    q ← checked_div (price_var int_pos pb_pos) (price int_pos);
    Ok (fmul q 100)
  else Ok 0.

Definition check_price (int_pos pb_pos : Position) (breaks : list Break)
    : result (list Break) :=
  let price_var := price_var int_pos pb_pos in
  price_var_pct ← price_var_pct int_pos pb_pos;
  if Qgt_bool (Qabs price_var_pct) (price_pct TOLERANCES) then
    let dollar_impact := Qabs (fmul price_var (of_int (quantity int_pos))) in
    Ok (breaks ++ [ {|
      break_id := next_break_id breaks;
      break_type := BreakType_value PRICE_MISMATCH;
      severity := Severity_value (calculate_severity dollar_impact price_var_pct);
      brk_symbol := symbol int_pos;
      brk_account_id := account_id int_pos;
      internal_value := price int_pos;
      pb_value := price pb_pos;
      variance := round2 price_var;
      variance_pct := round2 price_var_pct;
      details := "Price: Internal=$" +:+ format_comma_f 2 (price int_pos)
                 +:+ " vs PB=$" +:+ format_comma_f 2 (price pb_pos) |} ])
  else Ok breaks.

Definition mv_var (int_pos pb_pos : Position) : Q :=
  fsub (market_value int_pos) (market_value pb_pos).

Definition mv_var_pct (int_pos pb_pos : Position) : result Q :=
  if Qnonzero (market_value int_pos) then
    q ← checked_div (mv_var int_pos pb_pos) (market_value int_pos);
    Ok (fmul q 100)
  else Ok 0.

Definition check_market_value (int_pos pb_pos : Position) (breaks : list Break)
    : result (list Break) :=
  let mv_var := mv_var int_pos pb_pos in
  mv_var_pct ← mv_var_pct int_pos pb_pos;
  if Qgt_bool (Qabs mv_var_pct) (market_value_pct TOLERANCES)
     && Qgt_bool (Qabs mv_var) (min_threshold TOLERANCES) then
    Ok (breaks ++ [ {|
      break_id := next_break_id breaks;
      break_type := BreakType_value MARKET_VALUE_MISMATCH;
      severity := Severity_value (calculate_severity mv_var mv_var_pct);
      brk_symbol := symbol int_pos;
      brk_account_id := account_id int_pos;
      internal_value := market_value int_pos;
      pb_value := market_value pb_pos;
      variance := round2 mv_var;
      variance_pct := round2 mv_var_pct;
      details := "MV: Internal=$" +:+ format_comma_f 2 (market_value int_pos)
                 +:+ " vs PB=$" +:+ format_comma_f 2 (market_value pb_pos) |} ])
  else Ok breaks.

(** Body of [for key in common_keys]. *)
Definition matched_step (internal_df pb_df : DataFrame)
    (breaks : list Break) (key : string) : result (list Break) :=
  int_rows ← rows_with_key internal_df key;
  int_pos ← iloc0 int_rows;
  pb_rows ← rows_with_key pb_df key;
  pb_pos ← iloc0 pb_rows;
  breaks ← check_quantity int_pos pb_pos breaks;
  breaks ← check_price int_pos pb_pos breaks;
  check_market_value int_pos pb_pos breaks.

Section Engine.

(** The order in which a [for] loop walks a set. *)
Variable iter : gset string -> list string.

(** The two column assignments change the heap; everything after them
    only reads the two data frames. *)
Definition reconcile_positions (internal_df pb_df : ref) (h : heap)
    : heap * result (list Break) :=
  let breaks : list Break := [] in
  let h := <[ internal_df := set_pos_key (h internal_df) (key_column (h internal_df)) ]> h in
  let h := <[ pb_df := set_pos_key (h pb_df) (key_column (h pb_df)) ]> h in
  (h,
   internal_col ← get_pos_key (h internal_df);
   pb_col ← get_pos_key (h pb_df);
   let internal_keys : gset string := list_to_set internal_col in
   let pb_keys : gset string := list_to_set pb_col in
   let missing_in_pb := internal_keys ∖ pb_keys in
   let missing_in_internal := pb_keys ∖ internal_keys in
   breaks ← for_each (iter missing_in_pb) (missing_in_target_step (h internal_df)) breaks;
   breaks ← for_each (iter missing_in_internal) (missing_in_source_step (h pb_df)) breaks;
   let common_keys := internal_keys ∩ pb_keys in
   breaks ← for_each (iter common_keys) (matched_step (h internal_df) (h pb_df)) breaks;
   Ok breaks).

End Engine.

(** The breaks of a run, and the heap after it. *)
Definition breaks_of (run : heap * result (list Break)) : result (list Break) := snd run.
Definition heap_of (run : heap * result (list Break)) : heap := fst run.

(** ** Notions used to state the properties *)

(** The data frame after [df['pos_key'] = df['symbol'] + '|' + df['account_id']]. *)
Definition keyed (df : DataFrame) : DataFrame := set_pos_key df (key_column df).

(** The first row of [df] whose key is [key]: the position the engine
    works with for that key. *)
Definition first_row (df : DataFrame) (key : string) : option Position :=
  find (fun r => String.eqb (pos_key r) key) (df_rows df).

(** The key of the position a break is about. *)
Definition break_key (b : Break) : string := (brk_symbol b +:+ "|") +:+ brk_account_id b.

Definition with_break_id (id : string) (b : Break) : Break := {|
  break_id := id;
  break_type := break_type b;
  severity := severity b;
  brk_symbol := brk_symbol b;
  brk_account_id := brk_account_id b;
  internal_value := internal_value b;
  pb_value := pb_value b;
  variance := variance b;
  variance_pct := variance_pct b;
  details := details b
|}.

(** A break without its identifier. *)
Definition content (b : Break) : Break := with_break_id "" b.

(** Identifiers given by position to [l], the breaks that follow [n]
    earlier ones. *)
Fixpoint number (n : nat) (l : list Break) : list Break :=
  match l with
  | [] => []
  | b :: rest =>
      with_break_id ("BRK-" +:+ format_04d (N.of_nat (n + 1))) b :: number (S n) rest
  end.

(** What a step adds, seen on an empty list. *)
Definition added (step : list Break -> result (list Break)) : list Break :=
  match step [] with
  | Ok l => l
  | Err _ => []
  end.

(** What a loop body adds for [key]. *)
Definition emit (body : list Break -> string -> result (list Break)) (key : string)
    : list Break :=
  added (fun breaks => body breaks key).

(** [body] appends to the list, for [key], what it adds to an empty
    list, renumbered. *)
Definition appends (body : list Break -> string -> result (list Break)) (key : string) : Prop :=
  forall breaks, body breaks key = Ok (breaks ++ number (length breaks) (emit body key)).

(** An iteration order lists every element of the set once. *)
Definition iter_ok (iter : gset string -> list string) : Prop :=
  forall s : gset string, NoDup (iter s) /\ forall k, k ∈ iter s <-> k ∈ s.

(** Some key occurs on two rows of the data frame. *)
Definition has_duplicate_keys (df : DataFrame) : Prop := ~ NoDup (key_column df).

(** The rows of [rows] whose key is not among [seen] and not on an
    earlier row. *)
Fixpoint first_rows (seen : list string) (rows : list Position) : list Position :=
  match rows with
  | [] => []
  | r :: rest =>
      if bool_decide (pos_key r ∈ seen) then first_rows seen rest
      else r :: first_rows (pos_key r :: seen) rest
  end.

(** The data frame without the later rows of a repeated key. *)
Definition drop_duplicates (df : DataFrame) : DataFrame :=
  {| df_rows := first_rows [] (df_rows df); df_pos_key := df_pos_key df |}.

(** [b0] is what the engine adds for [key], before numbering. *)
Definition emitted (internal_df pb_df : DataFrame) (key : string) (b0 : Break) : Prop :=
  (key ∈ key_column internal_df /\ (key ∉ key_column pb_df) /\
     b0 ∈ emit (missing_in_target_step (keyed internal_df)) key) \/
  (key ∈ key_column pb_df /\ (key ∉ key_column internal_df) /\
     b0 ∈ emit (missing_in_source_step (keyed pb_df)) key) \/
  (key ∈ key_column internal_df /\ key ∈ key_column pb_df /\
     b0 ∈ emit (matched_step (keyed internal_df) (keyed pb_df)) key).

(** The engine after the two column assignments, on the two data frames. *)
Definition detect (iter : gset string -> list string) (internal_df pb_df : DataFrame)
    : list Break :=
  let internal_keys : gset string := list_to_set (key_column internal_df) in
  let pb_keys : gset string := list_to_set (key_column pb_df) in
  number 0
    ((iter (internal_keys ∖ pb_keys) ≫= emit (missing_in_target_step (keyed internal_df)))
     ++ (iter (pb_keys ∖ internal_keys) ≫= emit (missing_in_source_step (keyed pb_df)))
     ++ (iter (internal_keys ∩ pb_keys) ≫= emit (matched_step (keyed internal_df) (keyed pb_df)))).

(** A decimal digit. *)
Definition is_digit (c : ascii) : bool :=
  let n := nat_of_ascii c in (48 <=? n)%nat && (n <=? 57)%nat.

(** Exactly four decimal digits. *)
Definition four_digits (s : string) : bool :=
  match s with
  | String a (String b (String c (String d EmptyString))) =>
      is_digit a && is_digit b && is_digit c && is_digit d
  | _ => false
  end.

(** ** Sample snapshots *)

Definition position (symbol account_id : string) (quantity : Z) (price market_value : Q)
    : Position := {|
  symbol := symbol;
  account_id := account_id;
  quantity := quantity;
  price := price;
  market_value := market_value;
  currency := "USD";
  trade_date := "2024-03-01";
  settle_date := "2024-03-03"
|}.

(** Internal positions: AAPL differs in quantity, XYZ is missing at the
    broker, MSFT differs in price by a small amount of money, IDLE has
    no quantity, price or value on the internal side. *)
Definition sample_internal : DataFrame := {|
  df_rows := [ position "AAPL" "HEDGE_FUND_01" 10000 100 1000000;
               position "XYZ" "HEDGE_FUND_01" 5 100 500;
               position "MSFT" "HEDGE_FUND_01" 10 (1 # 2) 5;
               position "IDLE" "HEDGE_FUND_02" 0 0 0;
               position "JPM" "HEDGE_FUND_02" 300 200 60000 ];
  df_pos_key := None
|}.

Definition sample_pb : DataFrame := {|
  df_rows := [ position "AAPL" "HEDGE_FUND_01" 9400 100 940000;
               position "NFLX" "HEDGE_FUND_01" 2500 625 1562500;
               position "MSFT" "HEDGE_FUND_01" 10 (1 # 4) (5 # 2);
               position "IDLE" "HEDGE_FUND_02" 70 3 210;
               position "JPM" "HEDGE_FUND_02" 300 200 60000 ];
  df_pos_key := None
|}.

(** Reference 0 is the internal snapshot, every other one the broker's. *)
Definition sample_heap : heap := fun r =>
  match r with
  | O => sample_internal
  | S _ => sample_pb
  end.

(** Snapshots whose figures show the rounding: QTY differs in quantity
    by 109 in 800, PRC in price by the float nearest to 2.675, PENNY
    holds 100.01 against 0.01, WIDE the largest 64-bit quantity against
    -1.  A decimal literal of Python is the binary64 number nearest to
    it. *)
Definition rounding_internal : DataFrame := {|
  df_rows := [ position "QTY" "HEDGE_FUND_01" 800 10 8000;
               position "PRC" "HEDGE_FUND_01" 10 (binary64 (535 # 100)) (binary64 (535 # 10));
               position "PENNY" "HEDGE_FUND_01" 1 (binary64 (10001 # 100))
                        (binary64 (10001 # 100));
               position "WIDE" "HEDGE_FUND_01" (2 ^ 63 - 1) 1 1 ];
  df_pos_key := None
|}.

Definition rounding_pb : DataFrame := {|
  df_rows := [ position "QTY" "HEDGE_FUND_01" 691 10 6910;
               position "PRC" "HEDGE_FUND_01" 10 (binary64 (2675 # 1000)) (binary64 (2675 # 100));
               position "PENNY" "HEDGE_FUND_01" 1 (binary64 (1 # 100)) (binary64 (1 # 100));
               position "WIDE" "HEDGE_FUND_01" (-1) 1 1 ];
  df_pos_key := None
|}.

Definition rounding_heap : heap := fun r =>
  match r with
  | O => rounding_internal
  | S _ => rounding_pb
  end.

(** A snapshot with the key MSFT|HEDGE_FUND_01 on two rows. *)
Definition duplicate_internal : DataFrame := {|
  df_rows := [ position "MSFT" "HEDGE_FUND_01" 10 500 5000;
               position "MSFT" "HEDGE_FUND_01" 18 500 9000 ];
  df_pos_key := None
|}.

Definition duplicate_pb : DataFrame := {|
  df_rows := [ position "MSFT" "HEDGE_FUND_01" 10 500 5000 ];
  df_pos_key := None
|}.

Definition duplicate_heap : heap := fun r =>
  match r with
  | O => duplicate_internal
  | S _ => duplicate_pb
  end.
(** ** Separator of the position key *)

(** The string has no ['|']. *)
Fixpoint no_bar (s : string) : bool :=
  match s with
  | EmptyString => true
  | String c s' => negb (Ascii.eqb c "|"%char) && no_bar s'
  end.

(** ** Alerts *)

(** The line feed. *)
Definition nl : string := String "010"%char "".

(** Python [s * n]. *)
Fixpoint string_repeat (s : string) (n : nat) : string :=
  match n with
  | O => ""
  | S n' => s +:+ string_repeat s n'
  end.

(** Format specification [:+.2f]: the sign always, two decimals. *)
Definition format_plus_2f (x : Q) : string :=
  let scaled := round_half_even (Qabs x * 100) in
  (if Qgt_bool 0 x then "-" else "+")
  +:+ decimal (Z.to_N (scaled / 100)) +:+ "." +:+ zero_pad 2 (decimal (Z.to_N (scaled mod 100))).

(** [b['severity'] in ['CRITICAL', 'HIGH']] *)
Definition is_critical_high (b : Break) : bool :=
  String.eqb (severity b) "CRITICAL" || String.eqb (severity b) "HIGH".

(** What the loop of [generate_alerts] adds to the message for one break. *)
Definition alert_entry (brk : Break) : string :=
  nl +:+ "*[" +:+ severity brk +:+ "]* " +:+ brk_symbol brk
     +:+ " (" +:+ brk_account_id brk +:+ ")" +:+ nl
  +:+ "• Type: " +:+ break_type brk +:+ nl
  +:+ "• Variance: $" +:+ format_comma_f 2 (Qabs (variance brk))
     +:+ " (" +:+ format_plus_2f (variance_pct brk) +:+ "%)" +:+ nl
  +:+ "• " +:+ details brk +:+ nl.

(** The only line printed when nothing is CRITICAL or HIGH. *)
Definition no_alert_line : string :=
  nl +:+ "✅ No critical or high severity breaks - no immediate alerts needed".

(** [generate_alerts]: the strings it prints, one per [print] call.  The
    clock reading [datetime.now().strftime(...)] is the parameter [now]. *)
Definition generate_alerts (now : string) (breaks : list Break) : list string :=
  let critical_high := List.filter is_critical_high breaks in
  match critical_high with
  | [] => [ no_alert_line ]
  | _ :: _ =>
      let count := decimal (N.of_nat (length critical_high)) in
      let slack_message :=
        nl +:+ "*🚨 POSITION RECONCILIATION ALERT*" +:+ nl
        +:+ "━━━━━━━━━━━━━━━━━━━━━━━━━━━━━━━━━━" +:+ nl
        +:+ "Time: " +:+ now +:+ nl
        +:+ "Breaks Requiring Attention: " +:+ count +:+ nl
        +:+ nl in
      let slack_message :=
        fold_left (fun msg brk => msg +:+ alert_entry brk) (take 10 critical_high) slack_message in
      [ nl +:+ "🚨 ALERT: " +:+ count +:+ " Critical/High severity breaks detected!";
        string_repeat "=" 70;
        slack_message;
        nl +:+ "📧 Email Alert Preview:";
        string_repeat "-" 50;
        "To: ops-team@hedgefund.com, risk@hedgefund.com";
        "Subject: [URGENT] Position Recon: " +:+ count +:+ " Breaks Detected";
        "Body: " +:+ count +:+ " position breaks require immediate attention...";
        string_repeat "-" 50 ]
  end.

(** ** Report: the figures it computes *)

(** A Python [dict] with string keys, in insertion order. *)
Fixpoint dict_get {V : Type} (d : list (string * V)) (k : string) (default : V) : V :=
  match d with
  | [] => default
  | (k', v) :: rest => if String.eqb k' k then v else dict_get rest k default
  end.

(** [d[k] = v]: in place when the key is there, at the end otherwise. *)
Fixpoint dict_set {V : Type} (d : list (string * V)) (k : string) (v : V) : list (string * V) :=
  match d with
  | [] => [ (k, v) ]
  | (k', v') :: rest =>
      if String.eqb k' k then (k', v) :: rest else (k', v') :: dict_set rest k v
  end.

(** The counting loop of the report on the field [field], started on
    the dictionary [d]; [severity_counts] and [type_counts] are its two
    uses, started on the empty dictionary. *)
Definition count_loop (field : Break -> string) (breaks : list Break) (d : list (string * nat))
    : list (string * nat) :=
  fold_left (fun counts brk =>
               dict_set counts (field brk) (dict_get counts (field brk) 0 + 1)%nat)
            breaks d.

(** The loop filling [severity_counts]. *)
Definition severity_counts (breaks : list Break) : list (string * nat) :=
  fold_left (fun counts brk =>
               let sev := severity brk in
               dict_set counts sev (dict_get counts sev 0 + 1)%nat)
            breaks [].

(** The loop filling [type_counts]. *)
Definition type_counts (breaks : list Break) : list (string * nat) :=
  fold_left (fun counts brk =>
               let bt := break_type brk in
               dict_set counts bt (dict_get counts bt 0 + 1)%nat)
            breaks [].

(** Python [sorted(l, key=key)]: a stable sort that compares keys with
    [<].  Each element goes before the first one whose key is greater. *)
Fixpoint sorted_insert {A K : Type} (lt : K -> K -> bool) (key : A -> K) (x : A) (l : list A)
    : list A :=
  match l with
  | [] => [ x ]
  | y :: rest =>
      if lt (key x) (key y) then x :: y :: rest else y :: sorted_insert lt key x rest
  end.

Definition sorted {A K : Type} (lt : K -> K -> bool) (key : A -> K) (l : list A) : list A :=
  fold_left (fun acc x => sorted_insert lt key x acc) l [].

(** [x] may stand before [y]: the key of [y] is not below that of [x]. *)
Definition key_before {A K : Type} (lt : K -> K -> bool) (key : A -> K) (x y : A) : Prop :=
  lt (key y) (key x) = false.

(** The key of [x] is neither below nor above [k]. *)
Definition same_key {A K : Type} (lt : K -> K -> bool) (key : A -> K) (k : K) (x : A) : bool :=
  negb (lt (key x) k) && negb (lt k (key x)).

(** [sorted(type_counts.items(), key=lambda x: -x[1])] *)
Definition sorted_type_counts (breaks : list Break) : list (string * nat) :=
  sorted Z.ltb (fun x : string * nat => (- Z.of_nat (snd x))%Z) (type_counts breaks).

(** ASCII letters to lower case; other bytes unchanged. *)
Definition lower_ascii (c : ascii) : ascii :=
  let n := nat_of_ascii c in
  if (65 <=? n)%nat && (n <=? 90)%nat then ascii_of_nat (n + 32) else c.

(** [s.lower()] *)
Fixpoint lower (s : string) : string :=
  match s with
  | EmptyString => EmptyString
  | String c s' => String (lower_ascii c) (lower s')
  end.

(** [needle in hay] on strings. *)
Fixpoint contains (needle hay : string) : bool :=
  String.prefix needle hay ||
  match hay with
  | EmptyString => false
  | String _ hay' => contains needle hay'
  end.

(** The condition of the generator inside [sum]. *)
Definition counts_in_total (b : Break) : bool :=
  contains "market_value" (lower (break_type b)) || contains "missing" (lower (break_type b)).

(** [total_variance]: [sum] starts from 0 and adds from the left, each
    addition in binary64. *)
Definition total_variance (breaks : list Break) : Q :=
  fold_left fadd (map (fun b => Qabs (variance b)) (List.filter counts_in_total breaks)) 0.

Definition severity_order : list (string * nat) :=
  [ ("CRITICAL", 0%nat); ("HIGH", 1%nat); ("MEDIUM", 2%nat); ("LOW", 3%nat) ].

(** The sort key of the detailed list. *)
Definition report_key (x : Break) : nat * Q :=
  (dict_get severity_order (severity x) 4%nat, - Qabs (variance x)).

(** [<] on the key tuples: the first components that differ decide. *)
Definition tuple_lt (k1 k2 : nat * Q) : bool :=
  if negb (fst k1 =? fst k2)%nat then (fst k1 <? fst k2)%nat
  else if negb (Qeq_bool (snd k1) (snd k2)) then Qgt_bool (snd k2) (snd k1)
  else false.

(** [sorted_breaks] *)
Definition sorted_breaks (breaks : list Break) : list Break :=
  sorted tuple_lt report_key breaks.

(** A break with a given identifier, severity and variance, for examples. *)
Definition sample_break (id sev : string) (v : Q) : Break := {|
  break_id := id;
  break_type := "Price Mismatch";
  severity := sev;
  brk_symbol := "AAPL";
  brk_account_id := "HEDGE_FUND_01";
  internal_value := 100;
  pb_value := 100 - v;
  variance := v;
  variance_pct := v;
  details := "Price: Internal=$100.00 vs PB=$99.00"
|}.


(** ** Notions used to state the layout of the result *)

(** The key and the type of a break. *)
Definition key_and_type (b : Break) : string * string := (break_key b, break_type b).

(** The breaks a matched key can get, in the order of the three checks. *)
Definition checks_of_key (key : string) : list (string * string) :=
  [ (key, BreakType_value QUANTITY_MISMATCH);
    (key, BreakType_value PRICE_MISMATCH);
    (key, BreakType_value MARKET_VALUE_MISMATCH) ].

(** The distinct strings of [l] that are not in [seen], each at the
    place where it first occurs. *)
Fixpoint first_seen (seen : list string) (l : list string) : list string :=
  match l with
  | [] => []
  | x :: rest =>
      if bool_decide (x ∈ seen) then first_seen seen rest
      else x :: first_seen (x :: seen) rest
  end.

(** A break with another type, for examples. *)
Definition with_break_type (t : string) (b : Break) : Break := {|
  break_id := break_id b;
  break_type := t;
  severity := severity b;
  brk_symbol := brk_symbol b;
  brk_account_id := brk_account_id b;
  internal_value := internal_value b;
  pb_value := pb_value b;
  variance := variance b;
  variance_pct := variance_pct b;
  details := details b
|}.

(** ** The floats of the kernel *)

(** The rational that a finite binary64 float of the kernel stands for;
    the kernel computes on these floats with the processor's IEEE 754
    arithmetic. *)
Definition float_value (f : PrimFloat.float) : Q :=
  match FloatOps.Prim2SF f with
  | SpecFloat.S754_finite s m e =>
      Qred (inject_Z (if s then Z.neg m else Z.pos m) * Qpower 2 e)
  | _ => 0
  end.
(** * Properties *)

(** ** Comparisons *)

Lemma Qgt_bool_true (a b : Q) : Qgt_bool a b = true <-> b < a.
Proof.
  unfold Qgt_bool. rewrite negb_true_iff.
  split; intros H.
  - apply Qnot_le_lt. intros Hle. apply Qle_bool_iff in Hle. congruence.
  - destruct (Qle_bool a b) eqn:E; [|reflexivity].
    apply Qle_bool_iff in E. exfalso. exact (Qlt_not_le _ _ H E).
Qed.

Lemma Qgt_bool_false (a b : Q) : Qgt_bool a b = false <-> a <= b.
Proof.
  unfold Qgt_bool. rewrite negb_false_iff. apply Qle_bool_iff.
Qed.

Lemma Qnonzero_false (a : Q) : Qnonzero a = false <-> a == 0.
Proof.
  unfold Qnonzero. rewrite negb_false_iff. apply Qeq_bool_iff.
Qed.

(** ** Rounding *)

Lemma binary64_zero (x : Q) : x == 0 -> binary64 x = 0.
Proof. intros H. unfold binary64. apply Qeq_bool_iff in H. by rewrite H. Qed.

(** ** Properties of the classifier *)

Lemma exceeds_iff (a t b u : Q) :
  Qgt_bool a t || Qgt_bool b u = true <-> (t < a \/ u < b).
Proof. rewrite orb_true_iff, !Qgt_bool_true. reflexivity. Qed.

Lemma exceeds_not_iff (a t b u : Q) :
  Qgt_bool a t || Qgt_bool b u = false <-> ~ (t < a \/ u < b).
Proof.
  rewrite <- exceeds_iff. destruct (Qgt_bool a t || Qgt_bool b u); split; intros H; congruence.
Qed.

(** C1. The classifier is a total function that agrees with the rule
    table read top-down on the absolute values: CRITICAL exactly when
    abs(variance) > 100000 or abs(variance_pct) > 10; otherwise HIGH
    exactly when abs(variance) > 50000 or abs(variance_pct) > 5;
    otherwise MEDIUM exactly when abs(variance) > 10000 or
    abs(variance_pct) > 2; otherwise LOW.  One condition of a tier is
    enough, and there is no error result. *)
Theorem calculate_severity_table (variance variance_pct : Q) :
  let crit := 100000 < Qabs variance \/ 10 < Qabs variance_pct in
  let high := 50000 < Qabs variance \/ 5 < Qabs variance_pct in
  let med := 10000 < Qabs variance \/ 2 < Qabs variance_pct in
  calculate_severity variance variance_pct = classify variance variance_pct /\
  (calculate_severity variance variance_pct = CRITICAL <-> crit) /\
  (calculate_severity variance variance_pct = HIGH <-> ~ crit /\ high) /\
  (calculate_severity variance variance_pct = MEDIUM <-> ~ crit /\ ~ high /\ med) /\
  (calculate_severity variance variance_pct = LOW <-> ~ crit /\ ~ high /\ ~ med).
Proof.
  intros crit high med. split; [reflexivity|].
  unfold calculate_severity, crit, high, med.
  destruct (Qgt_bool (Qabs variance) 100000 || Qgt_bool (Qabs variance_pct) 10) eqn:E1;
    [apply exceeds_iff in E1 | apply exceeds_not_iff in E1];
  (destruct (Qgt_bool (Qabs variance) 50000 || Qgt_bool (Qabs variance_pct) 5) eqn:E2;
    [apply exceeds_iff in E2 | apply exceeds_not_iff in E2]);
  (destruct (Qgt_bool (Qabs variance) 10000 || Qgt_bool (Qabs variance_pct) 2) eqn:E3;
    [apply exceeds_iff in E3 | apply exceeds_not_iff in E3]);
  repeat split; intros; try discriminate; try tauto.
Qed.

Lemma exceeds_mono (a a' t b b' u : Q) :
  a <= a' -> b <= b' ->
  Qgt_bool a t || Qgt_bool b u = true ->
  Qgt_bool a' t || Qgt_bool b' u = true.
Proof.
  intros Ha Hb. rewrite !exceeds_iff. intros [H | H]; [left | right].
  - eapply Qlt_le_trans; eassumption.
  - eapply Qlt_le_trans; eassumption.
Qed.

Lemma calculate_severity_mono (v v' p p' : Q) :
  Qabs v <= Qabs v' -> Qabs p <= Qabs p' ->
  (tier (calculate_severity v p) <= tier (calculate_severity v' p'))%nat.
Proof.
  intros Hv Hp. unfold calculate_severity. cbv zeta.
  destruct (Qgt_bool (Qabs v) 100000 || Qgt_bool (Qabs p) 10) eqn:E1.
  { rewrite (exceeds_mono _ _ _ _ _ _ Hv Hp E1). reflexivity. }
  destruct (Qgt_bool (Qabs v) 50000 || Qgt_bool (Qabs p) 5) eqn:E2.
  { rewrite (exceeds_mono _ _ _ _ _ _ Hv Hp E2).
    destruct (Qgt_bool (Qabs v') 100000 || Qgt_bool (Qabs p') 10); simpl; lia. }
  destruct (Qgt_bool (Qabs v) 10000 || Qgt_bool (Qabs p) 2) eqn:E3.
  { rewrite (exceeds_mono _ _ _ _ _ _ Hv Hp E3).
    destruct (Qgt_bool (Qabs v') 100000 || Qgt_bool (Qabs p') 10);
      [|destruct (Qgt_bool (Qabs v') 50000 || Qgt_bool (Qabs p') 5)]; simpl; lia. }
  simpl. lia.
Qed.

(** C6. The classifier is monotonic in each argument: a larger
    abs(variance) with the same variance_pct, or a larger
    abs(variance_pct) with the same variance, never gives a lower tier
    (CRITICAL > HIGH > MEDIUM > LOW). *)
Theorem calculate_severity_monotonic :
  (forall v v' p : Q, Qabs v <= Qabs v' ->
     (tier (calculate_severity v p) <= tier (calculate_severity v' p))%nat) /\
  (forall v p p' : Q, Qabs p <= Qabs p' ->
     (tier (calculate_severity v p) <= tier (calculate_severity v p'))%nat).
Proof.
  split; intros.
  - apply calculate_severity_mono; [assumption | apply Qle_refl].
  - apply calculate_severity_mono; [apply Qle_refl | assumption].
Qed.

Lemma calculate_severity_monotonic_witness :
  (tier (calculate_severity 20000 3) <= tier (calculate_severity (-60000) 3))%nat /\
  (tier (calculate_severity 500 3) <= tier (calculate_severity 500 (-12)))%nat.
Proof.
  split.
  - apply (proj1 calculate_severity_monotonic). vm_compute. discriminate.
  - apply (proj2 calculate_severity_monotonic). vm_compute. discriminate.
Defined.

(** ** Numbering *)

Lemma length_number (n : nat) (l : list Break) : length (number n l) = length l.
Proof. revert n. induction l as [|b l IH]; intros n; simpl; [reflexivity | by rewrite IH]. Qed.

Lemma number_app (n : nat) (l1 l2 : list Break) :
  number n (l1 ++ l2) = number n l1 ++ number (n + length l1) l2.
Proof.
  revert n. induction l1 as [|b l1 IH]; intros n; simpl.
  - by rewrite Nat.add_0_r.
  - rewrite IH. by replace (S n + length l1)%nat with (n + S (length l1))%nat by lia.
Qed.

Lemma content_number (n : nat) (l : list Break) :
  map content (number n l) = map content l.
Proof. revert n. induction l as [|b l IH]; intros n; simpl; [reflexivity | by rewrite IH]. Qed.

Lemma number_lookup (n i : nat) (l : list Break) (b : Break) :
  number n l !! i = Some b ->
  break_id b = "BRK-" +:+ format_04d (N.of_nat (n + i + 1)).
Proof.
  revert n i. induction l as [|b0 l IH]; intros n i; simpl; [by destruct i|].
  destruct i as [|i]; simpl.
  - intros [= <-]. simpl. by rewrite Nat.add_0_r.
  - intros H. apply IH in H. rewrite H. do 3 f_equal. lia.
Qed.

Lemma number_idemp (n m : nat) (l : list Break) : number n (number m l) = number n l.
Proof. revert n m. induction l as [|b l IH]; intros n m; simpl; [reflexivity | by rewrite IH]. Qed.

(** ** Loops that append *)

Lemma for_each_appends (body : list Break -> string -> result (list Break)) (l : list string) :
  (forall key, key ∈ l -> appends body key) ->
  forall breaks,
    for_each l body breaks = Ok (breaks ++ number (length breaks) (l ≫= emit body)).
Proof.
  induction l as [|key l IH]; intros Hl breaks; simpl.
  - by rewrite app_nil_r.
  - rewrite (Hl key) by left. simpl.
    rewrite IH by (intros k Hk; apply Hl; by right).
    rewrite number_app, length_app, length_number, <- app_assoc. reflexivity.
Qed.

(** ** Selecting the rows of a key *)

Lemma iloc0_mask_rows (rows : list Position) (key : string) :
  iloc0 (mask_rows (map (fun k => String.eqb k key) (map pos_key rows)) rows) =
  match find (fun r => String.eqb (pos_key r) key) rows with
  | Some pos => Ok pos
  | None => Err IndexError
  end.
Proof.
  induction rows as [|r rows IH]; simpl; [reflexivity|].
  destruct (String.eqb (pos_key r) key); [reflexivity | exact IH].
Qed.

Lemma select_first {B : Type} (df : DataFrame) (key : string) (K : Position -> result B) :
  (rows ← rows_with_key (keyed df) key; pos ← iloc0 rows; K pos) =
  match first_row df key with
  | Some pos => K pos
  | None => Err IndexError
  end.
Proof.
  unfold rows_with_key, keyed, first_row, key_column. simpl.
  rewrite iloc0_mask_rows.
  by destruct (find _ _).
Qed.

Lemma first_row_key (df : DataFrame) (key : string) (pos : Position) :
  first_row df key = Some pos -> pos_key pos = key /\ pos ∈ df_rows df.
Proof.
  unfold first_row. intros H. apply find_some in H as [Hin Heq].
  split; [by apply String.eqb_eq | by apply list_elem_of_In].
Qed.

Lemma first_row_in (df : DataFrame) (key : string) :
  key ∈ key_column df -> exists pos, first_row df key = Some pos.
Proof.
  unfold key_column, first_row. intros H.
  apply list_elem_of_fmap in H as (r & -> & Hr).
  destruct (find _ _) as [pos|] eqn:E; [by exists pos|].
  apply list_elem_of_In in Hr.
  pose proof (find_none _ _ E _ Hr) as Hn. simpl in Hn.
  by rewrite String.eqb_refl in Hn.
Qed.

Lemma first_row_not_in (df : DataFrame) (key : string) :
  key ∉ key_column df -> first_row df key = None.
Proof.
  intros H. destruct (first_row df key) as [pos|] eqn:E; [|reflexivity].
  apply first_row_key in E as [<- Hin]. exfalso. apply H.
  unfold key_column. apply list_elem_of_fmap. by exists pos.
Qed.

(** ** The percentage computations never divide by zero *)

Lemma qty_var_pct_ok (int_pos pb_pos : Position) :
  qty_var_pct int_pos pb_pos =
  Ok (if (quantity int_pos =? 0)%Z then 0
      else fmul (fdiv (of_int (wrap64 (quantity int_pos - quantity pb_pos)))
                      (of_int (quantity int_pos))) 100).
Proof.
  unfold qty_var_pct, checked_div_int, qty_var.
  by destruct (quantity int_pos =? 0)%Z.
Qed.

Lemma price_var_pct_ok (int_pos pb_pos : Position) :
  price_var_pct int_pos pb_pos =
  Ok (if Qeq_bool (price int_pos) 0 then 0
      else fmul (fdiv (fsub (price int_pos) (price pb_pos)) (price int_pos)) 100).
Proof.
  unfold price_var_pct, checked_div, Qnonzero, price_var.
  by destruct (Qeq_bool (price int_pos) 0).
Qed.

Lemma mv_var_pct_ok (int_pos pb_pos : Position) :
  mv_var_pct int_pos pb_pos =
  Ok (if Qeq_bool (market_value int_pos) 0 then 0
      else fmul (fdiv (fsub (market_value int_pos) (market_value pb_pos))
                      (market_value int_pos)) 100).
Proof.
  unfold mv_var_pct, checked_div, Qnonzero, mv_var.
  by destruct (Qeq_bool (market_value int_pos) 0).
Qed.

(** ** Every loop body appends *)

Lemma missing_in_target_appends (df : DataFrame) (key : string) :
  key ∈ key_column df -> appends (missing_in_target_step (keyed df)) key.
Proof.
  intros Hk breaks. apply first_row_in in Hk as [pos Hpos].
  unfold emit, added. cbv beta. unfold missing_in_target_step.
  rewrite !select_first, Hpos. reflexivity.
Qed.

Lemma missing_in_source_appends (df : DataFrame) (key : string) :
  key ∈ key_column df -> appends (missing_in_source_step (keyed df)) key.
Proof.
  intros Hk breaks. apply first_row_in in Hk as [pos Hpos].
  unfold emit, added. cbv beta. unfold missing_in_source_step.
  rewrite !select_first, Hpos. reflexivity.
Qed.

Lemma check_quantity_appends (int_pos pb_pos : Position) (breaks : list Break) :
  check_quantity int_pos pb_pos breaks =
  Ok (breaks ++ number (length breaks) (added (check_quantity int_pos pb_pos))).
Proof.
  unfold added, check_quantity. rewrite qty_var_pct_ok. simpl.
  destruct (Qgt_bool _ _); simpl; [reflexivity | by rewrite app_nil_r].
Qed.

Lemma check_price_appends (int_pos pb_pos : Position) (breaks : list Break) :
  check_price int_pos pb_pos breaks =
  Ok (breaks ++ number (length breaks) (added (check_price int_pos pb_pos))).
Proof.
  unfold added, check_price. rewrite price_var_pct_ok. simpl.
  destruct (Qgt_bool _ _); simpl; [reflexivity | by rewrite app_nil_r].
Qed.

Lemma check_market_value_appends (int_pos pb_pos : Position) (breaks : list Break) :
  check_market_value int_pos pb_pos breaks =
  Ok (breaks ++ number (length breaks) (added (check_market_value int_pos pb_pos))).
Proof.
  unfold added, check_market_value. rewrite mv_var_pct_ok. simpl.
  destruct (Qgt_bool _ _ && Qgt_bool _ _); simpl; [reflexivity | by rewrite app_nil_r].
Qed.

Lemma matched_step_first (internal_df pb_df : DataFrame) (key : string)
    (int_pos pb_pos : Position) (breaks : list Break) :
  first_row internal_df key = Some int_pos ->
  first_row pb_df key = Some pb_pos ->
  matched_step (keyed internal_df) (keyed pb_df) breaks key =
  Ok (breaks ++ number (length breaks)
        (added (check_quantity int_pos pb_pos)
         ++ added (check_price int_pos pb_pos)
         ++ added (check_market_value int_pos pb_pos))).
Proof.
  intros Hi Hp. unfold matched_step.
  rewrite select_first, Hi, select_first, Hp.
  rewrite check_quantity_appends. simpl.
  rewrite check_price_appends. simpl.
  rewrite check_market_value_appends.
  rewrite !number_app, !length_app, !length_number, <- !app_assoc.
  reflexivity.
Qed.

Lemma matched_emit (internal_df pb_df : DataFrame) (key : string)
    (int_pos pb_pos : Position) :
  first_row internal_df key = Some int_pos ->
  first_row pb_df key = Some pb_pos ->
  emit (matched_step (keyed internal_df) (keyed pb_df)) key =
  number 0 (added (check_quantity int_pos pb_pos)
            ++ added (check_price int_pos pb_pos)
            ++ added (check_market_value int_pos pb_pos)).
Proof.
  intros Hi Hp. unfold emit, added. cbv beta.
  by rewrite (matched_step_first _ _ _ _ _ _ Hi Hp).
Qed.

Lemma matched_appends (internal_df pb_df : DataFrame) (key : string) :
  key ∈ key_column internal_df -> key ∈ key_column pb_df ->
  appends (matched_step (keyed internal_df) (keyed pb_df)) key.
Proof.
  intros Hi Hp breaks.
  apply first_row_in in Hi as [int_pos Hi]. apply first_row_in in Hp as [pb_pos Hp].
  rewrite (matched_emit _ _ _ _ _ Hi Hp), number_idemp.
  by apply matched_step_first.
Qed.

(** ** The engine in one equation *)

Lemma keyed_idemp (df : DataFrame) : keyed (keyed df) = keyed df.
Proof. reflexivity. Qed.

Section Run.

Variable iter : gset string -> list string.
Variables (internal_df pb_df : ref) (h : heap).

Lemma heap_after_internal :
  heap_of (reconcile_positions iter internal_df pb_df h) internal_df = keyed (h internal_df).
Proof.
  cbv beta iota zeta delta [heap_of fst reconcile_positions].
  destruct (decide (pb_df = internal_df)) as [->|Hne].
  - by rewrite !fn_lookup_insert.
  - by rewrite fn_lookup_insert_ne, fn_lookup_insert.
Qed.

Lemma heap_after_pb :
  heap_of (reconcile_positions iter internal_df pb_df h) pb_df = keyed (h pb_df).
Proof.
  cbv beta iota zeta delta [heap_of fst reconcile_positions].
  rewrite fn_lookup_insert.
  destruct (decide (internal_df = pb_df)) as [->|Hne].
  - by rewrite fn_lookup_insert.
  - by rewrite fn_lookup_insert_ne.
Qed.

Lemma heap_after_other (r : ref) :
  r <> internal_df -> r <> pb_df ->
  heap_of (reconcile_positions iter internal_df pb_df h) r = h r.
Proof.
  intros H1 H2. cbv beta iota zeta delta [heap_of fst reconcile_positions].
  by rewrite !fn_lookup_insert_ne.
Qed.

Lemma reconcile_positions_detect :
  iter_ok iter ->
  breaks_of (reconcile_positions iter internal_df pb_df h)
  = Ok (detect iter (h internal_df) (h pb_df)).
Proof.
  intros Hiter.
  pose proof heap_after_internal as Hi. pose proof heap_after_pb as Hp.
  cbv beta iota zeta delta [heap_of breaks_of fst snd reconcile_positions] in *.
  rewrite Hi, Hp. simpl.
  rewrite for_each_appends; simpl.
  2:{ intros key Hk. apply Hiter in Hk. apply missing_in_target_appends.
      apply elem_of_difference in Hk as [Hk _]. by apply elem_of_list_to_set in Hk. }
  rewrite for_each_appends; simpl.
  2:{ intros key Hk. apply Hiter in Hk. apply missing_in_source_appends.
      apply elem_of_difference in Hk as [Hk _]. by apply elem_of_list_to_set in Hk. }
  rewrite for_each_appends; simpl.
  2:{ intros key Hk. apply Hiter in Hk.
      apply elem_of_intersection in Hk as [Hk1 Hk2].
      apply elem_of_list_to_set in Hk1, Hk2. by apply matched_appends. }
  unfold detect. rewrite !number_app, !length_app, !length_number, <- !app_assoc.
  reflexivity.
Qed.

End Run.

(** ** What each loop body emits *)

Lemma missing_in_target_emit (df : DataFrame) (key : string) (pos : Position) :
  first_row df key = Some pos ->
  exists b, emit (missing_in_target_step (keyed df)) key = [b] /\
    break_type b = "Missing in Target" /\
    brk_symbol b = symbol pos /\ brk_account_id b = account_id pos /\
    internal_value b = market_value pos /\ pb_value b = 0 /\
    variance b = market_value pos /\ variance_pct b = 100 /\
    severity b = Severity_value (calculate_severity (market_value pos) 100).
Proof.
  intros H. unfold emit, added. cbv beta. unfold missing_in_target_step.
  rewrite select_first, H. eexists. split; [reflexivity|]. simpl. done.
Qed.

Lemma missing_in_source_emit (df : DataFrame) (key : string) (pos : Position) :
  first_row df key = Some pos ->
  exists b, emit (missing_in_source_step (keyed df)) key = [b] /\
    break_type b = "Missing in Source" /\
    brk_symbol b = symbol pos /\ brk_account_id b = account_id pos /\
    internal_value b = 0 /\ pb_value b = market_value pos /\
    variance b = - market_value pos /\ variance_pct b = - (100) /\
    severity b = Severity_value (calculate_severity (market_value pos) 100).
Proof.
  intros H. unfold emit, added. cbv beta. unfold missing_in_source_step.
  rewrite select_first, H. eexists. split; [reflexivity|]. simpl. done.
Qed.

Lemma added_check_quantity (int_pos pb_pos : Position) (b : Break) :
  b ∈ added (check_quantity int_pos pb_pos) ->
  break_type b = "Quantity Mismatch" /\
  brk_symbol b = symbol int_pos /\ brk_account_id b = account_id int_pos /\
  exists pct, qty_var_pct int_pos pb_pos = Ok pct /\ 1 < Qabs pct.
Proof.
  unfold added, check_quantity. rewrite qty_var_pct_ok. simpl.
  destruct (Qgt_bool _ _) eqn:E; simpl; [|by intros ?%elem_of_nil].
  intros ->%list_elem_of_singleton. simpl. repeat split.
  eexists. split; [reflexivity|]. by apply Qgt_bool_true in E.
Qed.

Lemma added_check_price (int_pos pb_pos : Position) (b : Break) :
  b ∈ added (check_price int_pos pb_pos) ->
  break_type b = "Price Mismatch" /\
  brk_symbol b = symbol int_pos /\ brk_account_id b = account_id int_pos /\
  exists pct, price_var_pct int_pos pb_pos = Ok pct /\ binary64 (1 # 10) < Qabs pct.
Proof.
  unfold added, check_price. rewrite price_var_pct_ok. simpl.
  destruct (Qgt_bool _ _) eqn:E; simpl; [|by intros ?%elem_of_nil].
  intros ->%list_elem_of_singleton. simpl. repeat split.
  eexists. split; [reflexivity|]. by apply Qgt_bool_true in E.
Qed.

Lemma added_check_market_value (int_pos pb_pos : Position) (b : Break) :
  b ∈ added (check_market_value int_pos pb_pos) ->
  break_type b = "Market Value Mismatch" /\
  brk_symbol b = symbol int_pos /\ brk_account_id b = account_id int_pos /\
  exists pct, mv_var_pct int_pos pb_pos = Ok pct /\
    2 < Qabs pct /\ 100 < Qabs (mv_var int_pos pb_pos).
Proof.
  unfold added, check_market_value. rewrite mv_var_pct_ok. simpl.
  destruct (Qgt_bool _ _ && Qgt_bool _ _) eqn:E; simpl; [|by intros ?%elem_of_nil].
  intros ->%list_elem_of_singleton. simpl. repeat split.
  apply andb_true_iff in E as [E1 E2].
  eexists. split; [reflexivity|]. split; by apply Qgt_bool_true.
Qed.

Lemma check_market_value_emits (int_pos pb_pos : Position) (pct : Q) :
  mv_var_pct int_pos pb_pos = Ok pct ->
  2 < Qabs pct -> 100 < Qabs (mv_var int_pos pb_pos) ->
  exists b, b ∈ added (check_market_value int_pos pb_pos).
Proof.
  intros Hpct H1 H2. unfold added, check_market_value. rewrite Hpct.
  apply Qgt_bool_true in H1, H2.
  cbv beta iota zeta delta [mbind result_bind market_value_pct min_threshold TOLERANCES].
  rewrite H1, H2. cbv beta iota delta [andb].
  eexists. by apply list_elem_of_singleton.
Qed.

(** ** Membership in the result *)

Lemma number_content_1 (n : nat) (l : list Break) (b : Break) :
  b ∈ number n l -> exists b0, b0 ∈ l /\ content b = content b0.
Proof.
  intros H. assert (content b ∈ map content (number n l)) as Hc.
  { apply list_elem_of_fmap. by exists b. }
  rewrite content_number in Hc. apply list_elem_of_fmap in Hc as (b0 & ? & ?). by exists b0.
Qed.

Lemma number_content_2 (n : nat) (l : list Break) (b0 : Break) :
  b0 ∈ l -> exists b, b ∈ number n l /\ content b = content b0.
Proof.
  intros H. assert (content b0 ∈ map content (number n l)) as Hc.
  { rewrite content_number. apply list_elem_of_fmap. by exists b0. }
  apply list_elem_of_fmap in Hc as (b & ? & ?). by exists b.
Qed.

Lemma content_fields (b b0 : Break) :
  content b = content b0 ->
  break_type b = break_type b0 /\ severity b = severity b0 /\
  brk_symbol b = brk_symbol b0 /\ brk_account_id b = brk_account_id b0 /\
  internal_value b = internal_value b0 /\ pb_value b = pb_value b0 /\
  variance b = variance b0 /\ variance_pct b = variance_pct b0 /\
  details b = details b0 /\ break_key b = break_key b0.
Proof.
  unfold content, with_break_id, break_key. intros [= -> -> -> -> -> -> -> -> ->]. done.
Qed.

Section Membership.

Variable iter : gset string -> list string.
Hypothesis iter_spec : iter_ok iter.
Variables internal_df pb_df : DataFrame.

Lemma detect_emitted (b : Break) :
  b ∈ detect iter internal_df pb_df ->
  exists key b0, emitted internal_df pb_df key b0 /\ content b = content b0.
Proof.
  unfold detect. intros (b0 & Hb0 & Hc)%number_content_1.
  rewrite !elem_of_app in Hb0.
  destruct Hb0 as [H | [H | H]];
    apply list_elem_of_bind in H as (key & Hb & Hk); apply iter_spec in Hk;
    exists key, b0; (split; [|done]).
  - apply elem_of_difference in Hk as [H1 H2].
    rewrite elem_of_list_to_set in H1, H2. by left.
  - apply elem_of_difference in Hk as [H1 H2].
    rewrite elem_of_list_to_set in H1, H2. right. by left.
  - apply elem_of_intersection in Hk as [H1 H2].
    rewrite elem_of_list_to_set in H1, H2. right. by right.
Qed.

Lemma emitted_detect (key : string) (b0 : Break) :
  emitted internal_df pb_df key b0 ->
  exists b, b ∈ detect iter internal_df pb_df /\ content b = content b0.
Proof.
  intros H. unfold detect. apply number_content_2.
  rewrite !elem_of_app.
  destruct H as [(H1 & H2 & H) | [(H1 & H2 & H) | (H1 & H2 & H)]];
    [left | right; left | right; right];
    apply list_elem_of_bind; exists key; (split; [done|]); apply iter_spec.
  - apply elem_of_difference. by rewrite !elem_of_list_to_set.
  - apply elem_of_difference. by rewrite !elem_of_list_to_set.
  - apply elem_of_intersection. by rewrite !elem_of_list_to_set.
Qed.

End Membership.

Lemma matched_emit_1 (internal_df pb_df : DataFrame) (key : string)
    (int_pos pb_pos : Position) (b0 : Break) :
  first_row internal_df key = Some int_pos ->
  first_row pb_df key = Some pb_pos ->
  b0 ∈ emit (matched_step (keyed internal_df) (keyed pb_df)) key ->
  exists b1, content b0 = content b1 /\
    (b1 ∈ added (check_quantity int_pos pb_pos) \/
     b1 ∈ added (check_price int_pos pb_pos) \/
     b1 ∈ added (check_market_value int_pos pb_pos)).
Proof.
  intros Hi Hp. rewrite (matched_emit _ _ _ _ _ Hi Hp).
  intros (b1 & H & Hc)%number_content_1. exists b1. split; [done|].
  by rewrite !elem_of_app in H.
Qed.

Lemma matched_emit_2 (internal_df pb_df : DataFrame) (key : string)
    (int_pos pb_pos : Position) (b1 : Break) :
  first_row internal_df key = Some int_pos ->
  first_row pb_df key = Some pb_pos ->
  b1 ∈ added (check_quantity int_pos pb_pos) \/
  b1 ∈ added (check_price int_pos pb_pos) \/
  b1 ∈ added (check_market_value int_pos pb_pos) ->
  exists b0, b0 ∈ emit (matched_step (keyed internal_df) (keyed pb_df)) key /\
    content b0 = content b1.
Proof.
  intros Hi Hp H. rewrite (matched_emit _ _ _ _ _ Hi Hp).
  apply number_content_2. by rewrite !elem_of_app.
Qed.

(** Every break is about the position of the key it was emitted for. *)
Lemma emitted_break_key (internal_df pb_df : DataFrame) (key : string) (b0 : Break) :
  emitted internal_df pb_df key b0 -> break_key b0 = key.
Proof.
  intros [(H1 & H2 & H) | [(H1 & H2 & H) | (H1 & H2 & H)]].
  - destruct (first_row_in _ _ H1) as [pos Hpos].
    destruct (missing_in_target_emit _ _ _ Hpos) as (b & Hb & _ & Hs & Ha & _).
    rewrite Hb in H. apply list_elem_of_singleton in H as ->.
    unfold break_key. rewrite Hs, Ha. by apply first_row_key in Hpos as [? _].
  - destruct (first_row_in _ _ H1) as [pos Hpos].
    destruct (missing_in_source_emit _ _ _ Hpos) as (b & Hb & _ & Hs & Ha & _).
    rewrite Hb in H. apply list_elem_of_singleton in H as ->.
    unfold break_key. rewrite Hs, Ha. by apply first_row_key in Hpos as [? _].
  - destruct (first_row_in _ _ H1) as [int_pos Hi].
    destruct (first_row_in _ _ H2) as [pb_pos Hp].
    destruct (matched_emit_1 _ _ _ _ _ _ Hi Hp H) as (b1 & Hc & Hb1).
    apply content_fields in Hc as (_ & _ & _ & _ & _ & _ & _ & _ & _ & ->).
    apply first_row_key in Hi as [<- _]. unfold break_key, pos_key.
    destruct Hb1 as [Hb1 | [Hb1 | Hb1]].
    + apply added_check_quantity in Hb1 as (_ & -> & -> & _). done.
    + apply added_check_price in Hb1 as (_ & -> & -> & _). done.
    + apply added_check_market_value in Hb1 as (_ & -> & -> & _). done.
Qed.

(** ** Reading a break back to the check that made it *)

Lemma emitted_matched_inv (internal_df pb_df : DataFrame) (key : string) (b0 : Break) :
  key ∈ key_column internal_df -> key ∈ key_column pb_df ->
  b0 ∈ emit (matched_step (keyed internal_df) (keyed pb_df)) key ->
  exists int_pos pb_pos,
    first_row internal_df key = Some int_pos /\ first_row pb_df key = Some pb_pos /\
    ((break_type b0 = "Quantity Mismatch" /\
        exists pct, qty_var_pct int_pos pb_pos = Ok pct /\ 1 < Qabs pct) \/
     (break_type b0 = "Price Mismatch" /\
        exists pct, price_var_pct int_pos pb_pos = Ok pct /\ binary64 (1 # 10) < Qabs pct) \/
     (break_type b0 = "Market Value Mismatch" /\
        exists pct, mv_var_pct int_pos pb_pos = Ok pct /\
          2 < Qabs pct /\ 100 < Qabs (mv_var int_pos pb_pos))).
Proof.
  intros H1 H2 H.
  destruct (first_row_in _ _ H1) as [int_pos Hi].
  destruct (first_row_in _ _ H2) as [pb_pos Hp].
  exists int_pos, pb_pos. split; [done|]. split; [done|].
  destruct (matched_emit_1 _ _ _ _ _ _ Hi Hp H) as (b1 & Hc & Hb1).
  apply content_fields in Hc as (-> & _).
  destruct Hb1 as [Hb1 | [Hb1 | Hb1]].
  - apply added_check_quantity in Hb1 as (-> & _ & _ & Hpct). by left.
  - apply added_check_price in Hb1 as (-> & _ & _ & Hpct). right. by left.
  - apply added_check_market_value in Hb1 as (-> & _ & _ & Hpct). right. by right.
Qed.

Lemma emitted_missing_in_target (internal_df pb_df : DataFrame) (key : string) (b0 : Break) :
  emitted internal_df pb_df key b0 ->
  break_type b0 = "Missing in Target" ->
  key ∈ key_column internal_df /\ (key ∉ key_column pb_df) /\
  emit (missing_in_target_step (keyed internal_df)) key = [b0].
Proof.
  intros [(H1 & H2 & H) | [(H1 & H2 & H) | (H1 & H2 & H)]] Ht.
  - split; [done|]. split; [done|].
    destruct (first_row_in _ _ H1) as [pos Hpos].
    destruct (missing_in_target_emit _ _ _ Hpos) as (b & Hb & _).
    rewrite Hb in H |- *. by apply list_elem_of_singleton in H as ->.
  - destruct (first_row_in _ _ H1) as [pos Hpos].
    destruct (missing_in_source_emit _ _ _ Hpos) as (b & Hb & Hty & _).
    rewrite Hb in H. apply list_elem_of_singleton in H as ->. congruence.
  - destruct (emitted_matched_inv _ _ _ _ H1 H2 H)
      as (? & ? & _ & _ & [[Hty _] | [[Hty _] | [Hty _]]]); congruence.
Qed.

Lemma emitted_missing_in_source (internal_df pb_df : DataFrame) (key : string) (b0 : Break) :
  emitted internal_df pb_df key b0 ->
  break_type b0 = "Missing in Source" ->
  key ∈ key_column pb_df /\ (key ∉ key_column internal_df) /\
  emit (missing_in_source_step (keyed pb_df)) key = [b0].
Proof.
  intros [(H1 & H2 & H) | [(H1 & H2 & H) | (H1 & H2 & H)]] Ht.
  - destruct (first_row_in _ _ H1) as [pos Hpos].
    destruct (missing_in_target_emit _ _ _ Hpos) as (b & Hb & Hty & _).
    rewrite Hb in H. apply list_elem_of_singleton in H as ->. congruence.
  - split; [done|]. split; [done|].
    destruct (first_row_in _ _ H1) as [pos Hpos].
    destruct (missing_in_source_emit _ _ _ Hpos) as (b & Hb & _).
    rewrite Hb in H |- *. by apply list_elem_of_singleton in H as ->.
  - destruct (emitted_matched_inv _ _ _ _ H1 H2 H)
      as (? & ? & _ & _ & [[Hty _] | [[Hty _] | [Hty _]]]); congruence.
Qed.

Lemma emitted_matched (internal_df pb_df : DataFrame) (key : string) (b0 : Break) :
  emitted internal_df pb_df key b0 ->
  key ∈ key_column internal_df -> key ∈ key_column pb_df ->
  b0 ∈ emit (matched_step (keyed internal_df) (keyed pb_df)) key.
Proof.
  intros [(H1 & H2 & H) | [(H1 & H2 & H) | (H1 & H2 & H)]] Hi Hp; done.
Qed.

(** ** Filtering the result *)

Lemma filter_none {A : Type} (P : A -> Prop) `{!forall x, Decision (P x)} (l : list A) :
  (forall x, x ∈ l -> ~ P x) -> filter P l = [].
Proof.
  induction l as [|x l IH]; intros Hl; [reflexivity|].
  rewrite filter_cons_False by (apply Hl; left).
  apply IH. intros y Hy. apply Hl. by right.
Qed.

Lemma filter_all {A : Type} (P : A -> Prop) `{!forall x, Decision (P x)} (l : list A) :
  (forall x, x ∈ l -> P x) -> filter P l = l.
Proof.
  induction l as [|x l IH]; intros Hl; [reflexivity|].
  rewrite filter_cons_True by (apply Hl; left).
  f_equal. apply IH. intros y Hy. apply Hl. by right.
Qed.

Lemma filter_bind_one {A B : Type} `{!EqDecision A} (P : B -> Prop) `{!forall x, Decision (P x)}
    (f : A -> list B) (keys : list A) (key : A) :
  NoDup keys -> key ∈ keys ->
  (forall b, b ∈ f key -> P b) ->
  (forall k b, k ∈ keys -> k <> key -> b ∈ f k -> ~ P b) ->
  filter P (keys ≫= f) = f key.
Proof.
  induction keys as [|k keys IH]; intros Hnd Hin Hkey Hother.
  - by apply elem_of_nil in Hin.
  - apply NoDup_cons in Hnd as [Hk Hnd].
    rewrite bind_cons, filter_app.
    destruct (decide (k = key)) as [->|Hne].
    + rewrite filter_all by done. rewrite filter_none; [by rewrite app_nil_r|].
      intros b (k' & Hb & Hk')%list_elem_of_bind.
      apply (Hother k'); [by right | congruence | done].
    + rewrite filter_none by (intros b Hb; apply (Hother k); [by left | done | done]).
      apply elem_of_cons in Hin as [?|Hin]; [congruence|].
      apply IH; [done | done | done |].
      intros k' b Hk' ?. apply Hother; [by right | done].
Qed.

Lemma filter_number (P : Break -> Prop) `{!forall b, Decision (P b)} (n : nat) (l : list Break) :
  (forall b b', content b = content b' -> P b -> P b') ->
  map content (filter P (number n l)) = map content (filter P l).
Proof.
  intros HP. revert n. induction l as [|b l IH]; intros n; [reflexivity|].
  simpl number. rewrite !filter_cons.
  destruct (decide (P b)) as [Hb|Hb]; destruct (decide (P (with_break_id _ b))) as [Hb'|Hb'].
  - simpl. by rewrite IH.
  - exfalso. apply Hb'. by apply (HP b).
  - exfalso. apply Hb. by apply (HP (with_break_id ("BRK-" +:+ format_04d (N.of_nat (n + 1))) b)).
  - apply IH.
Qed.

Lemma map_content_singleton (l : list Break) (b0 : Break) :
  map content l = [content b0] -> exists b, l = [b] /\ content b = content b0.
Proof.
  destruct l as [|b [|b' l]]; simpl; intros Hl; [discriminate | | discriminate].
  exists b. split; [reflexivity|]. congruence.
Qed.

Section Missing.

Variable iter : gset string -> list string.
Hypothesis iter_spec : iter_ok iter.
Variables internal_df pb_df : DataFrame.

Lemma detect_missing_in_target (key : string) :
  key ∈ key_column internal_df -> key ∉ key_column pb_df ->
  exists b,
    filter (fun b => break_type b = "Missing in Target" /\ break_key b = key)
           (detect iter internal_df pb_df) = [b] /\
    exists b0, emit (missing_in_target_step (keyed internal_df)) key = [b0] /\
      content b = content b0.
Proof.
  intros H1 H2.
  destruct (first_row_in _ _ H1) as [pos' Hpos].
  destruct (missing_in_target_emit _ _ _ Hpos) as (b0 & Hb0 & Hty & _).
  assert (emitted internal_df pb_df key b0) as Hem.
  { left. rewrite Hb0. split; [done|]. split; [done|]. by left. }
  set (P := fun b => break_type b = "Missing in Target" /\ break_key b = key).
  assert (map content (filter P (detect iter internal_df pb_df)) = [content b0]) as Hf.
  { unfold detect. rewrite filter_number.
    2:{ intros b b' Hc [? ?]. apply content_fields in Hc as (? & _ & _ & _ & _ & _ & _ & _ & _ & ?).
        split; congruence. }
    rewrite !filter_app.
    rewrite (filter_bind_one P _ _ key).
    - rewrite Hb0. rewrite !filter_none; [reflexivity | |].
      + intros b (k & Hb & Hk)%list_elem_of_bind [Hbt _].
        apply iter_spec, elem_of_intersection in Hk as [Hk1 Hk2].
        rewrite elem_of_list_to_set in Hk1, Hk2.
        destruct (emitted_matched_inv _ _ _ _ Hk1 Hk2 Hb)
          as (? & ? & _ & _ & [[Hty' _] | [[Hty' _] | [Hty' _]]]); congruence.
      + intros b (k & Hb & Hk)%list_elem_of_bind [Hbt _].
        apply iter_spec, elem_of_difference in Hk as [Hk1 Hk2].
        rewrite elem_of_list_to_set in Hk1, Hk2.
        destruct (first_row_in _ _ Hk1) as [p Hp].
        destruct (missing_in_source_emit _ _ _ Hp) as (b' & Hb' & Hty' & _).
        rewrite Hb' in Hb. apply list_elem_of_singleton in Hb as ->. congruence.
    - apply iter_spec.
    - apply iter_spec, elem_of_difference. by rewrite !elem_of_list_to_set.
    - rewrite Hb0. intros b ->%list_elem_of_singleton. split; [done|].
      by apply (emitted_break_key internal_df pb_df).
    - intros k b Hk Hne Hb [_ Hbk]. apply Hne. rewrite <- Hbk. symmetry.
      apply (emitted_break_key internal_df pb_df). left.
      apply iter_spec, elem_of_difference in Hk as [Hk1 Hk2].
      by rewrite !elem_of_list_to_set in Hk1, Hk2. }
  apply map_content_singleton in Hf as (b & Hb & Hc).
  exists b. split; [done|]. by exists b0.
Qed.

Lemma detect_missing_in_source (key : string) :
  key ∈ key_column pb_df -> key ∉ key_column internal_df ->
  exists b,
    filter (fun b => break_type b = "Missing in Source" /\ break_key b = key)
           (detect iter internal_df pb_df) = [b] /\
    exists b0, emit (missing_in_source_step (keyed pb_df)) key = [b0] /\
      content b = content b0.
Proof.
  intros H1 H2.
  destruct (first_row_in _ _ H1) as [pos' Hpos].
  destruct (missing_in_source_emit _ _ _ Hpos) as (b0 & Hb0 & Hty & _).
  set (P := fun b => break_type b = "Missing in Source" /\ break_key b = key).
  assert (map content (filter P (detect iter internal_df pb_df)) = [content b0]) as Hf.
  { unfold detect. rewrite filter_number.
    2:{ intros b b' Hc [? ?]. apply content_fields in Hc as (? & _ & _ & _ & _ & _ & _ & _ & _ & ?).
        split; congruence. }
    rewrite !filter_app.
    rewrite (filter_bind_one P (emit (missing_in_source_step (keyed pb_df))) _ key).
    - rewrite Hb0. rewrite !filter_none; [reflexivity | |].
      + intros b (k & Hb & Hk)%list_elem_of_bind [Hbt _].
        apply iter_spec, elem_of_intersection in Hk as [Hk1 Hk2].
        rewrite elem_of_list_to_set in Hk1, Hk2.
        destruct (emitted_matched_inv _ _ _ _ Hk1 Hk2 Hb)
          as (? & ? & _ & _ & [[Hty' _] | [[Hty' _] | [Hty' _]]]); congruence.
      + intros b (k & Hb & Hk)%list_elem_of_bind [Hbt _].
        apply iter_spec, elem_of_difference in Hk as [Hk1 Hk2].
        rewrite elem_of_list_to_set in Hk1, Hk2.
        destruct (first_row_in _ _ Hk1) as [p Hp].
        destruct (missing_in_target_emit _ _ _ Hp) as (b' & Hb' & Hty' & _).
        rewrite Hb' in Hb. apply list_elem_of_singleton in Hb as ->. congruence.
    - apply iter_spec.
    - apply iter_spec, elem_of_difference. by rewrite !elem_of_list_to_set.
    - rewrite Hb0. intros b ->%list_elem_of_singleton. split; [done|].
      apply (emitted_break_key internal_df pb_df). right. left. rewrite Hb0.
      split; [done|]. split; [done|]. by left.
    - intros k b Hk Hne Hb [_ Hbk]. apply Hne. rewrite <- Hbk. symmetry.
      apply (emitted_break_key internal_df pb_df). right. left.
      apply iter_spec, elem_of_difference in Hk as [Hk1 Hk2].
      by rewrite !elem_of_list_to_set in Hk1, Hk2. }
  apply map_content_singleton in Hf as (b & Hb & Hc).
  exists b. split; [done|]. by exists b0.
Qed.

End Missing.

(** ** Iteration orders *)

Lemma elements_iter_ok : iter_ok elements.
Proof.
  intros s. split; [apply NoDup_elements|].
  intros k. apply elem_of_elements.
Qed.

Lemma first_row_column (df : DataFrame) (key : string) (pos : Position) :
  first_row df key = Some pos -> key ∈ key_column df.
Proof.
  intros [<- Hin]%first_row_key. unfold key_column. apply list_elem_of_fmap. by exists pos.
Qed.

Lemma calculate_severity_pct_100 (v : Q) : calculate_severity v 100 = CRITICAL.
Proof.
  unfold calculate_severity. cbv zeta.
  replace (Qgt_bool (Qabs 100) 10) with true by reflexivity.
  by rewrite orb_true_r.
Qed.


(** ** Identifiers *)

Lemma uint_of_string_zeros (k : nat) (s : string) :
  NilEmpty.uint_of_string (zeros k +:+ s) =
  Nat.iter k (option_map Decimal.D0) (NilEmpty.uint_of_string s).
Proof. induction k as [|k IH]; simpl; [reflexivity|]. by rewrite IH. Qed.

Lemma of_uint_zeros (k : nat) (d : Decimal.uint) :
  option_map N.of_uint (Nat.iter k (option_map Decimal.D0) (Some d)) = Some (N.of_uint d).
Proof.
  induction k as [|k IH]; simpl; [reflexivity|].
  destruct (Nat.iter k (option_map Decimal.D0) (Some d)) as [d'|]; simpl in *; [|done].
  injection IH as IH. by rewrite <- IH.
Qed.

(** Reading the digits back gives the number: the padding does not
    change it. *)
Lemma format_04d_read_back (n : N) :
  option_map N.of_uint (NilEmpty.uint_of_string (format_04d n)) = Some n.
Proof.
  unfold format_04d, zero_pad, decimal.
  rewrite uint_of_string_zeros, NilEmpty.usu, of_uint_zeros.
  by rewrite DecimalN.Unsigned.of_to.
Qed.

Lemma format_04d_inj (n m : N) : format_04d n = format_04d m -> n = m.
Proof.
  intros H. pose proof (format_04d_read_back n) as Hn.
  rewrite H, format_04d_read_back in Hn. by injection Hn.
Qed.

Lemma format_04d_four_digits (n : N) :
  (n < 10000)%N -> four_digits (format_04d n) = true.
Proof.
  intros Hn.
  assert (forallb (fun k => four_digits (format_04d (N.of_nat k))) (seq 0 (N.to_nat 10000)) = true)
    as Hall by (vm_compute; reflexivity).
  rewrite forallb_forall in Hall. rewrite <- (N2Nat.id n). apply Hall. apply in_seq. lia.
Qed.

(** ** Repeated keys *)

Lemma find_first_rows (seen : list string) (rows : list Position) (key : string) :
  key ∉ seen ->
  find (fun r => String.eqb (pos_key r) key) (first_rows seen rows) =
  find (fun r => String.eqb (pos_key r) key) rows.
Proof.
  revert seen. induction rows as [|r rows IH]; intros seen Hk; simpl; [reflexivity|].
  destruct (String.eqb (pos_key r) key) eqn:E.
  - apply String.eqb_eq in E. rewrite bool_decide_eq_false_2 by congruence.
    simpl. apply String.eqb_eq in E. by rewrite E.
  - case_bool_decide as Hs.
    + by apply IH.
    + simpl. rewrite E. apply IH. apply String.eqb_neq in E.
      intros [?|?]%elem_of_cons; [congruence | done].
Qed.

Lemma first_row_drop_duplicates (df : DataFrame) (key : string) :
  first_row (drop_duplicates df) key = first_row df key.
Proof. unfold first_row, drop_duplicates. simpl. apply find_first_rows, not_elem_of_nil. Qed.

Lemma key_column_iff (df : DataFrame) (key : string) :
  key ∈ key_column df <-> is_Some (first_row df key).
Proof.
  split.
  - intros [pos Hpos]%first_row_in. by exists pos.
  - intros [pos Hpos]. by apply (first_row_column _ _ pos).
Qed.

Lemma key_set_drop_duplicates (df : DataFrame) :
  list_to_set (key_column (drop_duplicates df)) =@{gset string} list_to_set (key_column df).
Proof.
  apply set_eq. intros key. rewrite !elem_of_list_to_set, !key_column_iff.
  by rewrite first_row_drop_duplicates.
Qed.

Lemma NoDup_first_rows (seen : list string) (rows : list Position) :
  NoDup (map pos_key (first_rows seen rows)) /\
  forall k, k ∈ map pos_key (first_rows seen rows) -> k ∉ seen.
Proof.
  revert seen. induction rows as [|r rows IH]; intros seen; simpl.
  - split; [constructor | by intros k ?%elem_of_nil].
  - case_bool_decide as Hs; [apply IH|].
    destruct (IH (pos_key r :: seen)) as [Hnd Hout]. simpl. split.
    + apply NoDup_cons. split; [|done].
      intros Hin. apply (Hout _ Hin). by left.
    + intros k [->|Hin]%elem_of_cons; [done|].
      intros Hk. apply (Hout _ Hin). by right.
Qed.

Lemma NoDup_drop_duplicates (df : DataFrame) : NoDup (key_column (drop_duplicates df)).
Proof. unfold key_column, drop_duplicates. simpl. apply NoDup_first_rows. Qed.

Lemma emit_missing_in_target_ext (df df' : DataFrame) (key : string) :
  first_row df key = first_row df' key ->
  emit (missing_in_target_step (keyed df)) key = emit (missing_in_target_step (keyed df')) key.
Proof.
  intros H. unfold emit, added. cbv beta. unfold missing_in_target_step.
  by rewrite !select_first, H.
Qed.

Lemma emit_missing_in_source_ext (df df' : DataFrame) (key : string) :
  first_row df key = first_row df' key ->
  emit (missing_in_source_step (keyed df)) key = emit (missing_in_source_step (keyed df')) key.
Proof.
  intros H. unfold emit, added. cbv beta. unfold missing_in_source_step.
  by rewrite !select_first, H.
Qed.

Lemma emit_matched_ext (df1 df1' df2 df2' : DataFrame) (key : string) :
  first_row df1 key = first_row df1' key ->
  first_row df2 key = first_row df2' key ->
  emit (matched_step (keyed df1) (keyed df2)) key
  = emit (matched_step (keyed df1') (keyed df2')) key.
Proof.
  intros H1 H2. unfold emit, added. cbv beta. unfold matched_step.
  rewrite !select_first, H1.
  destruct (first_row df1' key); [|reflexivity].
  by rewrite !select_first, H2.
Qed.

Lemma detect_drop_duplicates (iter0 : gset string -> list string) (df1 df2 : DataFrame) :
  detect iter0 (drop_duplicates df1) (drop_duplicates df2) = detect iter0 df1 df2.
Proof.
  unfold detect. rewrite !key_set_drop_duplicates. do 2 f_equal; [|f_equal].
  - apply list_bind_ext; [|done]. intros key.
    apply emit_missing_in_target_ext, first_row_drop_duplicates.
  - apply list_bind_ext; [|done]. intros key.
    apply emit_missing_in_source_ext, first_row_drop_duplicates.
  - apply list_bind_ext; [|done]. intros key.
    apply emit_matched_ext; apply first_row_drop_duplicates.
Qed.
(** * The claims about a reconciliation run *)

Section Claims.

Variable iter : gset string -> list string.
Hypothesis iter_spec : iter_ok iter.
Variables internal_df pb_df : ref.
Variable h : heap.

(** C2. Every key that only the source snapshot has gets exactly one
    Missing in Target break: source value the market value of the
    position, target value 0, variance the market value, variance_pct
    100.  Every key that only the target has gets exactly one Missing in
    Source break: source value 0, variance minus the market value,
    variance_pct -100.  The severity is the classifier at percentage
    100, hence CRITICAL, whatever the dollar size; so every missing
    position break of the run is CRITICAL. *)
Theorem missing_position_breaks :
  exists breaks,
    breaks_of (reconcile_positions iter internal_df pb_df h) = Ok breaks /\
    (forall key, key ∈ key_column (h internal_df) -> key ∉ key_column (h pb_df) ->
       exists pos b,
         first_row (h internal_df) key = Some pos /\
         filter (fun b => break_type b = "Missing in Target" /\ break_key b = key) breaks = [b] /\
         internal_value b = market_value pos /\ pb_value b = 0 /\
         variance b = market_value pos /\ variance_pct b = 100 /\
         severity b = Severity_value (calculate_severity (market_value pos) 100) /\
         severity b = "CRITICAL") /\
    (forall key, key ∈ key_column (h pb_df) -> key ∉ key_column (h internal_df) ->
       exists pos b,
         first_row (h pb_df) key = Some pos /\
         filter (fun b => break_type b = "Missing in Source" /\ break_key b = key) breaks = [b] /\
         internal_value b = 0 /\ pb_value b = market_value pos /\
         variance b = - market_value pos /\ variance_pct b = - (100) /\
         severity b = Severity_value (calculate_severity (market_value pos) 100) /\
         severity b = "CRITICAL") /\
    (forall b, b ∈ breaks ->
       break_type b = "Missing in Target" \/ break_type b = "Missing in Source" ->
       severity b = "CRITICAL").
Proof.
  exists (detect iter (h internal_df) (h pb_df)).
  split; [by apply reconcile_positions_detect|].
  split; [|split].
  - intros key H1 H2.
    destruct (first_row_in _ _ H1) as [pos Hpos].
    destruct (detect_missing_in_target iter iter_spec _ _ key H1 H2)
      as (b & Hf & b0 & Hb0 & Hc).
    destruct (missing_in_target_emit _ _ _ Hpos)
      as (b0' & Hb0' & _ & _ & _ & Hiv & Hpv & Hv & Hvp & Hs).
    rewrite Hb0 in Hb0'. injection Hb0' as <-.
    destruct (content_fields _ _ Hc) as (_ & Hs' & _ & _ & Hiv' & Hpv' & Hv' & Hvp' & _).
    exists pos, b. rewrite Hs', Hiv', Hpv', Hv', Hvp', Hs, calculate_severity_pct_100. done.
  - intros key H1 H2.
    destruct (first_row_in _ _ H1) as [pos Hpos].
    destruct (detect_missing_in_source iter iter_spec _ _ key H1 H2)
      as (b & Hf & b0 & Hb0 & Hc).
    destruct (missing_in_source_emit _ _ _ Hpos)
      as (b0' & Hb0' & _ & _ & _ & Hiv & Hpv & Hv & Hvp & Hs).
    rewrite Hb0 in Hb0'. injection Hb0' as <-.
    destruct (content_fields _ _ Hc) as (_ & Hs' & _ & _ & Hiv' & Hpv' & Hv' & Hvp' & _).
    exists pos, b. rewrite Hs', Hiv', Hpv', Hv', Hvp', Hs, calculate_severity_pct_100. done.
  - intros b (key & b0 & Hem & Hc)%(detect_emitted iter iter_spec) Hty.
    destruct (content_fields _ _ Hc) as (Hbt & Hs' & _). rewrite Hbt in Hty. rewrite Hs'.
    destruct Hty as [Hty | Hty].
    + destruct (emitted_missing_in_target _ _ _ _ Hem Hty) as (H1 & _ & Hb0).
      destruct (first_row_in _ _ H1) as [pos Hpos].
      destruct (missing_in_target_emit _ _ _ Hpos) as (b0' & Hb0' & Hrest).
      rewrite Hb0 in Hb0'. injection Hb0' as <-.
      destruct Hrest as (_ & _ & _ & _ & _ & _ & _ & ->).
      by rewrite calculate_severity_pct_100.
    + destruct (emitted_missing_in_source _ _ _ _ Hem Hty) as (H1 & _ & Hb0).
      destruct (first_row_in _ _ H1) as [pos Hpos].
      destruct (missing_in_source_emit _ _ _ Hpos) as (b0' & Hb0' & Hrest).
      rewrite Hb0 in Hb0'. injection Hb0' as <-.
      destruct Hrest as (_ & _ & _ & _ & _ & _ & _ & ->).
      by rewrite calculate_severity_pct_100.
Qed.

(** What a break of a matched key says about the pair. *)
Lemma detect_matched_inv (key : string) (int_pos pb_pos : Position) (b : Break) :
  first_row (h internal_df) key = Some int_pos ->
  first_row (h pb_df) key = Some pb_pos ->
  b ∈ detect iter (h internal_df) (h pb_df) ->
  break_key b = key ->
  (break_type b = "Quantity Mismatch" /\
     exists pct, qty_var_pct int_pos pb_pos = Ok pct /\ 1 < Qabs pct) \/
  (break_type b = "Price Mismatch" /\
     exists pct, price_var_pct int_pos pb_pos = Ok pct /\ binary64 (1 # 10) < Qabs pct) \/
  (break_type b = "Market Value Mismatch" /\
     exists pct, mv_var_pct int_pos pb_pos = Ok pct /\
       2 < Qabs pct /\ 100 < Qabs (mv_var int_pos pb_pos)).
Proof.
  intros Hi Hp (key' & b0 & Hem & Hc)%(detect_emitted iter iter_spec) Hk.
  apply content_fields in Hc as (-> & _ & _ & _ & _ & _ & _ & _ & _ & Hbk).
  rewrite Hbk, (emitted_break_key _ _ _ _ Hem) in Hk. subst key'.
  pose proof (first_row_column _ _ _ Hi) as H1.
  pose proof (first_row_column _ _ _ Hp) as H2.
  pose proof (emitted_matched _ _ _ _ Hem H1 H2) as Hb0.
  destruct (emitted_matched_inv _ _ _ _ H1 H2 Hb0) as (i' & p' & Hi' & Hp' & Hcases).
  rewrite Hi in Hi'. rewrite Hp in Hp'. injection Hi' as <-. injection Hp' as <-.
  exact Hcases.
Qed.

(** The market value check in terms of its two local variables. *)
Lemma detect_market_value_iff (key : string) (int_pos pb_pos : Position) :
  first_row (h internal_df) key = Some int_pos ->
  first_row (h pb_df) key = Some pb_pos ->
  exists breaks pct,
    breaks_of (reconcile_positions iter internal_df pb_df h) = Ok breaks /\
    mv_var_pct int_pos pb_pos = Ok pct /\
    ((exists b, b ∈ breaks /\ break_type b = "Market Value Mismatch" /\ break_key b = key)
     <-> 2 < Qabs pct /\ 100 < Qabs (mv_var int_pos pb_pos)) /\
    (Qabs (mv_var int_pos pb_pos) <= 100 ->
     ~ exists b, b ∈ breaks /\ break_type b = "Market Value Mismatch" /\ break_key b = key).
Proof.
  intros Hi Hp.
  exists (detect iter (h internal_df) (h pb_df)).
  eexists. split; [by apply reconcile_positions_detect|].
  split; [apply mv_var_pct_ok|].
  assert ((exists b, b ∈ detect iter (h internal_df) (h pb_df) /\
             break_type b = "Market Value Mismatch" /\ break_key b = key) ->
          exists pct, mv_var_pct int_pos pb_pos = Ok pct /\
            2 < Qabs pct /\ 100 < Qabs (mv_var int_pos pb_pos)) as Hfwd.
  { intros (b & Hb & Hty & Hk).
    destruct (detect_matched_inv _ _ _ _ Hi Hp Hb Hk) as [[Hty' _] | [[Hty' _] | [_ Hpct]]];
      [congruence | congruence | exact Hpct]. }
  split; [split|].
  - intros Hex. destruct (Hfwd Hex) as (pct & Hpct & H1 & H2).
    rewrite mv_var_pct_ok in Hpct. injection Hpct as <-. done.
  - intros [H1 H2].
    destruct (check_market_value_emits _ _ _ (mv_var_pct_ok int_pos pb_pos) H1 H2) as [b1 Hb1].
    pose proof (first_row_column _ _ _ Hi) as Hk1.
    pose proof (first_row_column _ _ _ Hp) as Hk2.
    destruct (matched_emit_2 _ _ key _ _ b1 Hi Hp) as (b0 & Hb0 & Hc0); [by right; right|].
    assert (emitted (h internal_df) (h pb_df) key b0) as Hem by (right; right; done).
    destruct (emitted_detect iter iter_spec _ _ _ _ Hem) as (b & Hb & Hc).
    exists b. split; [done|].
    apply content_fields in Hc as (-> & _ & _ & _ & _ & _ & _ & _ & _ & ->).
    rewrite (emitted_break_key _ _ _ _ Hem). split; [|done].
    apply content_fields in Hc0 as (-> & _).
    by apply added_check_market_value in Hb1 as (-> & _).
  - intros Hle Hex. destruct (Hfwd Hex) as (pct & _ & _ & H2).
    exact (Qlt_not_le _ _ H2 Hle).
Qed.

(** C3. For a matched pair, a Market Value Mismatch break is emitted
    exactly when abs(mv_var_pct) > 2.0 and abs(mv_var) > 100 both hold,
    where mv_var is the source market value minus the target one and
    mv_var_pct is mv_var / source market value * 100 (0 when the source
    market value is 0), each operation rounded as Python floats are.
    In particular none is emitted when abs(mv_var) <= 100, whatever the
    percentage. *)
Theorem market_value_break_iff (key : string) (int_pos pb_pos : Position) :
  first_row (h internal_df) key = Some int_pos ->
  first_row (h pb_df) key = Some pb_pos ->
  let var := fsub (market_value int_pos) (market_value pb_pos) in
  let pct :=
    if Qeq_bool (market_value int_pos) 0 then 0
    else fmul (fdiv var (market_value int_pos)) 100 in
  mv_var int_pos pb_pos = var /\
  mv_var_pct int_pos pb_pos = Ok pct /\
  exists breaks,
    breaks_of (reconcile_positions iter internal_df pb_df h) = Ok breaks /\
    ((exists b, b ∈ breaks /\ break_type b = "Market Value Mismatch" /\ break_key b = key)
     <-> 2 < Qabs pct /\ 100 < Qabs var) /\
    (Qabs var <= 100 ->
     ~ exists b, b ∈ breaks /\ break_type b = "Market Value Mismatch" /\ break_key b = key).
Proof.
  intros Hi Hp var pct.
  split; [reflexivity|]. split; [apply mv_var_pct_ok|].
  destruct (detect_market_value_iff key int_pos pb_pos Hi Hp)
    as (breaks & pct' & Hrun & Hpct & Hiff & Hfloor).
  rewrite mv_var_pct_ok in Hpct. injection Hpct as <-.
  exists breaks. split; [exact Hrun|]. split; [exact Hiff | exact Hfloor].
Qed.


(** ** Pairs that agree, and zero source fields *)

Lemma guarded_pct_zero (g : bool) (var den : Q) :
  var == 0 -> (if g then 0 else fmul (fdiv var den) 100) == 0.
Proof.
  intros Hv. destruct g; [reflexivity|]. unfold fmul, fdiv.
  rewrite (binary64_zero (var / den)) by (rewrite Hv; unfold Qdiv; ring).
  by rewrite binary64_zero.
Qed.

Lemma zero_pct_within (t pct : Q) : pct == 0 -> 0 <= t -> ~ t < Qabs pct.
Proof.
  intros Hp Ht Hlt. rewrite Hp in Hlt. change (Qabs 0) with 0 in Hlt.
  exact (Qlt_not_le _ _ Hlt Ht).
Qed.

Lemma qty_var_pct_zero (int_pos pb_pos : Position) (pct : Q) :
  quantity int_pos = quantity pb_pos \/ quantity int_pos = 0%Z ->
  qty_var_pct int_pos pb_pos = Ok pct -> pct == 0.
Proof.
  rewrite qty_var_pct_ok. intros Hq [= <-].
  destruct Hq as [Hq | Hq].
  - apply guarded_pct_zero. by rewrite Hq, Z.sub_diag.
  - by rewrite Hq.
Qed.

Lemma price_var_pct_zero (int_pos pb_pos : Position) (pct : Q) :
  price int_pos == price pb_pos \/ price int_pos == 0 ->
  price_var_pct int_pos pb_pos = Ok pct -> pct == 0.
Proof.
  rewrite price_var_pct_ok. intros Hq [= <-].
  destruct Hq as [Hq | Hq].
  - apply guarded_pct_zero. unfold fsub. rewrite binary64_zero; [reflexivity|]. rewrite Hq. ring.
  - apply Qeq_bool_iff in Hq. by rewrite Hq.
Qed.

Lemma mv_var_pct_zero (int_pos pb_pos : Position) (pct : Q) :
  market_value int_pos == market_value pb_pos \/ market_value int_pos == 0 ->
  mv_var_pct int_pos pb_pos = Ok pct -> pct == 0.
Proof.
  rewrite mv_var_pct_ok. intros Hq [= <-].
  destruct Hq as [Hq | Hq].
  - apply guarded_pct_zero. unfold fsub. rewrite binary64_zero; [reflexivity|]. rewrite Hq. ring.
  - apply Qeq_bool_iff in Hq. by rewrite Hq.
Qed.

Lemma identical_pair_no_break (key : string) (int_pos pb_pos : Position) (b : Break) :
  first_row (h internal_df) key = Some int_pos ->
  first_row (h pb_df) key = Some pb_pos ->
  quantity int_pos = quantity pb_pos ->
  price int_pos == price pb_pos ->
  market_value int_pos == market_value pb_pos ->
  b ∈ detect iter (h internal_df) (h pb_df) -> break_key b <> key.
Proof.
  intros Hi Hp Hq Hpr Hmv Hb Hk.
  destruct (detect_matched_inv _ _ _ _ Hi Hp Hb Hk)
    as [(_ & pct & Hpct & Hlt) | [(_ & pct & Hpct & Hlt) | (_ & pct & Hpct & Hlt & _)]].
  - apply qty_var_pct_zero in Hpct; [|by left]. by apply (zero_pct_within 1 pct).
  - apply price_var_pct_zero in Hpct; [|by left]. by apply (zero_pct_within (binary64 (1 # 10)) pct).
  - apply mv_var_pct_zero in Hpct; [|by left]. by apply (zero_pct_within 2 pct).
Qed.

(** C4. A key of both snapshots whose two positions have the same
    quantity, price and market value gets no break; so a snapshot
    reconciled against itself gives the empty list. *)
Theorem identical_positions_no_break :
  (forall key int_pos pb_pos,
     first_row (h internal_df) key = Some int_pos ->
     first_row (h pb_df) key = Some pb_pos ->
     quantity int_pos = quantity pb_pos ->
     price int_pos == price pb_pos ->
     market_value int_pos == market_value pb_pos ->
     exists breaks,
       breaks_of (reconcile_positions iter internal_df pb_df h) = Ok breaks /\
       forall b, b ∈ breaks -> break_key b <> key) /\
  (df_rows (h internal_df) = df_rows (h pb_df) ->
   breaks_of (reconcile_positions iter internal_df pb_df h) = Ok []).
Proof.
  split.
  - intros key int_pos pb_pos Hi Hp Hq Hpr Hmv.
    exists (detect iter (h internal_df) (h pb_df)).
    split; [by apply reconcile_positions_detect|].
    intros b. by apply (identical_pair_no_break key int_pos pb_pos).
  - intros Hrows. rewrite reconcile_positions_detect by done. f_equal.
    apply elem_of_nil_inv. intros b Hb.
    destruct (detect_emitted iter iter_spec _ _ _ Hb) as (key & b0 & Hem & Hc).
    assert (key ∈ key_column (h internal_df)) as Hk.
    { unfold emitted, key_column in *. rewrite Hrows in *. tauto. }
    destruct (first_row_in _ _ Hk) as [pos Hpos].
    assert (first_row (h pb_df) key = Some pos) as Hpos'.
    { unfold first_row in *. by rewrite <- Hrows. }
    refine (identical_pair_no_break key pos pos b Hpos Hpos' eq_refl _ _ Hb _).
    + reflexivity.
    + reflexivity.
    + apply content_fields in Hc as (_ & _ & _ & _ & _ & _ & _ & _ & _ & ->).
      by apply (emitted_break_key (h internal_df) (h pb_df)).
Qed.

(** C10. For a matched pair, a source field that is zero silences its
    check whatever the target holds: no Quantity Mismatch when the
    source quantity is 0, no Price Mismatch when the source price is 0,
    no Market Value Mismatch when the source market value is 0.  The
    guard makes the percentage 0, and 0 exceeds no tolerance. *)
Theorem zero_source_field_no_break (key : string) (int_pos pb_pos : Position) :
  first_row (h internal_df) key = Some int_pos ->
  first_row (h pb_df) key = Some pb_pos ->
  exists breaks,
    breaks_of (reconcile_positions iter internal_df pb_df h) = Ok breaks /\
    (quantity int_pos = 0%Z ->
     qty_var_pct int_pos pb_pos = Ok 0 /\
     ~ exists b, b ∈ breaks /\ break_type b = "Quantity Mismatch" /\ break_key b = key) /\
    (price int_pos == 0 ->
     price_var_pct int_pos pb_pos = Ok 0 /\
     ~ exists b, b ∈ breaks /\ break_type b = "Price Mismatch" /\ break_key b = key) /\
    (market_value int_pos == 0 ->
     mv_var_pct int_pos pb_pos = Ok 0 /\
     ~ exists b, b ∈ breaks /\ break_type b = "Market Value Mismatch" /\ break_key b = key).
Proof.
  intros Hi Hp.
  exists (detect iter (h internal_df) (h pb_df)).
  split; [by apply reconcile_positions_detect|].
  split; [|split].
  - intros Hz. split; [rewrite qty_var_pct_ok; by rewrite Hz|].
    intros (b & Hb & Hty & Hk).
    destruct (detect_matched_inv _ _ _ _ Hi Hp Hb Hk)
      as [(_ & pct & Hpct & Hlt) | [(Hty' & _) | (Hty' & _)]]; [|congruence|congruence].
    apply qty_var_pct_zero in Hpct; [|by right]. by apply (zero_pct_within 1 pct).
  - intros Hz. split; [rewrite price_var_pct_ok; apply Qeq_bool_iff in Hz; by rewrite Hz|].
    intros (b & Hb & Hty & Hk).
    destruct (detect_matched_inv _ _ _ _ Hi Hp Hb Hk)
      as [(Hty' & _) | [(_ & pct & Hpct & Hlt) | (Hty' & _)]]; [congruence| |congruence].
    apply price_var_pct_zero in Hpct; [|by right]. by apply (zero_pct_within (binary64 (1 # 10)) pct).
  - intros Hz. split; [rewrite mv_var_pct_ok; apply Qeq_bool_iff in Hz; by rewrite Hz|].
    intros (b & Hb & Hty & Hk).
    destruct (detect_matched_inv _ _ _ _ Hi Hp Hb Hk)
      as [(Hty' & _) | [(Hty' & _) | (_ & pct & Hpct & Hlt & _)]]; [congruence|congruence|].
    apply mv_var_pct_zero in Hpct; [|by right]. by apply (zero_pct_within 2 pct).
Qed.

(** C5. The identifiers of one run are BRK- followed by the position
    of the break in the list, counted from 1 and zero-padded to four
    digits: sequential from 1 without gaps, in the order in which the
    breaks were produced, and pairwise distinct.  Up to 9999 breaks
    each identifier is BRK- and exactly four decimal digits. *)
Theorem break_ids_sequential :
  exists breaks,
    breaks_of (reconcile_positions iter internal_df pb_df h) = Ok breaks /\
    (forall (i : nat) (b : Break), breaks !! i = Some b ->
       break_id b = "BRK-" +:+ format_04d (N.of_nat (i + 1))) /\
    NoDup (map break_id breaks) /\
    (forall (i : nat) (b : Break), breaks !! i = Some b -> (N.of_nat (i + 1) < 10000)%N ->
       exists digits, break_id b = "BRK-" +:+ digits /\ four_digits digits = true).
Proof.
  exists (detect iter (h internal_df) (h pb_df)).
  split; [by apply reconcile_positions_detect|].
  assert (forall (i : nat) (b : Break), detect iter (h internal_df) (h pb_df) !! i = Some b ->
            break_id b = "BRK-" +:+ format_04d (N.of_nat (i + 1))) as Hid.
  { intros i b Hb. unfold detect in Hb. by apply number_lookup in Hb. }
  split; [exact Hid|]. split.
  - apply NoDup_alt. intros i j id Hi Hj.
    rewrite list_lookup_fmap in Hi, Hj.
    destruct (detect iter (h internal_df) (h pb_df) !! i) as [bi|] eqn:Ei; [|done].
    destruct (detect iter (h internal_df) (h pb_df) !! j) as [bj|] eqn:Ej; [|done].
    simpl in Hi, Hj. injection Hi as Hi. injection Hj as Hj.
    rewrite (Hid _ _ Ei) in Hi. rewrite (Hid _ _ Ej) in Hj.
    rewrite <- Hj in Hi. injection Hi as Hi.
    apply format_04d_inj in Hi. lia.
  - intros i b Hb Hlt. eexists. split; [by apply Hid|].
    by apply format_04d_four_digits.
Qed.

(** C8, as the code has it.  Repeated keys do not stop the run: it
    returns its list, the same list as for the snapshots without the
    later rows of every repeated key.  For each key the first row that
    carries it is the one compared. *)
Theorem duplicate_keys_first_row_wins :
  exists breaks,
    breaks_of (reconcile_positions iter internal_df pb_df h) = Ok breaks /\
    breaks_of (reconcile_positions iter internal_df pb_df (fun r => drop_duplicates (h r)))
      = Ok breaks /\
    ~ has_duplicate_keys (drop_duplicates (h internal_df)) /\
    ~ has_duplicate_keys (drop_duplicates (h pb_df)).
Proof.
  exists (detect iter (h internal_df) (h pb_df)).
  split; [by apply reconcile_positions_detect|].
  split; [|split].
  - rewrite reconcile_positions_detect by done. f_equal. apply detect_drop_duplicates.
  - intros Hd. apply Hd, NoDup_drop_duplicates.
  - intros Hd. apply Hd, NoDup_drop_duplicates.
Qed.

End Claims.

(** * Division, repeated keys and the input collections *)

Lemma for_each_no_division_error {A S : Type} (body : S -> A -> result S) (l : list A) (s : S) :
  (forall s a, body s a <> Err ZeroDivisionError) ->
  for_each l body s <> Err ZeroDivisionError.
Proof.
  intros Hbody. revert s. induction l as [|a l IH]; intros s; simpl; [done|].
  pose proof (Hbody s a) as Ha. destruct (body s a) as [s'|e]; simpl; [apply IH | done].
Qed.

Lemma missing_in_target_step_no_division_error (df : DataFrame) (breaks : list Break)
    (key : string) :
  missing_in_target_step df breaks key <> Err ZeroDivisionError.
Proof.
  unfold missing_in_target_step, rows_with_key, get_pos_key.
  destruct (df_pos_key df) as [col|]; simpl; [|done].
  destruct (mask_rows _ _); simpl; done.
Qed.

Lemma missing_in_source_step_no_division_error (df : DataFrame) (breaks : list Break)
    (key : string) :
  missing_in_source_step df breaks key <> Err ZeroDivisionError.
Proof.
  unfold missing_in_source_step, rows_with_key, get_pos_key.
  destruct (df_pos_key df) as [col|]; simpl; [|done].
  destruct (mask_rows _ _); simpl; done.
Qed.

Lemma matched_step_no_division_error (df1 df2 : DataFrame) (breaks : list Break)
    (key : string) :
  matched_step df1 df2 breaks key <> Err ZeroDivisionError.
Proof.
  unfold matched_step, rows_with_key, get_pos_key.
  destruct (df_pos_key df1) as [col1|]; simpl; [|done].
  destruct (mask_rows _ _) as [|int_pos ?]; simpl; [done|].
  destruct (df_pos_key df2) as [col2|]; simpl; [|done].
  destruct (mask_rows _ _) as [|pb_pos ?]; simpl; [done|].
  rewrite check_quantity_appends. simpl.
  rewrite check_price_appends. simpl.
  by rewrite check_market_value_appends.
Qed.

(** C7. A percentage whose denominator (source quantity, price or
    market value) is zero is the fixed value 0, computed without
    dividing; the three percentage computations never fail, and no run
    of the engine ends in a division error, whatever the snapshots and
    the iteration order. *)
Theorem no_division_by_zero :
  (forall int_pos pb_pos : Position,
     (quantity int_pos = 0%Z -> qty_var_pct int_pos pb_pos = Ok 0) /\
     (price int_pos == 0 -> price_var_pct int_pos pb_pos = Ok 0) /\
     (market_value int_pos == 0 -> mv_var_pct int_pos pb_pos = Ok 0) /\
     (exists q, qty_var_pct int_pos pb_pos = Ok q) /\
     (exists q, price_var_pct int_pos pb_pos = Ok q) /\
     (exists q, mv_var_pct int_pos pb_pos = Ok q)) /\
  (forall (iter : gset string -> list string) (internal_df pb_df : ref) (h : heap),
     breaks_of (reconcile_positions iter internal_df pb_df h) <> Err ZeroDivisionError).
Proof.
  split.
  - intros int_pos pb_pos. repeat split.
    + intros Hz. rewrite qty_var_pct_ok. by rewrite Hz.
    + intros Hz. rewrite price_var_pct_ok. apply Qeq_bool_iff in Hz. by rewrite Hz.
    + intros Hz. rewrite mv_var_pct_ok. apply Qeq_bool_iff in Hz. by rewrite Hz.
    + rewrite qty_var_pct_ok. by eexists.
    + rewrite price_var_pct_ok. by eexists.
    + rewrite mv_var_pct_ok. by eexists.
  - intros iter internal_df pb_df h.
    pose proof (heap_after_internal iter internal_df pb_df h) as Hi.
    pose proof (heap_after_pb iter internal_df pb_df h) as Hp.
    cbv beta iota zeta delta [heap_of breaks_of fst snd reconcile_positions] in *.
    rewrite Hi, Hp. simpl.
    match goal with
    | |- context [for_each ?l ?body ?s] =>
        pose proof (for_each_no_division_error body l s
                      (missing_in_target_step_no_division_error _)) as H1;
        destruct (for_each l body s) as [breaks1|e1]; simpl; [|done]
    end.
    match goal with
    | |- context [for_each ?l ?body ?s] =>
        pose proof (for_each_no_division_error body l s
                      (missing_in_source_step_no_division_error _)) as H2;
        destruct (for_each l body s) as [breaks2|e2]; simpl; [|done]
    end.
    match goal with
    | |- context [for_each ?l ?body ?s] =>
        pose proof (for_each_no_division_error body l s
                      (matched_step_no_division_error _ _)) as H3;
        destruct (for_each l body s) as [breaks3|e3]; simpl; done
    end.
Qed.

Lemma no_division_by_zero_witness :
  qty_var_pct (position "IDLE" "HEDGE_FUND_02" 0 0 0) (position "IDLE" "HEDGE_FUND_02" 70 3 210)
    = Ok 0 /\
  price_var_pct (position "IDLE" "HEDGE_FUND_02" 0 0 0) (position "IDLE" "HEDGE_FUND_02" 70 3 210)
    = Ok 0 /\
  mv_var_pct (position "IDLE" "HEDGE_FUND_02" 0 0 0) (position "IDLE" "HEDGE_FUND_02" 70 3 210)
    = Ok 0.
Proof.
  destruct (proj1 no_division_by_zero
              (position "IDLE" "HEDGE_FUND_02" 0 0 0) (position "IDLE" "HEDGE_FUND_02" 70 3 210))
    as (Hq & Hp & Hm & _).
  split; [apply Hq; reflexivity|].
  split; [apply Hp; reflexivity | apply Hm; reflexivity].
Defined.

(** C8, as stated: a snapshot with a repeated key makes the run fail.
    It does not: with MSFT|HEDGE_FUND_01 on two rows of the internal
    snapshot the run returns a list, here the empty one, the second row
    being ignored. *)
Lemma duplicate_keys_not_rejected :
  has_duplicate_keys (duplicate_heap 0%nat) /\
  breaks_of (reconcile_positions elements 0%nat 1%nat duplicate_heap) = Ok [] /\
  ~ (exists e, breaks_of (reconcile_positions elements 0%nat 1%nat duplicate_heap) = Err e).
Proof.
  split; [|split].
  - intros Hnd. apply NoDup_cons_1_1 in Hnd. apply Hnd. by left.
  - vm_compute. reflexivity.
  - intros [e He]. vm_compute in He. discriminate.
Qed.

(** C9, as stated: both collections are the same after the run as
    before it.  They are not: the internal snapshot has no pos_key
    column before the run and has one after it. *)
Lemma inputs_not_left_unchanged :
  heap_of (reconcile_positions elements 0%nat 1%nat sample_heap) 0%nat <> sample_heap 0%nat /\
  df_pos_key (sample_heap 0%nat) = None /\
  df_pos_key (heap_of (reconcile_positions elements 0%nat 1%nat sample_heap) 0%nat)
    = Some [ "AAPL|HEDGE_FUND_01"; "XYZ|HEDGE_FUND_01"; "MSFT|HEDGE_FUND_01";
             "IDLE|HEDGE_FUND_02"; "JPM|HEDGE_FUND_02" ].
Proof.
  split; [|split].
  - intros H. apply (f_equal df_pos_key) in H. vm_compute in H. discriminate.
  - reflexivity.
  - vm_compute. reflexivity.
Qed.

(** C9, as the code has it.  The run leaves the rows of every data
    frame as they were: no row added or removed, no field of a position
    changed.  To each of the two collections it adds the column pos_key
    (or overwrites it), holding symbol|account_id of each row.  Every
    other data frame is untouched. *)
Theorem inputs_gain_pos_key_column
    (iter : gset string -> list string) (internal_df pb_df : ref) (h : heap) :
  let h' := heap_of (reconcile_positions iter internal_df pb_df h) in
  (forall r, df_rows (h' r) = df_rows (h r)) /\
  df_pos_key (h' internal_df) = Some (key_column (h internal_df)) /\
  df_pos_key (h' pb_df) = Some (key_column (h pb_df)) /\
  (forall r, r <> internal_df -> r <> pb_df -> h' r = h r).
Proof.
  intros h'. unfold h'. repeat split.
  - intros r.
    destruct (decide (r = internal_df)) as [->|H1]; [by rewrite heap_after_internal|].
    destruct (decide (r = pb_df)) as [->|H2]; [by rewrite heap_after_pb|].
    by rewrite heap_after_other.
  - by rewrite heap_after_internal.
  - by rewrite heap_after_pb.
  - intros r H1 H2. by apply heap_after_other.
Qed.

Lemma inputs_gain_pos_key_column_witness :
  heap_of (reconcile_positions elements 0%nat 1%nat sample_heap) 2%nat = sample_heap 2%nat.
Proof.
  apply (inputs_gain_pos_key_column elements 0%nat 1%nat sample_heap); lia.
Defined.

(** * The properties on the sample snapshots *)

Lemma missing_position_breaks_witness :
  exists breaks b,
    breaks_of (reconcile_positions elements 0%nat 1%nat sample_heap) = Ok breaks /\
    filter (fun b => break_type b = "Missing in Target" /\ break_key b = "XYZ|HEDGE_FUND_01")
           breaks = [b] /\
    internal_value b = 500 /\ pb_value b = 0 /\ variance b = 500 /\ variance_pct b = 100 /\
    severity b = "CRITICAL".
Proof.
  destruct (missing_position_breaks elements elements_iter_ok 0%nat 1%nat sample_heap)
    as (breaks & Hrun & Hmt & _).
  destruct (Hmt "XYZ|HEDGE_FUND_01") as (pos & b & Hpos & Hf & Hiv & Hpv & Hv & Hvp & _ & Hs).
  - compute_done.
  - compute_done.
  - vm_compute in Hpos. injection Hpos as <-.
    exists breaks, b. repeat split; assumption.
Defined.

Lemma market_value_break_iff_witness :
  exists breaks,
    breaks_of (reconcile_positions elements 0%nat 1%nat sample_heap) = Ok breaks /\
    (exists b, b ∈ breaks /\ break_type b = "Market Value Mismatch" /\
               break_key b = "AAPL|HEDGE_FUND_01") /\
    ~ (exists b, b ∈ breaks /\ break_type b = "Market Value Mismatch" /\
                 break_key b = "MSFT|HEDGE_FUND_01").
Proof.
  destruct (market_value_break_iff elements elements_iter_ok 0%nat 1%nat sample_heap
              "AAPL|HEDGE_FUND_01"
              (position "AAPL" "HEDGE_FUND_01" 10000 100 1000000)
              (position "AAPL" "HEDGE_FUND_01" 9400 100 940000) eq_refl eq_refl)
    as (_ & _ & breaks & Hrun & Hiff & _).
  destruct (market_value_break_iff elements elements_iter_ok 0%nat 1%nat sample_heap
              "MSFT|HEDGE_FUND_01"
              (position "MSFT" "HEDGE_FUND_01" 10 (1 # 2) 5)
              (position "MSFT" "HEDGE_FUND_01" 10 (1 # 4) (5 # 2)) eq_refl eq_refl)
    as (_ & _ & breaks' & Hrun' & _ & Hfloor).
  rewrite Hrun in Hrun'. injection Hrun' as <-.
  exists breaks. split; [exact Hrun|]. split.
  - apply Hiff. split; vm_compute; reflexivity.
  - apply Hfloor. vm_compute. discriminate.
Defined.

Lemma identical_positions_no_break_witness :
  (exists breaks,
     breaks_of (reconcile_positions elements 0%nat 1%nat sample_heap) = Ok breaks /\
     forall b, b ∈ breaks -> break_key b <> "JPM|HEDGE_FUND_02") /\
  breaks_of (reconcile_positions elements 0%nat 0%nat sample_heap) = Ok [].
Proof.
  split.
  - apply (proj1 (identical_positions_no_break elements elements_iter_ok 0%nat 1%nat sample_heap)
             "JPM|HEDGE_FUND_02"
             (position "JPM" "HEDGE_FUND_02" 300 200 60000)
             (position "JPM" "HEDGE_FUND_02" 300 200 60000)); reflexivity.
  - apply (proj2 (identical_positions_no_break elements elements_iter_ok 0%nat 0%nat sample_heap)).
    reflexivity.
Defined.

Lemma break_ids_sequential_witness :
  exists breaks,
    breaks_of (reconcile_positions elements 0%nat 1%nat sample_heap) = Ok breaks /\
    (forall (i : nat) (b : Break), breaks !! i = Some b ->
       break_id b = "BRK-" +:+ format_04d (N.of_nat (i + 1))) /\
    NoDup (map break_id breaks) /\
    (forall (i : nat) (b : Break), breaks !! i = Some b -> (N.of_nat (i + 1) < 10000)%N ->
       exists digits, break_id b = "BRK-" +:+ digits /\ four_digits digits = true).
Proof.
  apply (break_ids_sequential elements elements_iter_ok 0%nat 1%nat sample_heap).
Defined.

Lemma zero_source_field_no_break_witness :
  exists breaks,
    breaks_of (reconcile_positions elements 0%nat 1%nat sample_heap) = Ok breaks /\
    ~ (exists b, b ∈ breaks /\ break_type b = "Quantity Mismatch" /\
                 break_key b = "IDLE|HEDGE_FUND_02") /\
    ~ (exists b, b ∈ breaks /\ break_type b = "Price Mismatch" /\
                 break_key b = "IDLE|HEDGE_FUND_02") /\
    ~ (exists b, b ∈ breaks /\ break_type b = "Market Value Mismatch" /\
                 break_key b = "IDLE|HEDGE_FUND_02").
Proof.
  destruct (zero_source_field_no_break elements elements_iter_ok 0%nat 1%nat sample_heap
              "IDLE|HEDGE_FUND_02"
              (position "IDLE" "HEDGE_FUND_02" 0 0 0)
              (position "IDLE" "HEDGE_FUND_02" 70 3 210) eq_refl eq_refl)
    as (breaks & Hrun & Hq & Hp & Hm).
  exists breaks. split; [exact Hrun|].
  split; [apply Hq; reflexivity|].
  split; [apply Hp; reflexivity | apply Hm; reflexivity].
Defined.

Lemma duplicate_keys_first_row_wins_witness :
  exists breaks,
    breaks_of (reconcile_positions elements 0%nat 1%nat duplicate_heap) = Ok breaks /\
    breaks_of (reconcile_positions elements 0%nat 1%nat (fun r => drop_duplicates (duplicate_heap r)))
      = Ok breaks /\
    ~ has_duplicate_keys (drop_duplicates (duplicate_heap 0%nat)) /\
    ~ has_duplicate_keys (drop_duplicates (duplicate_heap 1%nat)).
Proof.
  apply (duplicate_keys_first_row_wins elements elements_iter_ok 0%nat 1%nat duplicate_heap).
Defined.

(** The run on the sample snapshots: identifier, type and severity of
    each break, in order. *)
Example sample_run :
  match breaks_of (reconcile_positions elements 0%nat 1%nat sample_heap) with
  | Ok breaks => map (fun b => (break_id b, break_type b, severity b)) breaks
  | Err _ => []
  end =
  [ ("BRK-0001", "Missing in Target", "CRITICAL");
    ("BRK-0002", "Missing in Source", "CRITICAL");
    ("BRK-0003", "Price Mismatch", "CRITICAL");
    ("BRK-0004", "Quantity Mismatch", "HIGH");
    ("BRK-0005", "Market Value Mismatch", "HIGH") ].
Proof. vm_compute. reflexivity. Qed.

(** The quantity example of the specification: 10,000 against 9,400
    shares at 100.00 is a 6% variance worth 60,000, hence HIGH. *)
Example quantity_example : calculate_severity 60000 6 = HIGH.
Proof. reflexivity. Qed.

(** Beyond 9999 the counter takes the digits it needs. *)
Example format_04d_examples :
  format_04d 1 = "0001" /\ format_04d 9999 = "9999" /\ format_04d 10000 = "10000".
Proof. repeat split. Qed.

(** * Further properties of the engine *)

(** ** What the quantity and price checks emit *)

Lemma added_check_quantity_fields (int_pos pb_pos : Position) (b : Break) :
  b ∈ added (check_quantity int_pos pb_pos) ->
  exists pct, qty_var_pct int_pos pb_pos = Ok pct /\
    internal_value b = inject_Z (quantity int_pos) /\
    pb_value b = inject_Z (quantity pb_pos) /\
    variance b = inject_Z (qty_var int_pos pb_pos) /\
    variance_pct b = round2 pct /\
    severity b = Severity_value
      (calculate_severity (Qabs (fmul (of_int (qty_var int_pos pb_pos)) (price int_pos))) pct).
Proof.
  unfold added, check_quantity. rewrite qty_var_pct_ok. simpl.
  destruct (Qgt_bool _ _) eqn:E; simpl; [|by intros ?%elem_of_nil].
  intros ->%list_elem_of_singleton. eexists. split; [reflexivity|]. simpl. done.
Qed.

Lemma added_check_price_fields (int_pos pb_pos : Position) (b : Break) :
  b ∈ added (check_price int_pos pb_pos) ->
  exists pct, price_var_pct int_pos pb_pos = Ok pct /\
    internal_value b = price int_pos /\
    pb_value b = price pb_pos /\
    variance b = round2 (price_var int_pos pb_pos) /\
    variance_pct b = round2 pct /\
    severity b = Severity_value
      (calculate_severity (Qabs (fmul (price_var int_pos pb_pos) (of_int (quantity int_pos)))) pct).
Proof.
  unfold added, check_price. rewrite price_var_pct_ok. simpl.
  destruct (Qgt_bool _ _) eqn:E; simpl; [|by intros ?%elem_of_nil].
  intros ->%list_elem_of_singleton. eexists. split; [reflexivity|]. simpl. done.
Qed.

Lemma added_check_market_value_fields (int_pos pb_pos : Position) (b : Break) :
  b ∈ added (check_market_value int_pos pb_pos) ->
  exists pct, mv_var_pct int_pos pb_pos = Ok pct /\ 2 < Qabs pct /\
    internal_value b = market_value int_pos /\
    pb_value b = market_value pb_pos /\
    variance b = round2 (mv_var int_pos pb_pos) /\
    variance_pct b = round2 pct /\
    severity b = Severity_value (calculate_severity (mv_var int_pos pb_pos) pct).
Proof.
  unfold added, check_market_value. rewrite mv_var_pct_ok. simpl.
  destruct (Qgt_bool _ _ && Qgt_bool _ _) eqn:E; simpl; [|by intros ?%elem_of_nil].
  apply andb_true_iff in E as [E1 _]. apply Qgt_bool_true in E1.
  intros ->%list_elem_of_singleton. eexists. split; [reflexivity|]. simpl. done.
Qed.

Lemma check_quantity_emits (int_pos pb_pos : Position) (pct : Q) :
  qty_var_pct int_pos pb_pos = Ok pct -> 1 < Qabs pct ->
  exists b, b ∈ added (check_quantity int_pos pb_pos).
Proof.
  intros Hpct H1. unfold added, check_quantity. rewrite Hpct.
  apply Qgt_bool_true in H1.
  cbv beta iota zeta delta [mbind result_bind quantity_pct TOLERANCES].
  rewrite H1. eexists. by apply list_elem_of_singleton.
Qed.

Lemma check_price_emits (int_pos pb_pos : Position) (pct : Q) :
  price_var_pct int_pos pb_pos = Ok pct -> binary64 (1 # 10) < Qabs pct ->
  exists b, b ∈ added (check_price int_pos pb_pos).
Proof.
  intros Hpct H1. unfold added, check_price. rewrite Hpct.
  apply Qgt_bool_true in H1.
  cbv beta iota zeta delta [mbind result_bind price_pct TOLERANCES].
  rewrite H1. eexists. by apply list_elem_of_singleton.
Qed.

Lemma added_check_quantity_length (int_pos pb_pos : Position) :
  (length (added (check_quantity int_pos pb_pos)) <= 1)%nat.
Proof.
  unfold added, check_quantity. rewrite qty_var_pct_ok. simpl.
  destruct (Qgt_bool _ _); simpl; lia.
Qed.

Lemma added_check_price_length (int_pos pb_pos : Position) :
  (length (added (check_price int_pos pb_pos)) <= 1)%nat.
Proof.
  unfold added, check_price. rewrite price_var_pct_ok. simpl.
  destruct (Qgt_bool _ _); simpl; lia.
Qed.

Lemma added_check_market_value_length (int_pos pb_pos : Position) :
  (length (added (check_market_value int_pos pb_pos)) <= 1)%nat.
Proof.
  unfold added, check_market_value. rewrite mv_var_pct_ok. simpl.
  destruct (Qgt_bool _ _ && Qgt_bool _ _); simpl; lia.
Qed.

Lemma matched_emit_length (internal_df pb_df : DataFrame) (key : string) :
  (length (emit (matched_step (keyed internal_df) (keyed pb_df)) key) <= 3)%nat.
Proof.
  destruct (first_row internal_df key) as [int_pos|] eqn:Hi.
  - destruct (first_row pb_df key) as [pb_pos|] eqn:Hp.
    + rewrite (matched_emit _ _ _ _ _ Hi Hp), length_number, !length_app.
      pose proof (added_check_quantity_length int_pos pb_pos).
      pose proof (added_check_price_length int_pos pb_pos).
      pose proof (added_check_market_value_length int_pos pb_pos). lia.
    + unfold emit, added. cbv beta. unfold matched_step.
      rewrite select_first, Hi, select_first, Hp. simpl. lia.
  - unfold emit, added. cbv beta. unfold matched_step.
    rewrite select_first, Hi. simpl. lia.
Qed.

(** ** Lengths of the blocks of the result *)

Lemma iter_length (iter : gset string -> list string) (s : gset string) :
  iter_ok iter -> length (iter s) = size s.
Proof.
  intros Hiter. unfold size, set_size. simpl.
  apply Permutation_length, NoDup_Permutation.
  - apply Hiter.
  - apply NoDup_elements.
  - intros k. rewrite elem_of_elements. apply Hiter.
Qed.

Lemma length_bind_one {A B : Type} (f : A -> list B) (keys : list A) :
  (forall k, k ∈ keys -> length (f k) = 1%nat) -> length (keys ≫= f) = length keys.
Proof.
  induction keys as [|k keys IH]; intros Hf; [reflexivity|].
  rewrite bind_cons, length_app, (Hf k) by left. simpl. f_equal.
  apply IH. intros k' Hk'. apply Hf. by right.
Qed.

Lemma length_bind_le {A B : Type} (f : A -> list B) (keys : list A) (c : nat) :
  (forall k, (length (f k) <= c)%nat) -> (length (keys ≫= f) <= c * length keys)%nat.
Proof.
  intros Hf. induction keys as [|k keys IH]; [simpl; lia|].
  rewrite bind_cons, length_app. pose proof (Hf k). simpl. lia.
Qed.

Lemma number_type (n : nat) (l : list Break) (P : Break -> Prop) :
  (forall b b', content b = content b' -> P b' -> P b) ->
  (forall b0, b0 ∈ l -> P b0) -> forall b, b ∈ number n l -> P b.
Proof.
  intros HP Hl b (b0 & Hb0 & Hc)%number_content_1. apply (HP b b0 Hc). by apply Hl.
Qed.

(** ** Keys and types of the blocks of the result *)

Lemma map_number {A : Type} (f : Break -> A) (n : nat) (l : list Break) :
  (forall id b, f (with_break_id id b) = f b) -> map f (number n l) = map f l.
Proof.
  intros Hf. revert n. induction l as [|b l IH]; intros n; simpl; [reflexivity|].
  by rewrite Hf, IH.
Qed.

Lemma map_bind_one {A B : Type} (g : B -> A) (f : A -> list B) (keys : list A) :
  (forall k, k ∈ keys -> map g (f k) = [k]) -> map g (keys ≫= f) = keys.
Proof.
  induction keys as [|k keys IH]; intros Hf; [reflexivity|].
  rewrite bind_cons, map_app, (Hf k) by left. simpl. f_equal.
  apply IH. intros k' Hk'. apply Hf. by right.
Qed.

Lemma map_bind {A B C : Type} (g : B -> C) (f : A -> list B) (keys : list A) :
  map g (keys ≫= f) = keys ≫= (fun k => map g (f k)).
Proof.
  induction keys as [|k keys IH]; [reflexivity|].
  by rewrite !bind_cons, map_app, IH.
Qed.

Lemma sublist_bind {A B : Type} (f g : A -> list B) (keys : list A) :
  (forall k, k ∈ keys -> sublist (f k) (g k)) -> sublist (keys ≫= f) (keys ≫= g).
Proof.
  induction keys as [|k keys IH]; intros Hf; [constructor|].
  rewrite !bind_cons. apply sublist_app; [apply Hf; by left|].
  apply IH. intros k' Hk'. apply Hf. by right.
Qed.

Lemma iter_empty (iter : gset string -> list string) : iter_ok iter -> iter ∅ = [].
Proof.
  intros Hiter. destruct (iter ∅) as [|k l] eqn:E; [reflexivity|].
  exfalso. apply (not_elem_of_empty (C := gset string) k).
  apply (Hiter ∅). rewrite E. by left.
Qed.

Lemma checked_quantity (int_pos pb_pos : Position) :
  sublist (map key_and_type (added (check_quantity int_pos pb_pos)))
          [ (pos_key int_pos, "Quantity Mismatch") ].
Proof.
  pose proof (added_check_quantity int_pos pb_pos) as H.
  pose proof (added_check_quantity_length int_pos pb_pos) as Hlen.
  destruct (added (check_quantity int_pos pb_pos)) as [|b [|? ?]];
    [apply sublist_nil_l | | simpl in Hlen; lia].
  destruct (H b) as (Hty & Hs & Ha & _); [by left|].
  simpl. unfold key_and_type, break_key, pos_key. by rewrite Hty, Hs, Ha.
Qed.

Lemma checked_price (int_pos pb_pos : Position) :
  sublist (map key_and_type (added (check_price int_pos pb_pos)))
          [ (pos_key int_pos, "Price Mismatch") ].
Proof.
  pose proof (added_check_price int_pos pb_pos) as H.
  pose proof (added_check_price_length int_pos pb_pos) as Hlen.
  destruct (added (check_price int_pos pb_pos)) as [|b [|? ?]];
    [apply sublist_nil_l | | simpl in Hlen; lia].
  destruct (H b) as (Hty & Hs & Ha & _); [by left|].
  simpl. unfold key_and_type, break_key, pos_key. by rewrite Hty, Hs, Ha.
Qed.

Lemma checked_market_value (int_pos pb_pos : Position) :
  sublist (map key_and_type (added (check_market_value int_pos pb_pos)))
          [ (pos_key int_pos, "Market Value Mismatch") ].
Proof.
  pose proof (added_check_market_value int_pos pb_pos) as H.
  pose proof (added_check_market_value_length int_pos pb_pos) as Hlen.
  destruct (added (check_market_value int_pos pb_pos)) as [|b [|? ?]];
    [apply sublist_nil_l | | simpl in Hlen; lia].
  destruct (H b) as (Hty & Hs & Ha & _); [by left|].
  simpl. unfold key_and_type, break_key, pos_key. by rewrite Hty, Hs, Ha.
Qed.

Section EngineLayout.

Variable iter : gset string -> list string.
Hypothesis iter_spec : iter_ok iter.
Variables internal_df pb_df : DataFrame.

(** The result is three blocks: the missing in target breaks, the
    missing in source breaks, the breaks of the matched pairs. *)
Lemma detect_layout :
  let internal_keys : gset string := list_to_set (key_column internal_df) in
  let pb_keys : gset string := list_to_set (key_column pb_df) in
  exists mt ms matched,
    detect iter internal_df pb_df = mt ++ ms ++ matched /\
    length mt = size (internal_keys ∖ pb_keys) /\
    length ms = size (pb_keys ∖ internal_keys) /\
    (length matched <= 3 * size (internal_keys ∩ pb_keys))%nat /\
    (forall b, b ∈ mt -> break_type b = "Missing in Target") /\
    (forall b, b ∈ ms -> break_type b = "Missing in Source") /\
    (forall b, b ∈ matched ->
       break_type b = "Quantity Mismatch" \/ break_type b = "Price Mismatch" \/
       break_type b = "Market Value Mismatch").
Proof.
  intros internal_keys pb_keys. unfold detect. fold internal_keys pb_keys.
  unfold internal_keys, pb_keys.
  set (A := iter _ ≫= emit (missing_in_target_step (keyed internal_df))).
  set (B := iter _ ≫= emit (missing_in_source_step (keyed pb_df))).
  set (C := iter _ ≫= emit (matched_step (keyed internal_df) (keyed pb_df))).
  rewrite !number_app.
  exists (number 0 A), (number (0 + length A) B), (number (0 + length A + length B) C).
  split; [reflexivity|]. rewrite !length_number.
  split; [|split; [|split; [|split; [|split]]]].
  - unfold A. rewrite length_bind_one; [by apply iter_length|].
    intros k Hk. apply iter_spec, elem_of_difference in Hk as [Hk _].
    apply elem_of_list_to_set, first_row_in in Hk as [pos Hpos].
    destruct (missing_in_target_emit _ _ _ Hpos) as (b & -> & _). done.
  - unfold B. rewrite length_bind_one; [by apply iter_length|].
    intros k Hk. apply iter_spec, elem_of_difference in Hk as [Hk _].
    apply elem_of_list_to_set, first_row_in in Hk as [pos Hpos].
    destruct (missing_in_source_emit _ _ _ Hpos) as (b & -> & _). done.
  - unfold C. rewrite <- (iter_length iter _ iter_spec).
    apply length_bind_le. intros k. apply matched_emit_length.
  - apply number_type.
    + intros b b' Hc. apply content_fields in Hc as (-> & _). done.
    + intros b0 (k & Hb & Hk)%list_elem_of_bind.
      apply iter_spec, elem_of_difference in Hk as [Hk _].
      apply elem_of_list_to_set, first_row_in in Hk as [pos Hpos].
      destruct (missing_in_target_emit _ _ _ Hpos) as (b & Hb' & Hty & _).
      rewrite Hb' in Hb. by apply list_elem_of_singleton in Hb as ->.
  - apply number_type.
    + intros b b' Hc. apply content_fields in Hc as (-> & _). done.
    + intros b0 (k & Hb & Hk)%list_elem_of_bind.
      apply iter_spec, elem_of_difference in Hk as [Hk _].
      apply elem_of_list_to_set, first_row_in in Hk as [pos Hpos].
      destruct (missing_in_source_emit _ _ _ Hpos) as (b & Hb' & Hty & _).
      rewrite Hb' in Hb. by apply list_elem_of_singleton in Hb as ->.
  - apply number_type.
    + intros b b' Hc. apply content_fields in Hc as (-> & _). done.
    + intros b0 (k & Hb & Hk)%list_elem_of_bind.
      apply iter_spec, elem_of_intersection in Hk as [Hk1 Hk2].
      rewrite elem_of_list_to_set in Hk1, Hk2.
      destruct (emitted_matched_inv _ _ _ _ Hk1 Hk2 Hb)
        as (? & ? & _ & _ & [[Hty _] | [[Hty _] | [Hty _]]]); tauto.
Qed.

(** The keys of the first two blocks are the keys of one snapshot only,
    in the order of the walk; the keys and types of the third block are
    taken, in order, from the three checks of each matched key. *)
Lemma detect_blocks :
  let internal_keys : gset string := list_to_set (key_column internal_df) in
  let pb_keys : gset string := list_to_set (key_column pb_df) in
  exists mt ms matched,
    detect iter internal_df pb_df = mt ++ ms ++ matched /\
    map break_key mt = iter (internal_keys ∖ pb_keys) /\
    (forall b, b ∈ mt -> break_type b = "Missing in Target") /\
    map break_key ms = iter (pb_keys ∖ internal_keys) /\
    (forall b, b ∈ ms -> break_type b = "Missing in Source") /\
    sublist (map key_and_type matched) (iter (internal_keys ∩ pb_keys) ≫= checks_of_key).
Proof.
  intros internal_keys pb_keys. unfold detect. fold internal_keys pb_keys.
  unfold internal_keys, pb_keys.
  set (A := iter _ ≫= emit (missing_in_target_step (keyed internal_df))).
  set (B := iter _ ≫= emit (missing_in_source_step (keyed pb_df))).
  set (C := iter _ ≫= emit (matched_step (keyed internal_df) (keyed pb_df))).
  rewrite !number_app.
  exists (number 0 A), (number (0 + length A) B), (number (0 + length A + length B) C).
  split; [reflexivity|].
  split; [|split; [|split; [|split]]].
  - rewrite map_number by done. unfold A. apply map_bind_one.
    intros k Hk. apply iter_spec, elem_of_difference in Hk as [Hk _].
    apply elem_of_list_to_set, first_row_in in Hk as [pos Hpos].
    destruct (missing_in_target_emit _ _ _ Hpos) as (b & -> & _ & Hs & Ha & _).
    simpl. unfold break_key. rewrite Hs, Ha. by apply first_row_key in Hpos as [<- _].
  - apply number_type.
    + intros b b' Hc. apply content_fields in Hc as (-> & _). done.
    + intros b0 (k & Hb & Hk)%list_elem_of_bind.
      apply iter_spec, elem_of_difference in Hk as [Hk _].
      apply elem_of_list_to_set, first_row_in in Hk as [pos Hpos].
      destruct (missing_in_target_emit _ _ _ Hpos) as (b & Hb' & Hty & _).
      rewrite Hb' in Hb. by apply list_elem_of_singleton in Hb as ->.
  - rewrite map_number by done. unfold B. apply map_bind_one.
    intros k Hk. apply iter_spec, elem_of_difference in Hk as [Hk _].
    apply elem_of_list_to_set, first_row_in in Hk as [pos Hpos].
    destruct (missing_in_source_emit _ _ _ Hpos) as (b & -> & _ & Hs & Ha & _).
    simpl. unfold break_key. rewrite Hs, Ha. by apply first_row_key in Hpos as [<- _].
  - apply number_type.
    + intros b b' Hc. apply content_fields in Hc as (-> & _). done.
    + intros b0 (k & Hb & Hk)%list_elem_of_bind.
      apply iter_spec, elem_of_difference in Hk as [Hk _].
      apply elem_of_list_to_set, first_row_in in Hk as [pos Hpos].
      destruct (missing_in_source_emit _ _ _ Hpos) as (b & Hb' & Hty & _).
      rewrite Hb' in Hb. by apply list_elem_of_singleton in Hb as ->.
  - rewrite map_number by done. unfold C.
    rewrite map_bind. apply sublist_bind. intros k Hk.
    apply iter_spec, elem_of_intersection in Hk as [Hk1 Hk2].
    rewrite elem_of_list_to_set in Hk1, Hk2.
    apply first_row_in in Hk1 as [int_pos Hi]. apply first_row_in in Hk2 as [pb_pos Hp].
    rewrite (matched_emit _ _ _ _ _ Hi Hp), map_number by done.
    apply first_row_key in Hi as [<- _].
    rewrite !map_app. unfold checks_of_key.
    apply (sublist_app _ [_] _ [_; _]); [apply checked_quantity|].
    apply (sublist_app _ [_] _ [_]); [apply checked_price | apply checked_market_value].
Qed.

(** Where a break of a key of both snapshots comes from, and back. *)
Lemma detect_matched_origin (key : string) (int_pos pb_pos : Position) (b : Break) :
  first_row internal_df key = Some int_pos ->
  first_row pb_df key = Some pb_pos ->
  b ∈ detect iter internal_df pb_df ->
  break_key b = key ->
  exists b1, content b = content b1 /\
    (b1 ∈ added (check_quantity int_pos pb_pos) \/
     b1 ∈ added (check_price int_pos pb_pos) \/
     b1 ∈ added (check_market_value int_pos pb_pos)).
Proof.
  intros Hi Hp (key' & b0 & Hem & Hc)%(detect_emitted iter iter_spec) Hk.
  destruct (content_fields _ _ Hc) as (_ & _ & _ & _ & _ & _ & _ & _ & _ & Hbk).
  rewrite Hbk, (emitted_break_key _ _ _ _ Hem) in Hk. subst key'.
  pose proof (first_row_column _ _ _ Hi) as H1.
  pose proof (first_row_column _ _ _ Hp) as H2.
  pose proof (emitted_matched _ _ _ _ Hem H1 H2) as Hb0.
  destruct (matched_emit_1 _ _ _ _ _ _ Hi Hp Hb0) as (b1 & Hc1 & Hb1).
  exists b1. split; [congruence | done].
Qed.

Lemma matched_added_detect (key : string) (int_pos pb_pos : Position) (b1 : Break) :
  first_row internal_df key = Some int_pos ->
  first_row pb_df key = Some pb_pos ->
  b1 ∈ added (check_quantity int_pos pb_pos) \/
  b1 ∈ added (check_price int_pos pb_pos) \/
  b1 ∈ added (check_market_value int_pos pb_pos) ->
  exists b, b ∈ detect iter internal_df pb_df /\ content b = content b1 /\ break_key b = key.
Proof.
  intros Hi Hp Hb1.
  pose proof (first_row_column _ _ _ Hi) as Hk1.
  pose proof (first_row_column _ _ _ Hp) as Hk2.
  destruct (matched_emit_2 _ _ key _ _ b1 Hi Hp Hb1) as (b0 & Hb0 & Hc0).
  assert (emitted internal_df pb_df key b0) as Hem by (right; right; done).
  destruct (emitted_detect iter iter_spec _ _ _ _ Hem) as (b & Hb & Hc).
  exists b. split; [done|]. split; [congruence|].
  destruct (content_fields _ _ Hc) as (_ & _ & _ & _ & _ & _ & _ & _ & _ & ->).
  by apply (emitted_break_key internal_df pb_df).
Qed.

End EngineLayout.

Lemma filter_key_bind (f : string -> list Break) (keys : list string) (key : string) :
  NoDup keys ->
  (forall k b, k ∈ keys -> b ∈ f k -> break_key b = k) ->
  filter (fun b => break_key b = key) (keys ≫= f) = if decide (key ∈ keys) then f key else [].
Proof.
  intros Hnd Hf. destruct (decide (key ∈ keys)) as [Hin|Hout].
  - apply filter_bind_one; [done | done | |].
    + intros b Hb. by apply Hf.
    + intros k b Hk Hne Hb Hbk. apply Hne. rewrite <- Hbk. symmetry. by apply Hf.
  - apply filter_none. intros b (k & Hb & Hk)%list_elem_of_bind Hbk.
    apply Hout. rewrite <- Hbk. by rewrite (Hf k b Hk Hb).
Qed.

Lemma severity_value_cases (s : Severity) :
  Severity_value s = "CRITICAL" \/ Severity_value s = "HIGH" \/
  Severity_value s = "MEDIUM" \/ Severity_value s = "LOW".
Proof. destruct s; simpl; tauto. Qed.

Lemma detect_rows_only (iter : gset string -> list string) (df1 df1' df2 df2' : DataFrame) :
  df_rows df1 = df_rows df1' -> df_rows df2 = df_rows df2' ->
  detect iter df1 df2 = detect iter df1' df2'.
Proof.
  intros H1 H2. unfold detect, keyed, set_pos_key, key_column. by rewrite H1, H2.
Qed.

Section EngineExtras.

Variable iter : gset string -> list string.
Hypothesis iter_spec : iter_ok iter.
Variables internal_df pb_df : ref.
Variable h : heap.

(** For a matched pair a Quantity Mismatch break is emitted exactly
    when abs(qty_var_pct) > 1, where qty_var is the source quantity
    minus the target one in 64-bit integer arithmetic and qty_var_pct is
    float(qty_var) / float(source quantity) * 100 (0 when the source
    quantity is 0).  The break carries the two quantities, qty_var as
    variance, the percentage rounded to two places as numpy rounds
    (times 100, nearest integer, divided by 100), and the severity of
    the dollar impact abs(qty_var * source price) with the unrounded
    percentage. *)
Theorem quantity_break_iff (key : string) (int_pos pb_pos : Position) :
  first_row (h internal_df) key = Some int_pos ->
  first_row (h pb_df) key = Some pb_pos ->
  let var := wrap64 (quantity int_pos - quantity pb_pos) in
  let pct :=
    if (quantity int_pos =? 0)%Z then 0
    else fmul (fdiv (of_int var) (of_int (quantity int_pos))) 100 in
  qty_var int_pos pb_pos = var /\
  qty_var_pct int_pos pb_pos = Ok pct /\
  exists breaks,
    breaks_of (reconcile_positions iter internal_df pb_df h) = Ok breaks /\
    ((exists b, b ∈ breaks /\ break_type b = "Quantity Mismatch" /\ break_key b = key)
     <-> 1 < Qabs pct) /\
    (forall b, b ∈ breaks -> break_type b = "Quantity Mismatch" -> break_key b = key ->
       internal_value b = inject_Z (quantity int_pos) /\
       pb_value b = inject_Z (quantity pb_pos) /\
       variance b = inject_Z var /\
       variance_pct b = fdiv (rint (fmul pct 100)) 100 /\
       severity b = Severity_value
         (calculate_severity (Qabs (fmul (of_int var) (price int_pos))) pct)).
Proof.
  intros Hi Hp var pct.
  split; [reflexivity|]. split; [apply qty_var_pct_ok|].
  exists (detect iter (h internal_df) (h pb_df)).
  split; [by apply reconcile_positions_detect|].
  split; [split|].
  - intros (b & Hb & Hty & Hk).
    destruct (detect_matched_inv iter iter_spec _ _ _ _ _ _ _ Hi Hp Hb Hk)
      as [(_ & pct' & Hpct & Hlt) | [(Hty' & _) | (Hty' & _)]]; [|congruence|congruence].
    rewrite qty_var_pct_ok in Hpct. by injection Hpct as <-.
  - intros Hlt.
    destruct (check_quantity_emits _ _ _ (qty_var_pct_ok int_pos pb_pos) Hlt) as [b1 Hb1].
    destruct (matched_added_detect iter iter_spec _ _ key _ _ b1 Hi Hp) as (b & Hb & Hc & Hk);
      [by left|].
    exists b. split; [done|]. split; [|done].
    destruct (content_fields _ _ Hc) as (-> & _).
    by apply added_check_quantity in Hb1 as (-> & _).
  - intros b Hb Hty Hk.
    destruct (detect_matched_origin iter iter_spec _ _ _ _ _ _ Hi Hp Hb Hk) as (b1 & Hc & Hb1).
    destruct (content_fields _ _ Hc) as (Hty' & -> & _ & _ & -> & -> & -> & -> & _).
    rewrite Hty' in Hty.
    destruct Hb1 as [Hb1 | [Hb1 | Hb1]].
    + apply added_check_quantity_fields in Hb1 as (pct' & Hpct & Hrest).
      rewrite qty_var_pct_ok in Hpct. injection Hpct as <-. exact Hrest.
    + apply added_check_price in Hb1 as (Hty'' & _). congruence.
    + apply added_check_market_value in Hb1 as (Hty'' & _). congruence.
Qed.

(** For a matched pair a Price Mismatch break is emitted exactly when
    abs(price_var_pct) > 0.1 (the float nearest to 0.1), where price_var
    is the source price minus the target one and price_var_pct is
    price_var / source price * 100 (0 when the source price is 0), each
    operation rounded as Python floats are.  The break carries the two
    prices, the difference and the percentage each rounded to two
    places as numpy rounds (times 100, nearest integer, divided by
    100), and the severity of the dollar impact
    abs(price_var * source quantity) with the unrounded percentage. *)
Theorem price_break_iff (key : string) (int_pos pb_pos : Position) :
  first_row (h internal_df) key = Some int_pos ->
  first_row (h pb_df) key = Some pb_pos ->
  let var := fsub (price int_pos) (price pb_pos) in
  let pct :=
    if Qeq_bool (price int_pos) 0 then 0
    else fmul (fdiv var (price int_pos)) 100 in
  price_var int_pos pb_pos = var /\
  price_var_pct int_pos pb_pos = Ok pct /\
  exists breaks,
    breaks_of (reconcile_positions iter internal_df pb_df h) = Ok breaks /\
    ((exists b, b ∈ breaks /\ break_type b = "Price Mismatch" /\ break_key b = key)
     <-> binary64 (1 # 10) < Qabs pct) /\
    (forall b, b ∈ breaks -> break_type b = "Price Mismatch" -> break_key b = key ->
       internal_value b = price int_pos /\
       pb_value b = price pb_pos /\
       variance b = fdiv (rint (fmul var 100)) 100 /\
       variance_pct b = fdiv (rint (fmul pct 100)) 100 /\
       severity b = Severity_value
         (calculate_severity (Qabs (fmul var (of_int (quantity int_pos)))) pct)).
Proof.
  intros Hi Hp var pct.
  split; [reflexivity|]. split; [apply price_var_pct_ok|].
  exists (detect iter (h internal_df) (h pb_df)).
  split; [by apply reconcile_positions_detect|].
  split; [split|].
  - intros (b & Hb & Hty & Hk).
    destruct (detect_matched_inv iter iter_spec _ _ _ _ _ _ _ Hi Hp Hb Hk)
      as [(Hty' & _) | [(_ & pct' & Hpct & Hlt) | (Hty' & _)]]; [congruence| |congruence].
    rewrite price_var_pct_ok in Hpct. by injection Hpct as <-.
  - intros Hlt.
    destruct (check_price_emits _ _ _ (price_var_pct_ok int_pos pb_pos) Hlt) as [b1 Hb1].
    destruct (matched_added_detect iter iter_spec _ _ key _ _ b1 Hi Hp) as (b & Hb & Hc & Hk);
      [by right; left|].
    exists b. split; [done|]. split; [|done].
    destruct (content_fields _ _ Hc) as (-> & _).
    by apply added_check_price in Hb1 as (-> & _).
  - intros b Hb Hty Hk.
    destruct (detect_matched_origin iter iter_spec _ _ _ _ _ _ Hi Hp Hb Hk) as (b1 & Hc & Hb1).
    destruct (content_fields _ _ Hc) as (Hty' & -> & _ & _ & -> & -> & -> & -> & _).
    rewrite Hty' in Hty.
    destruct Hb1 as [Hb1 | [Hb1 | Hb1]].
    + apply added_check_quantity in Hb1 as (Hty'' & _). congruence.
    + apply added_check_price_fields in Hb1 as (pct' & Hpct & Hrest).
      rewrite price_var_pct_ok in Hpct. injection Hpct as <-. exact Hrest.
    + apply added_check_market_value in Hb1 as (Hty'' & _). congruence.
Qed.

(** No key has more than three breaks; a key of one snapshot only has
    exactly one, a key of neither has none. *)
Theorem breaks_per_key :
  exists breaks,
    breaks_of (reconcile_positions iter internal_df pb_df h) = Ok breaks /\
    forall key,
      let n := length (filter (fun b => break_key b = key) breaks) in
      (n <= 3)%nat /\
      (key ∈ key_column (h internal_df) -> key ∉ key_column (h pb_df) -> n = 1%nat) /\
      (key ∈ key_column (h pb_df) -> key ∉ key_column (h internal_df) -> n = 1%nat) /\
      (key ∉ key_column (h internal_df) -> key ∉ key_column (h pb_df) -> n = 0%nat).
Proof.
  exists (detect iter (h internal_df) (h pb_df)).
  split; [by apply reconcile_positions_detect|]. intros key n.
  assert (n = length (filter (fun b => break_key b = key)
               ((iter (list_to_set (key_column (h internal_df))
                        ∖ list_to_set (key_column (h pb_df)))
                   ≫= emit (missing_in_target_step (keyed (h internal_df))))
                ++ (iter (list_to_set (key_column (h pb_df))
                           ∖ list_to_set (key_column (h internal_df)))
                      ≫= emit (missing_in_source_step (keyed (h pb_df))))
                ++ (iter (list_to_set (key_column (h internal_df))
                           ∩ list_to_set (key_column (h pb_df)))
                      ≫= emit (matched_step (keyed (h internal_df)) (keyed (h pb_df))))))) as ->.
  { unfold n, detect.
    rewrite <- (length_fmap content (filter _ (number _ _))), filter_number.
    - by rewrite length_fmap.
    - intros b b' Hc <-. by destruct (content_fields _ _ Hc) as (_ & _ & _ & _ & _ & _ & _ & _ & _ & ->). }
  rewrite !filter_app, !length_app.
  rewrite !filter_key_bind; try apply iter_spec.
  2:{ intros k b Hk Hb. apply (emitted_break_key (h internal_df) (h pb_df)).
      apply iter_spec, elem_of_intersection in Hk as [Hk1 Hk2].
      rewrite elem_of_list_to_set in Hk1, Hk2. right. by right. }
  2:{ intros k b Hk Hb. apply (emitted_break_key (h internal_df) (h pb_df)).
      apply iter_spec, elem_of_difference in Hk as [Hk1 Hk2].
      rewrite elem_of_list_to_set in Hk1, Hk2. right. by left. }
  2:{ intros k b Hk Hb. apply (emitted_break_key (h internal_df) (h pb_df)).
      apply iter_spec, elem_of_difference in Hk as [Hk1 Hk2].
      rewrite elem_of_list_to_set in Hk1, Hk2. by left. }
  pose proof (matched_emit_length (h internal_df) (h pb_df) key) as H3.
  assert (key ∈ key_column (h internal_df) ->
          length (emit (missing_in_target_step (keyed (h internal_df))) key) = 1%nat) as HA.
  { intros [pos Hpos]%first_row_in.
    by destruct (missing_in_target_emit _ _ _ Hpos) as (b & -> & _). }
  assert (key ∈ key_column (h pb_df) ->
          length (emit (missing_in_source_step (keyed (h pb_df))) key) = 1%nat) as HB.
  { intros [pos Hpos]%first_row_in.
    by destruct (missing_in_source_emit _ _ _ Hpos) as (b & -> & _). }
  pose proof (proj2 (iter_spec (list_to_set (key_column (h internal_df))
                                 ∖ list_to_set (key_column (h pb_df)))) key) as Emt.
  pose proof (proj2 (iter_spec (list_to_set (key_column (h pb_df))
                                 ∖ list_to_set (key_column (h internal_df)))) key) as Ems.
  pose proof (proj2 (iter_spec (list_to_set (key_column (h internal_df))
                                 ∩ list_to_set (key_column (h pb_df)))) key) as Ec.
  rewrite elem_of_difference, !elem_of_list_to_set in Emt, Ems.
  rewrite elem_of_intersection, !elem_of_list_to_set in Ec.
  repeat case_decide; simpl; split_and!; intros;
    first [ lia | exfalso; tauto | rewrite ?HA, ?HB by tauto; simpl; lia ].
Qed.

(** The list is laid out in three blocks.  The first holds one Missing
    in Target break for each key of the source only, in the order in
    which the keys are walked; the second one Missing in Source break
    for each key of the target only; the third the breaks of the
    matched keys, key after key in the order of the walk, for each key
    at most one Quantity, one Price and one Market Value Mismatch, in
    this order.  Identifiers follow the position in the list, so the
    first block has the lowest ones. *)
Theorem break_list_layout :
  let internal_keys : gset string := list_to_set (key_column (h internal_df)) in
  let pb_keys : gset string := list_to_set (key_column (h pb_df)) in
  exists mt ms matched,
    breaks_of (reconcile_positions iter internal_df pb_df h) = Ok (mt ++ ms ++ matched) /\
    map break_key mt = iter (internal_keys ∖ pb_keys) /\
    (forall b, b ∈ mt -> break_type b = "Missing in Target") /\
    map break_key ms = iter (pb_keys ∖ internal_keys) /\
    (forall b, b ∈ ms -> break_type b = "Missing in Source") /\
    sublist (map (fun b => (break_key b, break_type b)) matched)
            (iter (internal_keys ∩ pb_keys) ≫= fun key =>
               [ (key, "Quantity Mismatch"); (key, "Price Mismatch");
                 (key, "Market Value Mismatch") ]) /\
    length mt = size (internal_keys ∖ pb_keys) /\
    length ms = size (pb_keys ∖ internal_keys) /\
    (length matched <= 3 * size (internal_keys ∩ pb_keys))%nat /\
    (forall (i : nat) (b : Break), (mt ++ ms ++ matched) !! i = Some b ->
       break_id b = "BRK-" +:+ format_04d (N.of_nat (i + 1))).
Proof.
  intros internal_keys pb_keys.
  destruct (detect_blocks iter iter_spec (h internal_df) (h pb_df))
    as (mt & ms & matched & Heq & Kmt & Tmt & Kms & Tms & Km).
  exists mt, ms, matched.
  split; [rewrite reconcile_positions_detect by done; by rewrite Heq|].
  split; [exact Kmt|]. split; [exact Tmt|]. split; [exact Kms|]. split; [exact Tms|].
  split; [exact Km|].
  split; [rewrite <- (length_map break_key), Kmt; by apply iter_length|].
  split; [rewrite <- (length_map break_key), Kms; by apply iter_length|].
  split.
  - apply sublist_length in Km. rewrite length_map in Km.
    etransitivity; [exact Km|].
    rewrite <- (iter_length iter _ iter_spec).
    apply (length_bind_le checks_of_key). intros k. simpl. lia.
  - intros i b Hb. rewrite <- Heq in Hb. unfold detect in Hb. by apply number_lookup in Hb.
Qed.

(** A Market Value Mismatch break is never LOW: it is emitted only
    when the percentage exceeds 2, which is at least MEDIUM. *)
Theorem market_value_break_never_low :
  exists breaks,
    breaks_of (reconcile_positions iter internal_df pb_df h) = Ok breaks /\
    forall b, b ∈ breaks -> break_type b = "Market Value Mismatch" ->
      severity b = "CRITICAL" \/ severity b = "HIGH" \/ severity b = "MEDIUM".
Proof.
  exists (detect iter (h internal_df) (h pb_df)).
  split; [by apply reconcile_positions_detect|].
  intros b Hb Hty.
  destruct (detect_emitted iter iter_spec _ _ _ Hb) as (key & b0 & Hem & Hc).
  destruct (content_fields _ _ Hc) as (Hty' & _ & _ & _ & _ & _ & _ & _ & _ & Hk).
  rewrite (emitted_break_key _ _ _ _ Hem) in Hk.
  assert (key ∈ key_column (h internal_df) /\ key ∈ key_column (h pb_df)) as [H1 H2].
  { destruct Hem as [(H1 & H2 & Hb0) | [(H1 & H2 & Hb0) | (H1 & H2 & Hb0)]]; [| |done].
    - destruct (first_row_in _ _ H1) as [pos Hpos].
      destruct (missing_in_target_emit _ _ _ Hpos) as (b' & Hb' & Hty'' & _).
      rewrite Hb' in Hb0. apply list_elem_of_singleton in Hb0 as ->. congruence.
    - destruct (first_row_in _ _ H1) as [pos Hpos].
      destruct (missing_in_source_emit _ _ _ Hpos) as (b' & Hb' & Hty'' & _).
      rewrite Hb' in Hb0. apply list_elem_of_singleton in Hb0 as ->. congruence. }
  destruct (first_row_in _ _ H1) as [int_pos Hi].
  destruct (first_row_in _ _ H2) as [pb_pos Hp].
  destruct (detect_matched_origin iter iter_spec _ _ _ _ _ _ Hi Hp Hb Hk) as (b1 & Hc1 & Hb1).
  destruct (content_fields _ _ Hc1) as (Hty1 & -> & _). rewrite Hty1 in Hty.
  destruct Hb1 as [Hb1 | [Hb1 | Hb1]].
  - apply added_check_quantity in Hb1 as (Hty'' & _). congruence.
  - apply added_check_price in Hb1 as (Hty'' & _). congruence.
  - apply added_check_market_value_fields in Hb1 as (pct & _ & Hlt & _ & _ & _ & _ & ->).
    unfold calculate_severity. cbv zeta.
    destruct (Qgt_bool _ 100000 || Qgt_bool _ 10); [by left|].
    destruct (Qgt_bool _ 50000 || Qgt_bool _ 5); [right; by left|].
    apply Qgt_bool_true in Hlt. rewrite Hlt, orb_true_r. right. by right.
Qed.

(** When the source snapshot has its columns but no rows, the result
    is exactly one Missing in Source break for each distinct key of the
    target, in the order in which the keys are walked, and nothing
    else; when the target has no rows it is exactly one Missing in
    Target break for each distinct key of the source. *)
Theorem empty_snapshot :
  (df_rows (h internal_df) = [] ->
   exists breaks,
     breaks_of (reconcile_positions iter internal_df pb_df h) = Ok breaks /\
     map break_key breaks = iter (list_to_set (key_column (h pb_df))) /\
     NoDup (map break_key breaks) /\
     (forall key, key ∈ map break_key breaks <-> key ∈ key_column (h pb_df)) /\
     (forall b, b ∈ breaks -> break_type b = "Missing in Source") /\
     length breaks = size (list_to_set (key_column (h pb_df)) : gset string)) /\
  (df_rows (h pb_df) = [] ->
   exists breaks,
     breaks_of (reconcile_positions iter internal_df pb_df h) = Ok breaks /\
     map break_key breaks = iter (list_to_set (key_column (h internal_df))) /\
     NoDup (map break_key breaks) /\
     (forall key, key ∈ map break_key breaks <-> key ∈ key_column (h internal_df)) /\
     (forall b, b ∈ breaks -> break_type b = "Missing in Target") /\
     length breaks = size (list_to_set (key_column (h internal_df)) : gset string)).
Proof.
  split; intros Hrows;
    destruct (detect_blocks iter iter_spec (h internal_df) (h pb_df))
      as (mt & ms & matched & Heq & Kmt & Tmt & Kms & Tms & Km);
    exists (detect iter (h internal_df) (h pb_df));
    (split; [by apply reconcile_positions_detect|]);
    unfold key_column in Kmt, Kms, Km |- *; rewrite Hrows in Kmt, Kms, Km;
    simpl in Kmt, Kms, Km.
  - rewrite empty_difference_L, (iter_empty iter iter_spec) in Kmt.
    match type of Km with context [iter ?S] =>
      assert (S = ∅) as E
        by (apply set_eq; intros k; rewrite elem_of_intersection, elem_of_empty; tauto);
      rewrite E, (iter_empty iter iter_spec) in Km end.
    rewrite difference_empty_L in Kms.
    destruct mt; [|discriminate]. apply sublist_nil_r in Km. destruct matched; [|discriminate].
    rewrite Heq, app_nil_r. simpl. rewrite Kms.
    split; [reflexivity|]. split; [apply iter_spec|]. split.
    + intros key. rewrite (proj2 (iter_spec _) key), elem_of_list_to_set. reflexivity.
    + split; [exact Tms|].
      rewrite <- (length_map break_key), Kms. by apply iter_length.
  - rewrite empty_difference_L, (iter_empty iter iter_spec) in Kms.
    match type of Km with context [iter ?S] =>
      assert (S = ∅) as E
        by (apply set_eq; intros k; rewrite elem_of_intersection, elem_of_empty; tauto);
      rewrite E, (iter_empty iter iter_spec) in Km end.
    rewrite difference_empty_L in Kmt.
    destruct ms; [|discriminate]. apply sublist_nil_r in Km. destruct matched; [|discriminate].
    rewrite Heq, !app_nil_r. rewrite Kmt.
    split; [reflexivity|]. split; [apply iter_spec|]. split.
    + intros key. rewrite (proj2 (iter_spec _) key), elem_of_list_to_set. reflexivity.
    + split; [exact Tmt|].
      rewrite <- (length_map break_key), Kmt. by apply iter_length.
Qed.

Lemma detect_describes_position :
  forall b, b ∈ detect iter (h internal_df) (h pb_df) ->
    (exists pos,
       (first_row (h internal_df) (break_key b) = Some pos \/
        (first_row (h internal_df) (break_key b) = None /\
         first_row (h pb_df) (break_key b) = Some pos)) /\
       brk_symbol b = symbol pos /\ brk_account_id b = account_id pos) /\
    (severity b = "CRITICAL" \/ severity b = "HIGH" \/
     severity b = "MEDIUM" \/ severity b = "LOW").
Proof.
  intros b Hb.
  destruct (detect_emitted iter iter_spec _ _ _ Hb) as (key & b0 & Hem & Hc).
  destruct (content_fields _ _ Hc) as (_ & -> & -> & -> & _ & _ & _ & _ & _ & ->).
  rewrite (emitted_break_key _ _ _ _ Hem).
  destruct Hem as [(H1 & H2 & Hb0) | [(H1 & H2 & Hb0) | (H1 & H2 & Hb0)]].
  - destruct (first_row_in _ _ H1) as [pos Hpos].
    destruct (missing_in_target_emit _ _ _ Hpos) as (b' & Hb' & _ & Hs & Ha & _ & _ & _ & _ & Hsev).
    rewrite Hb' in Hb0. apply list_elem_of_singleton in Hb0 as ->.
    split; [exists pos; split; [by left | done]|].
    rewrite Hsev. apply severity_value_cases.
  - destruct (first_row_in _ _ H1) as [pos Hpos].
    destruct (missing_in_source_emit _ _ _ Hpos) as (b' & Hb' & _ & Hs & Ha & _ & _ & _ & _ & Hsev).
    rewrite Hb' in Hb0. apply list_elem_of_singleton in Hb0 as ->.
    split; [exists pos; split; [right; split; [by apply first_row_not_in | done] | done]|].
    rewrite Hsev. apply severity_value_cases.
  - destruct (first_row_in _ _ H1) as [int_pos Hi].
    destruct (first_row_in _ _ H2) as [pb_pos Hp].
    destruct (matched_emit_1 _ _ _ _ _ _ Hi Hp Hb0) as (b1 & Hc1 & Hb1).
    destruct (content_fields _ _ Hc1) as (_ & -> & -> & -> & _).
    destruct Hb1 as [Hb1 | [Hb1 | Hb1]].
    + pose proof (added_check_quantity _ _ _ Hb1) as (_ & Hs & Ha & _).
      apply added_check_quantity_fields in Hb1 as (pct & _ & _ & _ & _ & _ & ->).
      split; [exists int_pos; split; [by left | done]|]. apply severity_value_cases.
    + pose proof (added_check_price _ _ _ Hb1) as (_ & Hs & Ha & _).
      apply added_check_price_fields in Hb1 as (pct & _ & _ & _ & _ & _ & ->).
      split; [exists int_pos; split; [by left | done]|]. apply severity_value_cases.
    + pose proof (added_check_market_value _ _ _ Hb1) as (_ & Hs & Ha & _).
      apply added_check_market_value_fields in Hb1 as (pct & _ & _ & _ & _ & _ & _ & ->).
      split; [exists int_pos; split; [by left | done]|]. apply severity_value_cases.
Qed.


(** Every break is about a position of the snapshots: its symbol and
    account_id are those of the first row of its key in the source
    snapshot, or in the target one when the source has no such key; and
    its severity is one of the four tiers. *)
Theorem break_describes_position :
  exists breaks,
    breaks_of (reconcile_positions iter internal_df pb_df h) = Ok breaks /\
    forall b, b ∈ breaks ->
      (exists pos,
         (first_row (h internal_df) (break_key b) = Some pos \/
          (first_row (h internal_df) (break_key b) = None /\
           first_row (h pb_df) (break_key b) = Some pos)) /\
         brk_symbol b = symbol pos /\ brk_account_id b = account_id pos) /\
      (severity b = "CRITICAL" \/ severity b = "HIGH" \/
       severity b = "MEDIUM" \/ severity b = "LOW").
Proof.
  exists (detect iter (h internal_df) (h pb_df)).
  split; [by apply reconcile_positions_detect | apply detect_describes_position].
Qed.

End EngineExtras.

(** ** Iteration order, repeated runs, the key *)

(** The breaks found do not depend on the order in which the key sets
    are walked: two runs that differ in it return the same breaks up to
    their order and their identifiers. *)
Theorem iteration_order_irrelevant
    (iter1 iter2 : gset string -> list string) (internal_df pb_df : ref) (h : heap) :
  iter_ok iter1 -> iter_ok iter2 ->
  exists breaks1 breaks2,
    breaks_of (reconcile_positions iter1 internal_df pb_df h) = Ok breaks1 /\
    breaks_of (reconcile_positions iter2 internal_df pb_df h) = Ok breaks2 /\
    map content breaks1 ≡ₚ map content breaks2 /\
    length breaks1 = length breaks2.
Proof.
  intros H1 H2.
  exists (detect iter1 (h internal_df) (h pb_df)), (detect iter2 (h internal_df) (h pb_df)).
  split; [by apply reconcile_positions_detect|].
  split; [by apply reconcile_positions_detect|].
  assert (forall s, iter1 s ≡ₚ iter2 s) as Hp.
  { intros s. apply NoDup_Permutation; [apply H1 | apply H2 |].
    intros k. rewrite (proj2 (H1 s) k), (proj2 (H2 s) k). done. }
  assert (map content (detect iter1 (h internal_df) (h pb_df))
          ≡ₚ map content (detect iter2 (h internal_df) (h pb_df))) as Hperm.
  { unfold detect. rewrite !content_number. apply Permutation_map.
    repeat apply Permutation_app; apply bind_Permutation, Hp. }
  split; [exact Hperm|].
  apply Permutation_length in Hperm. by rewrite !length_map in Hperm.
Qed.

Lemma reverse_elements_iter_ok : iter_ok (fun s => reverse (elements s)).
Proof.
  intros s. split.
  - rewrite reverse_Permutation. apply NoDup_elements.
  - intros k. rewrite elem_of_reverse. apply elem_of_elements.
Qed.

Lemma iteration_order_irrelevant_witness :
  exists breaks1 breaks2,
    breaks_of (reconcile_positions elements 0%nat 1%nat sample_heap) = Ok breaks1 /\
    breaks_of (reconcile_positions (fun s => reverse (elements s)) 0%nat 1%nat sample_heap)
      = Ok breaks2 /\
    map content breaks1 ≡ₚ map content breaks2 /\
    length breaks1 = length breaks2.
Proof.
  apply (iteration_order_irrelevant elements (fun s => reverse (elements s))).
  - apply elements_iter_ok.
  - apply reverse_elements_iter_ok.
Defined.

(** Running the engine again on the collections it has just keyed
    returns the same breaks and changes nothing more. *)
Theorem second_run_same (iter : gset string -> list string) (internal_df pb_df : ref) (h : heap) :
  iter_ok iter ->
  let run1 := reconcile_positions iter internal_df pb_df h in
  let run2 := reconcile_positions iter internal_df pb_df (heap_of run1) in
  breaks_of run2 = breaks_of run1 /\
  (exists breaks, breaks_of run1 = Ok breaks) /\
  forall r, heap_of run2 r = heap_of run1 r.
Proof.
  intros Hiter. cbv zeta.
  rewrite !reconcile_positions_detect by done.
  rewrite heap_after_internal, heap_after_pb.
  split; [reflexivity|]. split; [by eexists|].
  intros r.
  destruct (decide (r = internal_df)) as [->|H1].
  { by rewrite !heap_after_internal. }
  destruct (decide (r = pb_df)) as [->|H2].
  { by rewrite !heap_after_pb. }
  by rewrite !heap_after_other.
Qed.

Lemma second_run_same_witness :
  breaks_of (reconcile_positions elements 0%nat 1%nat
               (heap_of (reconcile_positions elements 0%nat 1%nat sample_heap)))
  = breaks_of (reconcile_positions elements 0%nat 1%nat sample_heap).
Proof.
  apply (second_run_same elements 0%nat 1%nat sample_heap). apply elements_iter_ok.
Defined.

(** A pos_key column that an input already has is overwritten, not
    read: two heaps whose data frames have the same rows give the same
    breaks, whatever their pos_key columns hold. *)
Theorem pos_key_column_not_read
    (iter : gset string -> list string) (internal_df pb_df : ref) (h h' : heap) :
  iter_ok iter ->
  df_rows (h internal_df) = df_rows (h' internal_df) ->
  df_rows (h pb_df) = df_rows (h' pb_df) ->
  breaks_of (reconcile_positions iter internal_df pb_df h)
  = breaks_of (reconcile_positions iter internal_df pb_df h') /\
  exists breaks, breaks_of (reconcile_positions iter internal_df pb_df h) = Ok breaks.
Proof.
  intros Hiter H1 H2. rewrite !reconcile_positions_detect by done.
  split; [|by eexists]. f_equal. by apply detect_rows_only.
Qed.

Lemma pos_key_column_not_read_witness :
  breaks_of (reconcile_positions elements 0%nat 1%nat sample_heap)
  = breaks_of (reconcile_positions elements 0%nat 1%nat
       (fun r => {| df_rows := df_rows (sample_heap r); df_pos_key := Some ["stale"] |})).
Proof.
  apply (pos_key_column_not_read elements 0%nat 1%nat sample_heap
           (fun r => {| df_rows := df_rows (sample_heap r); df_pos_key := Some ["stale"] |}));
    [apply elements_iter_ok | reflexivity | reflexivity].
Defined.

Lemma key_append_inj (s1 s2 a1 a2 : string) :
  no_bar s1 = true -> no_bar s2 = true ->
  (s1 +:+ "|") +:+ a1 = (s2 +:+ "|") +:+ a2 -> s1 = s2 /\ a1 = a2.
Proof.
  revert s2. induction s1 as [|c1 s1 IH]; intros [|c2 s2] H1 H2 Heq; simpl in *.
  - by injection Heq.
  - injection Heq as <- _. by rewrite Ascii.eqb_refl in H2.
  - injection Heq as -> _. by rewrite Ascii.eqb_refl in H1.
  - injection Heq as -> Heq.
    apply andb_true_iff in H1 as [_ H1]. apply andb_true_iff in H2 as [_ H2].
    destruct (IH s2 H1 H2 Heq) as [-> ->]. done.
Qed.

(** When no symbol contains the separator, the key identifies the pair
    (symbol, account_id): two positions have the same key exactly when
    they agree on both. *)
Theorem pos_key_identifies_pair (r1 r2 : Position) :
  no_bar (symbol r1) = true -> no_bar (symbol r2) = true ->
  (pos_key r1 = pos_key r2 <-> symbol r1 = symbol r2 /\ account_id r1 = account_id r2).
Proof.
  intros H1 H2. unfold pos_key. split.
  - by apply key_append_inj.
  - by intros [-> ->].
Qed.

Lemma pos_key_identifies_pair_witness :
  pos_key (position "AAPL" "HEDGE_FUND_01" 10000 100 1000000)
  = pos_key (position "AAPL" "HEDGE_FUND_01" 9400 100 940000).
Proof.
  apply (pos_key_identifies_pair (position "AAPL" "HEDGE_FUND_01" 10000 100 1000000)
           (position "AAPL" "HEDGE_FUND_01" 9400 100 940000)); [reflexivity | reflexivity |].
  split; reflexivity.
Defined.

(** With the separator in a symbol two different pairs can share a key,
    and the engine then treats them as one position. *)
Example pos_key_collision :
  pos_key (position "A|B" "C" 1 1 1) = pos_key (position "A" "B|C" 1 1 1).
Proof. reflexivity. Qed.

(** ** The classifier and signs *)

Lemma tier_inj (s1 s2 : Severity) : tier s1 = tier s2 -> s1 = s2.
Proof. destruct s1, s2; simpl; intros H; congruence. Qed.

Lemma calculate_severity_abs (v v' p p' : Q) :
  Qabs v == Qabs v' -> Qabs p == Qabs p' ->
  calculate_severity v p = calculate_severity v' p'.
Proof.
  intros Hv Hp. apply tier_inj, Nat.le_antisymm.
  - apply calculate_severity_mono; [rewrite Hv | rewrite Hp]; apply Qle_refl.
  - apply calculate_severity_mono; [rewrite Hv | rewrite Hp]; apply Qle_refl.
Qed.

(** The classifier looks at magnitudes only: negating the variance or
    the percentage, or replacing either by an equal number, does not
    change the tier. *)
Theorem calculate_severity_sign (v p : Q) :
  calculate_severity (- v) p = calculate_severity v p /\
  calculate_severity v (- p) = calculate_severity v p /\
  (forall v' p', v == v' -> p == p' -> calculate_severity v p = calculate_severity v' p').
Proof.
  split; [|split].
  - apply calculate_severity_abs; [apply Qabs_opp | reflexivity].
  - apply calculate_severity_abs; [reflexivity | apply Qabs_opp].
  - intros v' p' Hv Hp. apply calculate_severity_abs; [by rewrite Hv | by rewrite Hp].
Qed.

Lemma calculate_severity_sign_witness :
  calculate_severity (120 # 2) 6 = calculate_severity 60 (12 # 2).
Proof.
  apply (proj2 (proj2 (calculate_severity_sign (120 # 2) 6))); reflexivity.
Defined.

(** * Alerts *)

Lemma filter_bool_nil {A : Type} (f : A -> bool) (l : list A) :
  List.filter f l = [] <-> forall x, x ∈ l -> f x = false.
Proof.
  induction l as [|a l IH]; simpl.
  - split; [by intros _ x ?%elem_of_nil | done].
  - destruct (f a) eqn:E.
    + split; [done|]. intros H. specialize (H a (list_elem_of_here _ _)). congruence.
    + rewrite IH. split.
      * intros H x [->|Hx]%elem_of_cons; [done | by apply H].
      * intros H x Hx. apply H. by right.
Qed.

Lemma is_critical_high_true (b : Break) :
  is_critical_high b = true <-> severity b = "CRITICAL" \/ severity b = "HIGH".
Proof. unfold is_critical_high. by rewrite orb_true_iff, !String.eqb_eq. Qed.

Lemma is_critical_high_false (b : Break) :
  is_critical_high b = false <-> severity b <> "CRITICAL" /\ severity b <> "HIGH".
Proof. unfold is_critical_high. by rewrite orb_false_iff, !String.eqb_neq. Qed.

(** The two ways [generate_alerts] can end. *)
Lemma generate_alerts_cases (now : string) (breaks : list Break) :
  (List.filter is_critical_high breaks = [] /\ generate_alerts now breaks = [no_alert_line]) \/
  (List.filter is_critical_high breaks <> [] /\ length (generate_alerts now breaks) = 9%nat).
Proof.
  unfold generate_alerts. destruct (List.filter is_critical_high breaks) as [|b l].
  - by left.
  - right. split; [done | reflexivity].
Qed.

(** Nothing but the single all-clear line is printed exactly when no
    break is CRITICAL or HIGH; otherwise nine items are printed. *)
Theorem generate_alerts_quiet_iff (now : string) (breaks : list Break) :
  (generate_alerts now breaks = [no_alert_line]
   <-> forall b, b ∈ breaks -> severity b <> "CRITICAL" /\ severity b <> "HIGH") /\
  (generate_alerts now breaks <> [no_alert_line] -> length (generate_alerts now breaks) = 9%nat).
Proof.
  destruct (generate_alerts_cases now breaks) as [[Hf Hout] | [Hf Hlen]].
  - split; [|congruence]. split; [|done].
    intros _ b Hb. apply is_critical_high_false. by apply (proj1 (filter_bool_nil _ _) Hf).
  - split; [|done]. split.
    + intros Hout. rewrite Hout in Hlen. discriminate.
    + intros Hall. exfalso. apply Hf. apply filter_bool_nil.
      intros b Hb. apply is_critical_high_false. by apply Hall.
Qed.

Lemma generate_alerts_quiet_iff_witness :
  length (generate_alerts "2024-03-03 10:00:00" [sample_break "BRK-0001" "HIGH" 7]) = 9%nat.
Proof.
  apply (proj2 (generate_alerts_quiet_iff "2024-03-03 10:00:00" [sample_break "BRK-0001" "HIGH" 7])).
  vm_compute. discriminate.
Defined.

(** What is printed depends on the breaks only through the number of
    CRITICAL and HIGH ones and the first ten of them: MEDIUM and LOW
    breaks are never shown, nor any CRITICAL or HIGH one after the
    tenth. *)
Theorem generate_alerts_shows_first_ten (now : string) (breaks breaks' : list Break) :
  length (List.filter is_critical_high breaks) = length (List.filter is_critical_high breaks') ->
  take 10 (List.filter is_critical_high breaks) = take 10 (List.filter is_critical_high breaks') ->
  generate_alerts now breaks = generate_alerts now breaks'.
Proof.
  unfold generate_alerts. intros Hlen Htake.
  destruct (List.filter is_critical_high breaks) as [|b l];
    destruct (List.filter is_critical_high breaks') as [|b' l']; try discriminate; [done|].
  cbv zeta. by rewrite Hlen, Htake.
Qed.

Lemma generate_alerts_shows_first_ten_witness :
  generate_alerts "2024-03-03 10:00:00"
    [ sample_break "BRK-0001" "LOW" 1; sample_break "BRK-0002" "HIGH" 7;
      sample_break "BRK-0003" "MEDIUM" 3 ]
  = generate_alerts "2024-03-03 10:00:00" [ sample_break "BRK-0002" "HIGH" 7 ].
Proof.
  apply generate_alerts_shows_first_ten; reflexivity.
Defined.

Section AlertsOfARun.

Variable iter : gset string -> list string.
Hypothesis iter_spec : iter_ok iter.
Variables internal_df pb_df : ref.
Variable h : heap.

(** A position missing on either side always raises the alert: the
    run's breaks then never print the all-clear line. *)
Theorem missing_position_raises_alert (now key : string) :
  (key ∈ key_column (h internal_df) /\ (key ∉ key_column (h pb_df))) \/
  (key ∈ key_column (h pb_df) /\ (key ∉ key_column (h internal_df))) ->
  exists breaks,
    breaks_of (reconcile_positions iter internal_df pb_df h) = Ok breaks /\
    generate_alerts now breaks <> [no_alert_line] /\
    length (generate_alerts now breaks) = 9%nat.
Proof.
  intros Hkey.
  exists (detect iter (h internal_df) (h pb_df)).
  split; [by apply reconcile_positions_detect|].
  assert (exists b, b ∈ detect iter (h internal_df) (h pb_df) /\ severity b = "CRITICAL")
    as (b & Hb & Hsev).
  { destruct Hkey as [[H1 H2] | [H1 H2]].
    - destruct (first_row_in _ _ H1) as [pos Hpos].
      destruct (missing_in_target_emit _ _ _ Hpos) as (b0 & Hb0 & _ & _ & _ & _ & _ & _ & _ & Hs).
      assert (emitted (h internal_df) (h pb_df) key b0) as Hem.
      { left. rewrite Hb0. split; [done|]. split; [done|]. by left. }
      destruct (emitted_detect iter iter_spec _ _ _ _ Hem) as (b & Hb & Hc).
      exists b. split; [done|].
      destruct (content_fields _ _ Hc) as (_ & -> & _).
      by rewrite Hs, calculate_severity_pct_100.
    - destruct (first_row_in _ _ H1) as [pos Hpos].
      destruct (missing_in_source_emit _ _ _ Hpos) as (b0 & Hb0 & _ & _ & _ & _ & _ & _ & _ & Hs).
      assert (emitted (h internal_df) (h pb_df) key b0) as Hem.
      { right. left. rewrite Hb0. split; [done|]. split; [done|]. by left. }
      destruct (emitted_detect iter iter_spec _ _ _ _ Hem) as (b & Hb & Hc).
      exists b. split; [done|].
      destruct (content_fields _ _ Hc) as (_ & -> & _).
      by rewrite Hs, calculate_severity_pct_100. }
  destruct (generate_alerts_cases now (detect iter (h internal_df) (h pb_df)))
    as [[Hf _] | [_ Hlen]].
  - exfalso. pose proof (proj1 (filter_bool_nil _ _) Hf b Hb) as Hch.
    apply is_critical_high_false in Hch. tauto.
  - split; [|done]. intros Hout. rewrite Hout in Hlen. discriminate.
Qed.

End AlertsOfARun.

Lemma missing_position_raises_alert_witness :
  exists breaks,
    breaks_of (reconcile_positions elements 0%nat 1%nat sample_heap) = Ok breaks /\
    generate_alerts "2024-03-03 10:00:00" breaks <> [no_alert_line] /\
    length (generate_alerts "2024-03-03 10:00:00" breaks) = 9%nat.
Proof.
  apply (missing_position_raises_alert elements elements_iter_ok 0%nat 1%nat sample_heap
           "2024-03-03 10:00:00" "XYZ|HEDGE_FUND_01").
  left. split; compute_done.
Defined.

(** * The figures of the report *)

(** ** Counting dictionaries *)

Lemma dict_get_set {V : Type} (d : list (string * V)) (k k' : string) (v default : V) :
  dict_get (dict_set d k v) k' default = if String.eqb k k' then v else dict_get d k' default.
Proof.
  induction d as [|[k0 v0] d IH]; simpl.
  - reflexivity.
  - destruct (String.eqb_spec k0 k) as [->|Hne]; simpl.
    + by destruct (String.eqb k k').
    + destruct (String.eqb_spec k0 k') as [->|Hne']; [|exact IH].
      destruct (String.eqb_spec k k'); [congruence | reflexivity].
Qed.

Lemma dict_set_keys {V : Type} (d : list (string * V)) (k : string) (v : V) :
  map fst (dict_set d k v) = if bool_decide (k ∈ map fst d) then map fst d else map fst d ++ [k].
Proof.
  induction d as [|[k0 v0] d IH]; simpl; [reflexivity|].
  destruct (String.eqb k0 k) eqn:E0; simpl.
  - apply String.eqb_eq in E0 as ->. rewrite bool_decide_eq_true_2 by left. done.
  - rewrite IH. apply String.eqb_neq in E0.
    destruct (bool_decide (k ∈ map fst d)) eqn:Ed.
    + apply bool_decide_eq_true in Ed. rewrite bool_decide_eq_true_2 by (by right). done.
    + apply bool_decide_eq_false in Ed. rewrite bool_decide_eq_false_2; [done|].
      intros [?|?]%elem_of_cons; [congruence | done].
Qed.

Lemma dict_set_sum (d : list (string * nat)) (k : string) :
  list_sum (map snd (dict_set d k (dict_get d k 0 + 1)%nat)) = S (list_sum (map snd d)).
Proof.
  induction d as [|[k0 v0] d IH]; simpl; [reflexivity|].
  destruct (String.eqb k0 k); simpl; [lia|]. rewrite IH. lia.
Qed.

Lemma first_seen_ext (s1 s2 l : list string) :
  (forall x, x ∈ s1 <-> x ∈ s2) -> first_seen s1 l = first_seen s2 l.
Proof.
  revert s1 s2. induction l as [|x l IH]; intros s1 s2 Hs; simpl; [reflexivity|].
  rewrite (bool_decide_ext (x ∈ s1) (x ∈ s2)) by apply Hs.
  case_bool_decide; [by apply IH|]. f_equal. apply IH.
  intros y. rewrite !elem_of_cons, Hs. reflexivity.
Qed.

(** A dictionary is the list of its keys, each with the value [get] reads. *)
Lemma dict_entries {V : Type} (d : list (string * V)) (default : V) :
  NoDup (map fst d) -> d = map (fun k => (k, dict_get d k default)) (map fst d).
Proof.
  induction d as [|[k v] d IH]; intros Hnd; simpl; [reflexivity|].
  apply NoDup_cons in Hnd as [Hk Hnd].
  rewrite String.eqb_refl. f_equal.
  rewrite (IH Hnd) at 1. apply map_ext_in. intros k' Hk'.
  destruct (String.eqb_spec k k') as [->|Hne]; [|reflexivity].
  exfalso. apply Hk. by apply list_elem_of_In.
Qed.

Section Counting.

Variable field : Break -> string.

Lemma count_loop_get (breaks : list Break) (d : list (string * nat)) (k : string) :
  dict_get (count_loop field breaks d) k 0%nat
  = (dict_get d k 0 + length (List.filter (fun b => String.eqb (field b) k) breaks))%nat.
Proof.
  unfold count_loop. revert d. induction breaks as [|b breaks IH]; intros d; simpl; [lia|].
  rewrite IH, dict_get_set. destruct (String.eqb (field b) k) eqn:E; simpl; [|lia].
  apply String.eqb_eq in E as ->. lia.
Qed.

Lemma count_loop_sum (breaks : list Break) (d : list (string * nat)) :
  list_sum (map snd (count_loop field breaks d)) = (list_sum (map snd d) + length breaks)%nat.
Proof.
  unfold count_loop. revert d. induction breaks as [|b breaks IH]; intros d; simpl; [lia|].
  rewrite IH, dict_set_sum. lia.
Qed.

Lemma count_loop_keys (breaks : list Break) (d : list (string * nat)) :
  NoDup (map fst d) ->
  NoDup (map fst (count_loop field breaks d)) /\
  forall k, k ∈ map fst (count_loop field breaks d) <-> k ∈ map fst d \/ k ∈ map field breaks.
Proof.
  unfold count_loop. revert d. induction breaks as [|b breaks IH]; intros d Hd; simpl.
  - split; [done|]. intros k. rewrite elem_of_nil. tauto.
  - destruct (IH (dict_set d (field b) (dict_get d (field b) 0 + 1)%nat)) as [Hnd Hk].
    { rewrite dict_set_keys. case_bool_decide as Hin; [done|].
      apply NoDup_app. split; [done|]. split; [|apply NoDup_singleton].
      intros k Hk ->%list_elem_of_singleton. done. }
    split; [done|]. intros k. rewrite Hk, dict_set_keys, elem_of_cons.
    case_bool_decide as Hin.
    + split; [tauto|]. intros [?|[->|?]]; tauto.
    + rewrite elem_of_app, list_elem_of_singleton. tauto.
Qed.

Lemma count_loop_key_order (breaks : list Break) (d : list (string * nat)) :
  map fst (count_loop field breaks d)
  = map fst d ++ first_seen (map fst d) (map field breaks).
Proof.
  unfold count_loop. revert d. induction breaks as [|b breaks IH]; intros d; simpl.
  - by rewrite app_nil_r.
  - rewrite IH, dict_set_keys. case_bool_decide as Hin; [done|].
    rewrite <- app_assoc. simpl. do 2 f_equal.
    apply first_seen_ext. intros x. rewrite elem_of_app, !elem_of_cons, elem_of_nil.
    tauto.
Qed.

End Counting.

(** The key order of [type_counts] is the order of first occurrence, and
    each entry holds the number of breaks of its type. *)
Lemma type_counts_entries (breaks : list Break) :
  type_counts breaks
  = map (fun bt => (bt, length (List.filter (fun b => String.eqb (break_type b) bt) breaks)))
        (first_seen [] (map break_type breaks)).
Proof.
  pose proof (count_loop_keys break_type breaks [] (NoDup_nil_2 : NoDup (map fst []))) as [Hnd _].
  pose proof (count_loop_key_order break_type breaks []) as Hkeys. simpl in Hkeys.
  change (count_loop break_type breaks []) with (type_counts breaks) in Hnd, Hkeys.
  rewrite (dict_entries (type_counts breaks) 0%nat Hnd), Hkeys.
  apply map_ext. intros bt. f_equal.
  apply (count_loop_get break_type breaks [] bt).
Qed.

Lemma severity_counts_get (breaks : list Break) (sev : string) :
  dict_get (severity_counts breaks) sev 0%nat
  = length (List.filter (fun b => String.eqb (severity b) sev) breaks).
Proof. apply (count_loop_get severity breaks [] sev). Qed.

(** The two counting dictionaries are right: each severity (type) that
    occurs is a key once, its count is the number of breaks that carry
    it, an absent key reads as 0 through [get], and the counts add up to
    the number of breaks. *)
Theorem report_counts (breaks : list Break) :
  (forall sev, dict_get (severity_counts breaks) sev 0%nat
               = length (List.filter (fun b => String.eqb (severity b) sev) breaks)) /\
  (forall bt, dict_get (type_counts breaks) bt 0%nat
              = length (List.filter (fun b => String.eqb (break_type b) bt) breaks)) /\
  NoDup (map fst (severity_counts breaks)) /\ NoDup (map fst (type_counts breaks)) /\
  (forall sev, sev ∈ map fst (severity_counts breaks) <-> sev ∈ map severity breaks) /\
  (forall bt, bt ∈ map fst (type_counts breaks) <-> bt ∈ map break_type breaks) /\
  list_sum (map snd (severity_counts breaks)) = length breaks /\
  list_sum (map snd (type_counts breaks)) = length breaks.
Proof.
  unfold severity_counts, type_counts.
  pose proof (count_loop_keys severity breaks [] (NoDup_nil_2 : NoDup (map fst []))) as [Hs1 Hs2].
  pose proof (count_loop_keys break_type breaks [] (NoDup_nil_2 : NoDup (map fst []))) as [Ht1 Ht2].
  split; [|split; [|split; [|split; [|split; [|split; [|split]]]]]].
  - intros sev. apply (count_loop_get severity breaks [] sev).
  - intros bt. apply (count_loop_get break_type breaks [] bt).
  - exact Hs1.
  - exact Ht1.
  - intros sev. rewrite (Hs2 sev). simpl. rewrite elem_of_nil. tauto.
  - intros bt. rewrite (Ht2 bt). simpl. rewrite elem_of_nil. tauto.
  - apply (count_loop_sum severity breaks []).
  - apply (count_loop_sum break_type breaks []).
Qed.

(** ** Sorting *)

Section Sorting.

Context {A K : Type}.
Variable lt : K -> K -> bool.
Variable key : A -> K.

(** [lt] is a strict weak order. *)
Hypothesis lt_asym : forall a b, lt a b = true -> lt b a = false.
Hypothesis lt_negtrans : forall a b c, lt a b = false -> lt b c = false -> lt a c = false.

Local Abbreviation before := (key_before lt key).

Lemma sorted_insert_perm (x : A) (l : list A) : sorted_insert lt key x l ≡ₚ x :: l.
Proof.
  induction l as [|y l IH]; simpl; [done|].
  destruct (lt (key x) (key y)); [done|]. rewrite IH. apply Permutation_swap.
Qed.

Lemma sorted_fold_perm (l acc : list A) :
  fold_left (fun acc x => sorted_insert lt key x acc) l acc ≡ₚ acc ++ l.
Proof.
  revert acc. induction l as [|x l IH]; intros acc; simpl; [by rewrite app_nil_r|].
  rewrite IH, sorted_insert_perm. simpl. apply Permutation_middle.
Qed.

Lemma sorted_insert_sorted (x : A) (l : list A) :
  StronglySorted before l -> StronglySorted before (sorted_insert lt key x l).
Proof.
  induction l as [|y l IH]; intros Hl; simpl.
  - repeat constructor.
  - apply StronglySorted_inv in Hl as [Hl Hy].
    destruct (lt (key x) (key y)) eqn:E.
    + constructor; [by constructor|].
      constructor; [by apply lt_asym|].
      eapply Forall_impl; [exact Hy|]. intros z Hz. unfold key_before in *.
      eapply lt_negtrans; [exact Hz | by apply lt_asym].
    + constructor; [by apply IH|].
      rewrite sorted_insert_perm. by constructor.
Qed.

Lemma sorted_fold_sorted (l acc : list A) :
  StronglySorted before acc ->
  StronglySorted before (fold_left (fun acc x => sorted_insert lt key x acc) l acc).
Proof.
  revert acc. induction l as [|x l IH]; intros acc Hacc; simpl; [done|].
  by apply IH, sorted_insert_sorted.
Qed.

Local Abbreviation same_key := (same_key lt key).

Lemma sorted_insert_stable (k : K) (x : A) (l : list A) :
  StronglySorted before l ->
  List.filter (same_key k) (sorted_insert lt key x l)
  = List.filter (same_key k) l ++ (if same_key k x then [x] else []).
Proof.
  induction l as [|y l IH]; intros Hl; simpl.
  - by destruct (same_key k x).
  - apply StronglySorted_inv in Hl as [Hl Hy].
    destruct (lt (key x) (key y)) eqn:E; simpl.
    + destruct (same_key k x) eqn:Ex; [|by rewrite app_nil_r].
      assert (forall z, z ∈ y :: l -> same_key k z = false) as Hnone.
      { intros z Hz. destruct (same_key k z) eqn:Ez; [|done]. exfalso.
        unfold same_key in Ex, Ez.
        apply andb_true_iff in Ex as [Ex1 Ex2]. apply andb_true_iff in Ez as [Ez1 Ez2].
        apply negb_true_iff in Ex1, Ex2, Ez1, Ez2.
        assert (lt (key x) (key z) = false) as Hxz by (by eapply lt_negtrans).
        assert (lt (key z) (key y) = false) as Hzy.
        { apply elem_of_cons in Hz as [->|Hz].
          - destruct (lt (key y) (key y)) eqn:Eyy; [|done]. by rewrite (lt_asym _ _ Eyy) in Eyy.
          - rewrite Forall_forall in Hy. by apply Hy. }
        rewrite (lt_negtrans _ _ _ Hxz Hzy) in E. discriminate. }
      apply filter_bool_nil in Hnone. simpl in Hnone. by rewrite Hnone.
    + rewrite IH by done. by destruct (same_key k y).
Qed.

Lemma sorted_fold_stable (k : K) (l acc : list A) :
  StronglySorted before acc ->
  List.filter (same_key k) (fold_left (fun acc x => sorted_insert lt key x acc) l acc)
  = List.filter (same_key k) acc ++ List.filter (same_key k) l.
Proof.
  revert acc. induction l as [|x l IH]; intros acc Hacc; simpl; [by rewrite app_nil_r|].
  rewrite IH by (by apply sorted_insert_sorted).
  rewrite sorted_insert_stable by done. rewrite <- app_assoc.
  by destruct (same_key k x).
Qed.

(** [sorted] returns the same elements, in key order, and elements of
    equal key in the order they had. *)
Lemma sorted_spec (l : list A) :
  sorted lt key l ≡ₚ l /\
  StronglySorted (fun x y => lt (key y) (key x) = false) (sorted lt key l) /\
  forall k, List.filter (fun x => negb (lt (key x) k) && negb (lt k (key x))) (sorted lt key l)
            = List.filter (fun x => negb (lt (key x) k) && negb (lt k (key x))) l.
Proof.
  unfold sorted. split; [|split].
  - by rewrite sorted_fold_perm.
  - apply sorted_fold_sorted. constructor.
  - intros k. apply (sorted_fold_stable k l []). constructor.
Qed.

End Sorting.

Lemma StronglySorted_weaken {A : Type} (R R' : A -> A -> Prop) (l : list A) :
  (forall x y, R x y -> R' x y) -> StronglySorted R l -> StronglySorted R' l.
Proof.
  intros HR. induction 1 as [|x l Hl IH Hx]; constructor; [done|].
  eapply Forall_impl; [exact Hx|]. intros y. apply HR.
Qed.

Lemma list_sum_permutation (l1 l2 : list nat) : l1 ≡ₚ l2 -> list_sum l1 = list_sum l2.
Proof. induction 1; simpl; lia. Qed.

Lemma Z_ltb_asym (a b : Z) : (a <? b)%Z = true -> (b <? a)%Z = false.
Proof. rewrite Z.ltb_lt, Z.ltb_ge. lia. Qed.

Lemma Z_ltb_negtrans (a b c : Z) :
  (a <? b)%Z = false -> (b <? c)%Z = false -> (a <? c)%Z = false.
Proof. rewrite !Z.ltb_ge. lia. Qed.

Lemma tuple_lt_false (k1 k2 : nat * Q) :
  tuple_lt k1 k2 = false <->
  (fst k2 < fst k1)%nat \/ (fst k1 = fst k2 /\ snd k2 <= snd k1).
Proof.
  unfold tuple_lt.
  destruct (Nat.eqb_spec (fst k1) (fst k2)) as [Heq|Hne]; simpl.
  - destruct (Qeq_bool (snd k1) (snd k2)) eqn:E; simpl.
    + apply Qeq_bool_iff in E. split; [|done]. intros _. right. split; [done|].
      rewrite E. apply Qle_refl.
    + rewrite Qgt_bool_false. split; [by right|]. intros [?|[_ ?]]; [lia | done].
  - rewrite Nat.ltb_ge. split; [intros; left; lia|]. intros [?|[? _]]; lia.
Qed.

Lemma tuple_lt_asym (a b : nat * Q) : tuple_lt a b = true -> tuple_lt b a = false.
Proof.
  intros H. apply tuple_lt_false.
  destruct (tuple_lt b a) eqn:E; [|by apply tuple_lt_false in E].
  assert (~ ((fst b < fst a)%nat \/ fst a = fst b /\ snd b <= snd a)) as Hab.
  { intros Hc. apply tuple_lt_false in Hc. congruence. }
  assert (~ ((fst a < fst b)%nat \/ fst b = fst a /\ snd a <= snd b)) as Hba.
  { intros Hc. apply tuple_lt_false in Hc. congruence. }
  exfalso. destruct (Nat.lt_trichotomy (fst a) (fst b)) as [?|[Heq|?]]; [tauto| |tauto].
  destruct (Qlt_le_dec (snd a) (snd b)) as [Hlt|Hle].
  - apply Hba. right. split; [done | by apply Qlt_le_weak].
  - apply Hab. by right.
Qed.

Lemma tuple_lt_negtrans (a b c : nat * Q) :
  tuple_lt a b = false -> tuple_lt b c = false -> tuple_lt a c = false.
Proof.
  rewrite !tuple_lt_false. intros [H1|[H1 H1']] [H2|[H2 H2']].
  - left. lia.
  - left. lia.
  - left. lia.
  - right. split; [congruence|]. by apply (Qle_trans _ (snd b)).
Qed.

(** The detailed list of the report holds the same breaks as the input,
    ordered by severity (CRITICAL, HIGH, MEDIUM, LOW, anything else) and
    within a severity by falling abs(variance); breaks that tie in both
    keep the order they had. *)
Theorem sorted_breaks_spec (breaks : list Break) :
  sorted_breaks breaks ≡ₚ breaks /\
  StronglySorted
    (fun b1 b2 =>
       let rank b := dict_get severity_order (severity b) 4%nat in
       (rank b1 < rank b2)%nat \/
       (rank b1 = rank b2 /\ Qabs (variance b2) <= Qabs (variance b1)))
    (sorted_breaks breaks) /\
  (forall k : nat * Q,
     List.filter (fun b => negb (tuple_lt (report_key b) k) && negb (tuple_lt k (report_key b)))
                 (sorted_breaks breaks)
     = List.filter (fun b => negb (tuple_lt (report_key b) k) && negb (tuple_lt k (report_key b)))
                   breaks).
Proof.
  destruct (sorted_spec tuple_lt report_key tuple_lt_asym tuple_lt_negtrans breaks)
    as (Hperm & Hsorted & Hstable).
  split; [exact Hperm|]. split; [|exact Hstable].
  eapply StronglySorted_weaken; [|exact Hsorted].
  intros b1 b2 H. apply tuple_lt_false in H. unfold report_key in H. simpl in H.
  destruct H as [H|[H H']]; [by left|]. right. split; [done|].
  by apply Qopp_le_compat in H'; rewrite !Qopp_involutive in H'.
Qed.

Lemma filter_entries (c : string -> nat) (n : nat) (l : list string) :
  List.filter (fun x : string * nat => (snd x =? n)%nat) (map (fun bt => (bt, c bt)) l)
  = map (fun bt => (bt, n)) (List.filter (fun bt => (c bt =? n)%nat) l).
Proof.
  induction l as [|bt l IH]; simpl; [reflexivity|].
  destruct (Nat.eqb_spec (c bt) n) as [<-|Hne]; simpl; by rewrite IH.
Qed.

(** The type table of the report.  The dictionary [type_counts] holds
    each type that occurs once, in the order in which the types first
    occur in the break list, with the number of breaks of the type.
    The table lists the same entries by falling count; entries with the
    same count keep the order they have in the dictionary, that is the
    order in which their types first occur; the counts add up to the
    number of breaks. *)
Theorem sorted_type_counts_spec (breaks : list Break) :
  let count bt := length (List.filter (fun b => String.eqb (break_type b) bt) breaks) in
  type_counts breaks
    = map (fun bt => (bt, count bt)) (first_seen [] (map break_type breaks)) /\
  sorted_type_counts breaks ≡ₚ type_counts breaks /\
  StronglySorted (fun x y => (snd y <= snd x)%nat) (sorted_type_counts breaks) /\
  (forall n : nat,
     List.filter (fun x => (snd x =? n)%nat) (sorted_type_counts breaks)
     = map (fun bt => (bt, n))
         (List.filter (fun bt => (count bt =? n)%nat)
            (first_seen [] (map break_type breaks)))) /\
  list_sum (map snd (sorted_type_counts breaks)) = length breaks.
Proof.
  intros count.
  destruct (sorted_spec Z.ltb (fun x : string * nat => (- Z.of_nat (snd x))%Z)
              Z_ltb_asym Z_ltb_negtrans (type_counts breaks)) as (Hperm & Hsorted & Hstable).
  fold (sorted_type_counts breaks) in Hperm, Hsorted, Hstable.
  split; [apply type_counts_entries|]. split; [exact Hperm|]. split; [|split].
  - eapply StronglySorted_weaken; [|exact Hsorted].
    intros x y H. simpl in H. apply Z.ltb_ge in H. lia.
  - intros n. specialize (Hstable (- Z.of_nat n)%Z).
    assert (forall x : string * nat,
              negb (- Z.of_nat (snd x) <? - Z.of_nat n)%Z
              && negb (- Z.of_nat n <? - Z.of_nat (snd x))%Z = (snd x =? n)%nat) as Hext.
    { intros x. destruct (Nat.eqb_spec (snd x) n) as [->|Hne].
      - by rewrite Z.ltb_irrefl.
      - destruct (Z.ltb_spec (- Z.of_nat (snd x)) (- Z.of_nat n)); simpl; [done|].
        destruct (Z.ltb_spec (- Z.of_nat n) (- Z.of_nat (snd x))); simpl; [done|]. lia. }
    rewrite !(filter_ext _ _ Hext) in Hstable. rewrite Hstable, type_counts_entries.
    apply filter_entries.
  - assert (map snd (sorted_type_counts breaks) ≡ₚ map snd (type_counts breaks)) as Hp
      by (by apply Permutation_map).
    rewrite (list_sum_permutation _ _ Hp). unfold type_counts.
    apply (count_loop_sum break_type breaks []).
Qed.

(** ** The report on the breaks of a run *)

Lemma counts_in_total_by_type (b : Break) :
  break_type b = "Missing in Target" \/ break_type b = "Missing in Source" \/
  break_type b = "Quantity Mismatch" \/ break_type b = "Price Mismatch" \/
  break_type b = "Market Value Mismatch" ->
  counts_in_total b
  = (String.eqb (break_type b) "Missing in Target" || String.eqb (break_type b) "Missing in Source").
Proof.
  unfold counts_in_total. intros [H|[H|[H|[H|H]]]]; rewrite H; reflexivity.
Qed.

Lemma length_by_severity (l : list Break) :
  (forall b, b ∈ l ->
     severity b = "CRITICAL" \/ severity b = "HIGH" \/
     severity b = "MEDIUM" \/ severity b = "LOW") ->
  (length (List.filter (fun b => String.eqb (severity b) "CRITICAL") l)
   + length (List.filter (fun b => String.eqb (severity b) "HIGH") l)
   + length (List.filter (fun b => String.eqb (severity b) "MEDIUM") l)
   + length (List.filter (fun b => String.eqb (severity b) "LOW") l))%nat = length l.
Proof.
  induction l as [|b l IH]; intros Hl; [reflexivity|].
  assert (forall b', b' ∈ l ->
            severity b' = "CRITICAL" \/ severity b' = "HIGH" \/
            severity b' = "MEDIUM" \/ severity b' = "LOW") as Hl'
    by (intros b' Hb'; apply Hl; by right).
  specialize (IH Hl'). simpl.
  destruct (Hl b (list_elem_of_here _ _)) as [H|[H|[H|H]]]; rewrite H; simpl; lia.
Qed.

Section ReportOfARun.

Variable iter : gset string -> list string.
Hypothesis iter_spec : iter_ok iter.
Variables internal_df pb_df : ref.
Variable h : heap.

(** On the breaks of a run the figure TOTAL MARKET VALUE VARIANCE adds
    abs(variance) of the missing position breaks only: the test looks
    for market_value, with an underscore, in the lower-cased type, which
    Market Value Mismatch does not contain; no mismatch break counts. *)
Theorem total_variance_counts_missing_only :
  exists breaks,
    breaks_of (reconcile_positions iter internal_df pb_df h) = Ok breaks /\
    (forall b, b ∈ breaks ->
       (counts_in_total b = true
        <-> break_type b = "Missing in Target" \/ break_type b = "Missing in Source")) /\
    total_variance breaks
    = fold_left fadd
        (map (fun b => Qabs (variance b))
           (List.filter (fun b => String.eqb (break_type b) "Missing in Target"
                                  || String.eqb (break_type b) "Missing in Source") breaks)) 0.
Proof.
  exists (detect iter (h internal_df) (h pb_df)).
  split; [by apply reconcile_positions_detect|].
  assert (forall b, b ∈ detect iter (h internal_df) (h pb_df) ->
            counts_in_total b
            = (String.eqb (break_type b) "Missing in Target"
               || String.eqb (break_type b) "Missing in Source")) as Hty.
  { intros b Hb. apply counts_in_total_by_type.
    destruct (detect_layout iter iter_spec (h internal_df) (h pb_df))
      as (mt & ms & matched & Heq & _ & _ & _ & Tmt & Tms & Tm).
    rewrite Heq, !elem_of_app in Hb. destruct Hb as [Hb|[Hb|Hb]].
    - left. by apply Tmt.
    - right. left. by apply Tms.
    - right. right. by apply Tm. }
  split.
  - intros b Hb. rewrite (Hty b Hb), orb_true_iff, !String.eqb_eq. done.
  - unfold total_variance. do 2 f_equal. apply filter_ext_in.
    intros b Hb. apply Hty. by apply list_elem_of_In.
Qed.

(** On the breaks of a run the four rows of the severity table add up
    to the number of breaks: no break is left out of the table. *)
Theorem severity_table_complete :
  exists breaks,
    breaks_of (reconcile_positions iter internal_df pb_df h) = Ok breaks /\
    (dict_get (severity_counts breaks) "CRITICAL" 0 + dict_get (severity_counts breaks) "HIGH" 0
     + dict_get (severity_counts breaks) "MEDIUM" 0 + dict_get (severity_counts breaks) "LOW" 0)%nat
    = length breaks.
Proof.
  exists (detect iter (h internal_df) (h pb_df)).
  split; [by apply reconcile_positions_detect|].
  rewrite !severity_counts_get.
  apply length_by_severity. intros b Hb.
  by destruct (detect_describes_position iter iter_spec internal_df pb_df h b Hb) as [_ ?].
Qed.

End ReportOfARun.

(** * The further properties on the sample snapshots *)

Lemma quantity_break_iff_witness :
  exists breaks b,
    breaks_of (reconcile_positions elements 0%nat 1%nat rounding_heap) = Ok breaks /\
    b ∈ breaks /\ break_type b = "Quantity Mismatch" /\ break_key b = "QTY|HEDGE_FUND_01" /\
    internal_value b = 800 /\ pb_value b = 691 /\ variance b = 109 /\
    variance_pct b = binary64 (1363 # 100) /\ severity b = "CRITICAL".
Proof.
  destruct (quantity_break_iff elements elements_iter_ok 0%nat 1%nat rounding_heap
              "QTY|HEDGE_FUND_01"
              (position "QTY" "HEDGE_FUND_01" 800 10 8000)
              (position "QTY" "HEDGE_FUND_01" 691 10 6910) eq_refl eq_refl)
    as (_ & _ & breaks & Hrun & Hiff & Hfields).
  destruct (proj2 Hiff) as (b & Hb & Hty & Hk); [vm_compute; reflexivity|].
  destruct (Hfields b Hb Hty Hk) as (Hi & Hp & Hv & Hvp & Hs).
  exists breaks, b.
  split; [exact Hrun|]. split; [exact Hb|]. split; [exact Hty|]. split; [exact Hk|].
  split; [exact Hi|]. split; [exact Hp|].
  split; [rewrite Hv; vm_compute; reflexivity|].
  split; [rewrite Hvp; vm_compute; reflexivity|].
  rewrite Hs. vm_compute. reflexivity.
Defined.

Lemma price_break_iff_witness :
  exists breaks b,
    breaks_of (reconcile_positions elements 0%nat 1%nat rounding_heap) = Ok breaks /\
    b ∈ breaks /\ break_type b = "Price Mismatch" /\ break_key b = "PRC|HEDGE_FUND_01" /\
    internal_value b = binary64 (535 # 100) /\ pb_value b = binary64 (2675 # 1000) /\
    variance b = binary64 (268 # 100) /\ variance_pct b = 50 /\ severity b = "CRITICAL".
Proof.
  destruct (price_break_iff elements elements_iter_ok 0%nat 1%nat rounding_heap
              "PRC|HEDGE_FUND_01"
              (position "PRC" "HEDGE_FUND_01" 10 (binary64 (535 # 100)) (binary64 (535 # 10)))
              (position "PRC" "HEDGE_FUND_01" 10 (binary64 (2675 # 1000)) (binary64 (2675 # 100)))
              eq_refl eq_refl)
    as (_ & _ & breaks & Hrun & Hiff & Hfields).
  destruct (proj2 Hiff) as (b & Hb & Hty & Hk); [vm_compute; reflexivity|].
  destruct (Hfields b Hb Hty Hk) as (Hi & Hp & Hv & Hvp & Hs).
  exists breaks, b.
  split; [exact Hrun|]. split; [exact Hb|]. split; [exact Hty|]. split; [exact Hk|].
  split; [exact Hi|]. split; [exact Hp|].
  split; [rewrite Hv; vm_compute; reflexivity|].
  split; [rewrite Hvp; vm_compute; reflexivity|].
  rewrite Hs. vm_compute. reflexivity.
Defined.

Lemma breaks_per_key_witness :
  exists breaks,
    breaks_of (reconcile_positions elements 0%nat 1%nat sample_heap) = Ok breaks /\
    (length (filter (fun b => break_key b = "AAPL|HEDGE_FUND_01") breaks) <= 3)%nat /\
    length (filter (fun b => break_key b = "XYZ|HEDGE_FUND_01") breaks) = 1%nat.
Proof.
  destruct (breaks_per_key elements elements_iter_ok 0%nat 1%nat sample_heap)
    as (breaks & Hrun & Hkeys).
  exists breaks. split; [exact Hrun|]. split.
  - pose proof (Hkeys "AAPL|HEDGE_FUND_01") as Hk. cbv zeta in Hk. apply Hk.
  - pose proof (Hkeys "XYZ|HEDGE_FUND_01") as Hk. cbv zeta in Hk.
    destruct Hk as (_ & Hone & _). apply Hone; compute_done.
Defined.

Lemma break_list_layout_witness :
  exists mt ms matched,
    breaks_of (reconcile_positions elements 0%nat 1%nat sample_heap) = Ok (mt ++ ms ++ matched) /\
    map break_key mt = [ "XYZ|HEDGE_FUND_01" ] /\
    map break_key ms = [ "NFLX|HEDGE_FUND_01" ] /\
    sublist (map (fun b => (break_key b, break_type b)) matched)
      [ ("MSFT|HEDGE_FUND_01", "Quantity Mismatch"); ("MSFT|HEDGE_FUND_01", "Price Mismatch");
        ("MSFT|HEDGE_FUND_01", "Market Value Mismatch");
        ("IDLE|HEDGE_FUND_02", "Quantity Mismatch"); ("IDLE|HEDGE_FUND_02", "Price Mismatch");
        ("IDLE|HEDGE_FUND_02", "Market Value Mismatch");
        ("AAPL|HEDGE_FUND_01", "Quantity Mismatch"); ("AAPL|HEDGE_FUND_01", "Price Mismatch");
        ("AAPL|HEDGE_FUND_01", "Market Value Mismatch");
        ("JPM|HEDGE_FUND_02", "Quantity Mismatch"); ("JPM|HEDGE_FUND_02", "Price Mismatch");
        ("JPM|HEDGE_FUND_02", "Market Value Mismatch") ] /\
    (forall b, mt !! 0%nat = Some b -> break_id b = "BRK-0001").
Proof.
  destruct (break_list_layout elements elements_iter_ok 0%nat 1%nat sample_heap)
    as (mt & ms & matched & Hrun & Kmt & _ & Kms & _ & Km & _ & _ & _ & Hid).
  exists mt, ms, matched. split; [exact Hrun|].
  split; [rewrite Kmt; vm_compute; reflexivity|].
  split; [rewrite Kms; vm_compute; reflexivity|].
  split; [exact Km|].
  intros b Hb. apply (Hid 0%nat b). by apply lookup_app_l_Some.
Defined.

Lemma market_value_break_never_low_witness :
  exists breaks,
    breaks_of (reconcile_positions elements 0%nat 1%nat sample_heap) = Ok breaks /\
    forall b, b ∈ breaks -> break_type b = "Market Value Mismatch" ->
      severity b = "CRITICAL" \/ severity b = "HIGH" \/ severity b = "MEDIUM".
Proof.
  apply (market_value_break_never_low elements elements_iter_ok 0%nat 1%nat sample_heap).
Defined.

Lemma empty_snapshot_witness :
  exists breaks,
    breaks_of (reconcile_positions elements 0%nat 1%nat
                 (fun r => match r with
                           | O => {| df_rows := []; df_pos_key := None |}
                           | S _ => sample_pb
                           end)) = Ok breaks /\
    map break_key breaks
      = [ "MSFT|HEDGE_FUND_01"; "IDLE|HEDGE_FUND_02"; "AAPL|HEDGE_FUND_01";
          "NFLX|HEDGE_FUND_01"; "JPM|HEDGE_FUND_02" ] /\
    forall b, b ∈ breaks -> break_type b = "Missing in Source".
Proof.
  destruct (proj1 (empty_snapshot elements elements_iter_ok 0%nat 1%nat
                     (fun r => match r with
                               | O => {| df_rows := []; df_pos_key := None |}
                               | S _ => sample_pb
                               end)) eq_refl)
    as (breaks & Hrun & Hkeys & _ & _ & Hty & _).
  exists breaks. split; [exact Hrun|]. split; [|exact Hty].
  rewrite Hkeys. vm_compute. reflexivity.
Defined.

Lemma break_describes_position_witness :
  exists breaks,
    breaks_of (reconcile_positions elements 0%nat 1%nat sample_heap) = Ok breaks /\
    forall b, b ∈ breaks ->
      severity b = "CRITICAL" \/ severity b = "HIGH" \/
      severity b = "MEDIUM" \/ severity b = "LOW".
Proof.
  destruct (break_describes_position elements elements_iter_ok 0%nat 1%nat sample_heap)
    as (breaks & Hrun & Hall).
  exists breaks. split; [exact Hrun|]. intros b Hb. apply (Hall b Hb).
Defined.

Lemma total_variance_counts_missing_only_witness :
  exists breaks,
    breaks_of (reconcile_positions elements 0%nat 1%nat sample_heap) = Ok breaks /\
    total_variance breaks
    = fold_left fadd
        (map (fun b => Qabs (variance b))
           (List.filter (fun b => String.eqb (break_type b) "Missing in Target"
                                  || String.eqb (break_type b) "Missing in Source") breaks)) 0.
Proof.
  destruct (total_variance_counts_missing_only elements elements_iter_ok 0%nat 1%nat sample_heap)
    as (breaks & Hrun & _ & Htotal).
  exists breaks. split; [exact Hrun | exact Htotal].
Defined.

Lemma severity_table_complete_witness :
  exists breaks,
    breaks_of (reconcile_positions elements 0%nat 1%nat sample_heap) = Ok breaks /\
    (dict_get (severity_counts breaks) "CRITICAL" 0 + dict_get (severity_counts breaks) "HIGH" 0
     + dict_get (severity_counts breaks) "MEDIUM" 0 + dict_get (severity_counts breaks) "LOW" 0)%nat
    = length breaks.
Proof.
  apply (severity_table_complete elements elements_iter_ok 0%nat 1%nat sample_heap).
Defined.

(** The report figures on the sample run: the total leaves out the
    60,000 of the market value mismatch. *)
Example sample_report_figures :
  match breaks_of (reconcile_positions elements 0%nat 1%nat sample_heap) with
  | Ok breaks =>
      (severity_counts breaks, Qeq_bool (total_variance breaks) 1563000,
       map break_id (sorted_breaks breaks))
  | Err _ => ([], false, [])
  end
  = ([ ("CRITICAL", 3%nat); ("HIGH", 2%nat) ], true,
     [ "BRK-0002"; "BRK-0001"; "BRK-0003"; "BRK-0005"; "BRK-0004" ]).
Proof. vm_compute. reflexivity. Qed.

(** The type table on a list in which two types tie: Price Mismatch
    comes first in the list, so it stays before Missing in Source. *)
Example sorted_type_counts_example :
  let brk (t : string) := with_break_type t (sample_break "" "LOW" 0) in
  sorted_type_counts
    [ brk "Price Mismatch"; brk "Missing in Source"; brk "Quantity Mismatch";
      brk "Quantity Mismatch"; brk "Missing in Source"; brk "Price Mismatch";
      brk "Quantity Mismatch" ]
  = [ ("Quantity Mismatch", 3%nat); ("Price Mismatch", 2%nat); ("Missing in Source", 2%nat) ].
Proof. vm_compute. reflexivity. Qed.

(** * The rounding of binary64 arithmetic on examples *)

(** Decimal literals and sums: 0.1 + 0.2 is not 0.3. *)
Example binary64_examples :
  binary64 (1 # 10) = 3602879701896397 # 36028797018963968 /\
  binary64 (1 # 2) = 1 # 2 /\
  binary64 12345 = 12345 /\
  fadd (binary64 (1 # 10)) (binary64 (2 # 10)) <> binary64 (3 # 10) /\
  of_int (2 ^ 53 + 1) = inject_Z (2 ^ 53) /\
  wrap64 (2 ^ 63 - 1 - -1) = (- 2 ^ 63)%Z.
Proof. vm_compute. repeat split; discriminate. Qed.

(** The arithmetic of the model against the binary64 arithmetic of the
    kernel, whose floats are the processor's: the same results, among
    them a tie in the subnormal range. *)
Section KernelFloats.
Import PrimFloat.

Example kernel_floats :
  float_value (10001 / 100)%float = binary64 (10001 # 100) /\
  float_value (10001 / 100 - 1 / 100)%float
    = fsub (binary64 (10001 # 100)) (binary64 (1 # 100)) /\
  float_value (109 / 800 * 100)%float = fmul (fdiv 109 800) 100 /\
  float_value (2675 / 1000 * 100)%float = fmul (binary64 (2675 # 1000)) 100 /\
  float_value (1 / 10 + 2 / 10)%float = fadd (binary64 (1 # 10)) (binary64 (2 # 10)) /\
  float_value (30 - 2997 / 100)%float = fsub 30 (binary64 (2997 # 100)) /\
  float_value ((30 - 2997 / 100) / 30 * 100)%float
    = fmul (fdiv (fsub 30 (binary64 (2997 # 100))) 30) 100 /\
  float_value (3 * 0x1p-1074 / 2)%float = binary64 ((3 # 2) * Qpower 2 (-1074)).
Proof. vm_compute. repeat split. Qed.

End KernelFloats.

(** 30.00 against 29.97 is 0.1 percent exactly, which is no more than
    the tolerance; in binary64 the percentage comes out above the float
    nearest to 0.1, so the pair gets a Price Mismatch. *)
Example price_tolerance_rounding :
  let int_pos := position "RATE" "HEDGE_FUND_01" 10 30 300 in
  let pb_pos := position "RATE" "HEDGE_FUND_01" 10 (binary64 (2997 # 100))
                         (binary64 (2997 # 10)) in
  (30 - (2997 # 100)) / 30 * 100 == 1 # 10 /\
  (exists pct, price_var_pct int_pos pb_pos = Ok pct /\ binary64 (1 # 10) < pct) /\
  map break_type (added (check_price int_pos pb_pos)) = [ "Price Mismatch" ].
Proof.
  split; [reflexivity|]. split; [|vm_compute; reflexivity].
  eexists. split; [reflexivity|]. vm_compute. reflexivity.
Qed.

(** 100.01 - 0.01 is 100 exactly in binary64, so the pair 100.01
    against 0.01 stays at the de-minimis floor and gets no Market Value
    Mismatch, although the exact difference of the two floats exceeds
    100. *)
Example market_value_rounding :
  let int_pos := position "PENNY" "HEDGE_FUND_01" 1 (binary64 (10001 # 100))
                          (binary64 (10001 # 100)) in
  let pb_pos := position "PENNY" "HEDGE_FUND_01" 1 (binary64 (1 # 100)) (binary64 (1 # 100)) in
  mv_var int_pos pb_pos = 100 /\
  100 < market_value int_pos - market_value pb_pos /\
  check_market_value int_pos pb_pos [] = Ok [].
Proof. vm_compute. repeat split. Qed.

(** numpy's [round(x, 2)]: 109 in 800 is 13.625000000000002 percent and
    is stored as 13.63; the float nearest to 2.675 lies below 2.675 and
    is stored as 2.68 all the same, because 2.675 * 100 rounds to
    267.5. *)
Example round2_examples :
  fmul (fdiv 109 800) 100 = binary64 (13625000000000002 # 1000000000000000) /\
  round2 (fmul (fdiv 109 800) 100) = binary64 (1363 # 100) /\
  binary64 (2675 # 1000) < 2675 # 1000 /\
  fmul (binary64 (2675 # 1000)) 100 = 535 # 2 /\
  round2 (binary64 (2675 # 1000)) = binary64 (268 # 100).
Proof. vm_compute. repeat split. Qed.

(** The run on the rounding snapshots: identifier, type, symbol,
    variance and stored percentage of each break.  The quantity
    difference of WIDE wraps around to -2^63. *)
Example rounding_run :
  match breaks_of (reconcile_positions elements 0%nat 1%nat rounding_heap) with
  | Ok breaks =>
      map (fun b => (break_id b, break_type b, brk_symbol b, variance b, variance_pct b)) breaks
  | Err _ => []
  end =
  [ ("BRK-0001", "Quantity Mismatch", "WIDE", inject_Z (- 2 ^ 63), - (100));
    ("BRK-0002", "Quantity Mismatch", "QTY", 109, binary64 (1363 # 100));
    ("BRK-0003", "Market Value Mismatch", "QTY", 1090, binary64 (1363 # 100));
    ("BRK-0004", "Price Mismatch", "PENNY", 100, binary64 (9999 # 100));
    ("BRK-0005", "Price Mismatch", "PRC", binary64 (268 # 100), 50) ].
Proof. vm_compute. reflexivity. Qed.
